(** * Configuration reconciliation, persistence and translation helpers

    A shallow embedding of [my_plugin/utils/serializer.py],
    [my_plugin/utils/file_util.py] and [my_plugin/utils/translation.py].

    The plugin is glue over a host runtime (MCDReforged) and a YAML library
    (ruamel.yaml).  Neither is part of the repository, so both enter the
    development as interfaces (type classes); the functions of the
    repository are written over these interfaces and every general theorem
    holds for all their implementations.  Small concrete implementations
    are given for the worked scenarios. *)

From stdpp Require Import base option list strings gmap pretty.
From Stdlib Require Import ZArith Ascii String.

Local Open Scope string_scope.
Local Open Scope list_scope.
Local Open Scope Z_scope.

Set Warnings "-register-all,-clear-no-such-hyp".

(** ** Python exceptions and results *)

Inductive exn : Type :=
| ValueError
| TypeError
| KeyError
| AttributeError
| OSError
| YAMLError
| OtherError.

Inductive result (A : Type) : Type :=
| Ok (a : A)
| Raise (e : exn).
Arguments Ok {A} a.
Arguments Raise {A} e.

#[export] Instance result_ret : MRet result := fun A a => Ok a.
#[export] Instance result_bind : MBind result := fun A B f r =>
  match r with
  | Ok a => f a
  | Raise e => Raise e
  end.

(** [except (ValueError, TypeError)] *)
Definition is_value_or_type_error (e : exn) : bool :=
  match e with
  | ValueError | TypeError => true
  | _ => false
  end.

(** [except (KeyError, ValueError)] *)
Definition is_key_or_value_error (e : exn) : bool :=
  match e with
  | KeyError | ValueError => true
  | _ => false
  end.

(** ** Documents

    A parsed YAML document.  Mappings keep insertion order, as Python
    dictionaries do; keys are strings.  [VOpaque] stands for any other
    Python object a coercion may produce (a float, an enum member, a
    class instance); its type is supplied by the host. *)

Inductive value (O : Type) : Type :=
| VNone
| VBool (b : bool)
| VInt (n : Z)
| VStr (s : string)
| VList (l : list (value O))
| VDict (d : list (string * value O))
| VOpaque (o : O).
Arguments VNone {O}.
Arguments VBool {O} b.
Arguments VInt {O} n.
Arguments VStr {O} s.
Arguments VList {O} l.
Arguments VDict {O} d.
Arguments VOpaque {O} o.

Definition dict (O : Type) : Type := list (string * value O).

(** [d.get(key)]: [None] when [key not in d.keys()]. *)
Fixpoint dict_get {V : Type} (d : list (string * V)) (key : string) : option V :=
  match d with
  | [] => None
  | (k, v) :: d' => if String.eqb k key then Some v else dict_get d' key
  end.

(** [d[key] = v]: an existing key keeps its position. *)
Fixpoint dict_set {V : Type} (d : list (string * V)) (key : string) (v : V)
  : list (string * V) :=
  match d with
  | [] => [(key, v)]
  | (k, w) :: d' =>
      if String.eqb k key then (k, v) :: d' else (k, w) :: dict_set d' key v
  end.

(** ['.'.join(nodes)] *)
Definition join (sep : string) (l : list string) : string := String.concat sep l.

(** ** The host's coercion interface

    [ptype] are the type hints the host's [deserialize] understands.
    [deserialize] is called with [error_at_redundancy=True];
    [isinstance_Serializable] is [isinstance(target_type, Serializable)],
    [get_default_serialize] is [target_type.get_default().serialize()] and
    [construct] is the call [target_type(value)]. *)

Class Host : Type := {
  pyobj : Type;
  ptype : Type;
  deserialize : value pyobj -> ptype -> result (value pyobj);
  isinstance_Serializable : ptype -> bool;
  get_default_serialize : ptype -> result (value pyobj);
  construct : ptype -> value pyobj -> result (value pyobj);
}.

(** ** Schemas

    A class deriving from [BlossomSerializable] is given by its field
    annotations, in declaration order, and by
    [cls.get_default().serialize()].  The annotations are classes or
    generic aliases, so that a field's type is either a
    [BlossomSerializable] class ([get_origin(target_type) is None and
    issubclass(target_type, BlossomSerializable)]) or any other type
    hint of the host. *)

Inductive schema `{Host} : Type :=
| Schema (annotations : list (string * field_type)) (default_data : dict pyobj)
with field_type `{Host} : Type :=
| Blossom (cls : schema)
| Plain (target_type : ptype).

Definition get_field_annotations `{Host} (cls : schema) : list (string * field_type) :=
  match cls with Schema a _ => a end.

Definition get_default_data `{Host} (cls : schema) : dict pyobj :=
  match cls with Schema _ d => d end.

(** ** [BlossomSerializable._fix_data] *)

Fixpoint _fix_data `{Host} (cls : schema) (data : value pyobj)
    (father_nodes : list string) {struct cls}
  : result (dict pyobj * list string) :=
  match cls with
  | Schema annotations default_data =>
    (fix loop (items : list (string * field_type))
         (fixed_dict : dict pyobj) (needs_save : list string) {struct items}
       : result (dict pyobj * list string) :=
       match items with
       | [] => Ok (fixed_dict, needs_save)
       | (key, target_type) :: items' =>
         let current_nodes := father_nodes ++ [key] in
         let node_name := join "." current_nodes in
         match data with
         | VDict d =>
           match dict_get d key with
           | None =>
             match dict_get default_data key with
             | Some dflt =>
                 loop items' (dict_set fixed_dict key dflt) (needs_save ++ [node_name])
             | None => loop items' fixed_dict needs_save
             end
           | Some value =>
             match target_type with
             | Blossom single_type =>
               match _fix_data single_type value current_nodes with
               | Ok (single_data, save_nodes) =>
                   loop items' (dict_set fixed_dict key (VDict single_data))
                        (needs_save ++ save_nodes)
               | Raise e => Raise e
               end
             | Plain ty =>
               match deserialize value ty with
               | Ok value' => loop items' (dict_set fixed_dict key value') needs_save
               | Raise e =>
                 if is_value_or_type_error e then
                   let needs_save := needs_save ++ [node_name] in
                   match dict_get default_data key with
                   | None => loop items' fixed_dict needs_save
                   | Some dflt =>
                     if isinstance_Serializable ty then
                       match get_default_serialize ty with
                       | Ok value' => loop items' (dict_set fixed_dict key value') needs_save
                       | Raise e' => Raise e'
                       end
                     else
                       match construct ty value with
                       | Ok value' => loop items' (dict_set fixed_dict key value') needs_save
                       | Raise _ => loop items' (dict_set fixed_dict key dflt) needs_save
                       end
                   end
                 else Raise e
               end
             end
           end
         | _ => Raise AttributeError
         end
       end) annotations [] []
  end.

(** ** A concrete host: the built-in types [int] and [bool]

    The host's [deserialize] accepts a value for a basic class exactly when
    the value has that very class.  [int(value)] and [bool(value)] are
    Python's constructors on parsed YAML values; the characters of a
    string are code points below 256. *)

Inductive builtin_type : Type := PInt | PBool.

(** The characters [int] skips around the digits of a string: tab, line
    feed, vertical tab, form feed, carriage return, space, and the two
    white-space characters above 127, next line and no-break space. *)
Definition is_py_space (c : ascii) : bool :=
  let n := Z.of_nat (nat_of_ascii c) in
  ((9 <=? n) && (n <=? 13)) || (n =? 32) || (n =? 133) || (n =? 160).

Definition digit_of (c : ascii) : option Z :=
  let n := Z.of_nat (nat_of_ascii c) in
  if (48 <=? n) && (n <=? 57) then Some (n - 48) else None.

Fixpoint lstrip (l : list ascii) : list ascii :=
  match l with
  | c :: l' => if is_py_space c then lstrip l' else l
  | [] => []
  end.

Definition strip (l : list ascii) : list ascii := rev (lstrip (rev (lstrip l))).

(** Decimal digits, single underscores allowed between two digits. *)
Fixpoint parse_digits (l : list ascii) (acc : Z) (after_digit : bool) : option Z :=
  match l with
  | [] => if after_digit then Some acc else None
  | c :: l' =>
    match digit_of c with
    | Some d => parse_digits l' (10 * acc + d) true
    | None =>
      if Ascii.eqb c "_"%char && after_digit then parse_digits l' acc false else None
    end
  end.

(** [sys.get_int_max_str_digits()], as Python sets it. *)
Definition int_max_str_digits : Z := 4300.

Fixpoint count_digits (l : list ascii) : Z :=
  match l with
  | c :: l' =>
    match digit_of c with Some _ => 1 | None => 0 end + count_digits l'
  | [] => 0
  end.

(** [int(s)] for a string [s], base 10: a [ValueError] (here [None]) when
    [s] is no literal or has more digits than [int] converts. *)
Definition int_of_string (s : string) : option Z :=
  let stripped := strip (list_ascii_of_string s) in
  if int_max_str_digits <? count_digits stripped then None
  else
    match stripped with
    | c :: l' =>
      if Ascii.eqb c "-"%char then Z.opp <$> parse_digits l' 0 false
      else if Ascii.eqb c "+"%char then parse_digits l' 0 false
      else parse_digits (c :: l') 0 false
    | [] => None
    end.

Definition py_value : Type := value Empty_set.

Definition py_int (v : py_value) : result py_value :=
  match v with
  | VInt n => Ok (VInt n)
  | VBool b => Ok (VInt (if b then 1 else 0))
  | VStr s =>
    match int_of_string s with
    | Some n => Ok (VInt n)
    | None => Raise ValueError
    end
  | VNone | VList _ | VDict _ => Raise TypeError
  | VOpaque o => match o with end
  end.

Definition py_bool (v : py_value) : result py_value :=
  match v with
  | VNone => Ok (VBool false)
  | VBool b => Ok (VBool b)
  | VInt n => Ok (VBool (negb (n =? 0)))
  | VStr s => Ok (VBool (negb (String.eqb s "")))
  | VList l => Ok (VBool (match l with [] => false | _ => true end))
  | VDict d => Ok (VBool (match d with [] => false | _ => true end))
  | VOpaque o => match o with end
  end.

Definition py_deserialize (v : py_value) (ty : builtin_type) : result py_value :=
  match ty, v with
  | PInt, VInt _ => Ok v
  | PBool, VBool _ => Ok v
  | _, _ => Raise TypeError
  end.

Definition py_construct (ty : builtin_type) (v : py_value) : result py_value :=
  match ty with
  | PInt => py_int v
  | PBool => py_bool v
  end.

#[export] Instance py_host : Host := {|
  pyobj := Empty_set;
  ptype := builtin_type;
  deserialize := py_deserialize;
  isinstance_Serializable := fun _ => false;
  get_default_serialize := fun _ => Raise AttributeError;
  construct := py_construct;
|}.

(** Schema [{a: int (default 5)}]. *)
Definition schema_a : @schema py_host :=
  Schema [("a", Plain PInt)] [("a", VInt 5)].

(** Nested schema: [sub] is a [BlossomSerializable] with [x: int = 0]. *)
Definition schema_x : @schema py_host :=
  Schema [("x", Plain PInt)] [("x", VInt 0)].

Definition schema_sub : @schema py_host :=
  Schema [("sub", Blossom schema_x)] [("sub", VDict [("x", VInt 0)])].

(** A field whose default does not have the declared type: [a: int = None]. *)
Definition schema_none : @schema py_host :=
  Schema [("a", Plain PInt)] [("a", VNone)].

(** A field without default: [a: int]. *)
Definition schema_nodefault : @schema py_host :=
  Schema [("a", Plain PInt)] [].

(** [b: int = 1] beside the nested [sub]. *)
Definition schema_b_sub : @schema py_host :=
  Schema [("b", Plain PInt); ("sub", Blossom schema_x)]
         [("b", VInt 1); ("sub", VDict [("x", VInt 0)])].

(** [opt] is a [BlossomSerializable] that declares no field. *)
Definition schema_opt : @schema py_host :=
  Schema [("opt", Blossom (Schema [] []))] [("opt", VDict [])].

(** ** The plugin server interface

    [psi] of the host: the plugin's id, the translation lookup
    [psi.tr(key, *args, language=..., allow_failure=False)] (which raises
    when the key is missing), the host language, the data folder and the
    files bundled with the plugin.  [rtext] are the host's rich-text
    objects, [targs] the positional and keyword arguments handed through
    to the lookup, [source] the command sources. *)

Class Psi : Type := {
  rtext : Type;
  targs : Type;
  source : Type;
  plugin_id : string;
  psi_tr : string -> targs -> option string -> result (string + rtext);
  get_mcdr_language : string;
  get_data_folder : string;
  open_bundled_file : option string -> result string;
}.

(** [MessageText = Union[str, RTextBase]] *)
Definition MessageText `{Psi} : Type := (string + rtext)%type.

(** ** [my_plugin/utils/translation.py] *)

Definition TRANSLATION_KEY_PREFIX `{Psi} : string := plugin_id +:+ ".".

(** [s.startswith(prefix)] *)
Definition startswith (s prefix : string) : bool := String.prefix prefix s.

(** The translation object built by [rtr] and [ktr]: its key, the
    arguments passed on, and the keyword arguments [ktr] adds. *)
Record RTextMCDRTranslation `{Psi} : Type := {
  translation_key : string;
  tr_args : targs;
  kw_log_error_message : option bool;
  kw_default_fallback : option MessageText;
}.

Definition rtr `{Psi} (translation_key : string) (args : targs) (with_prefix : bool)
  : RTextMCDRTranslation :=
  let translation_key :=
    if with_prefix && negb (startswith translation_key TRANSLATION_KEY_PREFIX)
    then TRANSLATION_KEY_PREFIX +:+ translation_key
    else translation_key in
  {| translation_key := translation_key; tr_args := args;
     kw_log_error_message := None; kw_default_fallback := None |}.

Definition ktr `{Psi} (translation_key : string) (args : targs)
    (default_fallback : option MessageText) (log_error_message : bool)
    (prefix : string) : RTextMCDRTranslation :=
  let actual_translation_key :=
    if negb (startswith translation_key prefix)
    then prefix +:+ translation_key
    else translation_key in
  {| translation_key := actual_translation_key; tr_args := args;
     kw_log_error_message := Some log_error_message;
     kw_default_fallback :=
       Some (match default_fallback with
             | None => inl translation_key
             | Some d => d
             end) |}.

(** [for item in (...): if item not in languages: languages.append(item)] *)
Fixpoint collect_languages (items languages : list (option string))
  : list (option string) :=
  match items with
  | [] => languages
  | item :: items' =>
    if bool_decide (item ∈ languages) then collect_languages items' languages
    else collect_languages items' (languages ++ [item])
  end.

(** [', '.join(languages)]: a [None] item is a [TypeError]. *)
Definition join_languages (languages : list (option string)) : result string :=
  match mapM (M := option) id languages with
  | Some l => Ok (join ", " l)
  | None => Raise TypeError
  end.

Definition dquote : string := String (ascii_of_nat 34) EmptyString.

(** [ntr] returns the lines sent to [psi.logger.error] together with its
    result. *)
Definition ntr `{Psi} (translation_key : string) (args : targs)
    (language _mcdr_tr_language : option string) (allow_failure : bool)
    (_default_fallback : option MessageText) (log_error_message : bool)
  : list string * result MessageText :=
  let _mcdr_tr_language :=
    match language, _mcdr_tr_language with
    | Some l, None => Some l
    | _, _ => _mcdr_tr_language
    end in
  match psi_tr translation_key args _mcdr_tr_language with
  | Ok text => ([], Ok text)
  | Raise e =>
    if is_key_or_value_error e then
      let fallback_language := get_mcdr_language in
      let second :=
        if String.eqb fallback_language "en_us" then Raise KeyError
        else psi_tr translation_key args (Some "en_us") in
      match second with
      | Ok text => ([], Ok text)
      | Raise e' =>
        if is_key_or_value_error e' then
          let languages :=
            collect_languages
              [_mcdr_tr_language; Some fallback_language; Some "en_us"] [] in
          match join_languages languages with
          | Raise e'' => ([], Raise e'')
          | Ok languages =>
            if allow_failure then
              (if log_error_message
               then ["Error translate text " +:+ dquote +:+ translation_key
                       +:+ dquote +:+ " to language " +:+ languages]
               else [],
               Ok (match _default_fallback with
                   | None => inl translation_key
                   | Some d => d
                   end))
            else ([], Raise KeyError)
          end
        else ([], Raise e')
      end
    else ([], Raise e)
  end.

(** ** Paths ([posixpath]) *)

Definition is_slash (c : ascii) : bool := Ascii.eqb c "/"%char.

Fixpoint has_slash (p : string) : bool :=
  match p with
  | EmptyString => false
  | String c p' => is_slash c || has_slash p'
  end.

(** [p[:p.rfind('/') + 1]] *)
Fixpoint path_head (p : string) : string :=
  match p with
  | EmptyString => EmptyString
  | String c p' =>
    if has_slash p' then String c (path_head p')
    else if is_slash c then String c EmptyString
    else EmptyString
  end.

(** [os.path.basename(p)]: [p[p.rfind('/') + 1:]] *)
Fixpoint basename (p : string) : string :=
  match p with
  | EmptyString => EmptyString
  | String c p' =>
    if has_slash p' then basename p'
    else if is_slash c then p'
    else p
  end.

Fixpoint all_slashes (p : string) : bool :=
  match p with
  | EmptyString => true
  | String c p' => is_slash c && all_slashes p'
  end.

(** [head.rstrip('/')] *)
Fixpoint rstrip_slashes (p : string) : string :=
  match p with
  | EmptyString => EmptyString
  | String c p' => if all_slashes p then EmptyString else String c (rstrip_slashes p')
  end.

(** [os.path.dirname(p)] *)
Definition dirname (p : string) : string :=
  let head := path_head p in
  if negb (String.eqb head "") && negb (all_slashes head)
  then rstrip_slashes head
  else head.

Fixpoint ends_with_slash (p : string) : bool :=
  match p with
  | EmptyString => false
  | String c EmptyString => is_slash c
  | String _ p' => ends_with_slash p'
  end.

(** [os.path.join(a, b)] *)
Definition path_join (a b : string) : string :=
  if startswith b "/" then b
  else if String.eqb a "" || ends_with_slash a then a +:+ b
  else a +:+ "/" +:+ b.

(** ** The file system

    Entries are looked up by the path string as given.  A directory owns
    every entry whose path extends its own by ["/"].  Files hold text,
    in the encoding they are read and written in: a file whose bytes are
    no text in that encoding is none of the files here.  The containing
    directory of a file that is written is taken to exist and to be
    writable. *)

Inductive node : Type :=
| File (content : string)
| Dir.

Abbreviation fs := (gmap string node).

Definition isfile (d : fs) (p : string) : bool :=
  match d !! p with Some (File _) => true | _ => false end.

Definition isdir (d : fs) (p : string) : bool :=
  match d !! p with Some Dir => true | _ => false end.

Definition path_exists (d : fs) (p : string) : bool :=
  match d !! p with Some _ => true | None => false end.

(** [q] is [p] itself or lies below the directory [p]. *)
Definition within (p q : string) : bool :=
  String.eqb q p || startswith q (p +:+ "/").

(** [os.remove(p)] on a regular file *)
Definition os_remove (d : fs) (p : string) : fs := delete p d.

(** [shutil.rmtree(p)] on a directory *)
Definition rmtree (d : fs) (p : string) : fs :=
  filter (fun kv => within p kv.1 = false) d.

(** [open(p, 'w')]: creates or truncates; a directory cannot be opened. *)
Definition open_w (d : fs) (p : string) : result fs :=
  match d !! p with
  | Some Dir => Raise OSError
  | _ => Ok (<[p := File ""]> d)
  end.

(** [open(p, 'r').read()] *)
Definition read_text (d : fs) (p : string) : result string :=
  match d !! p with
  | Some (File content) => Ok content
  | _ => Raise OSError
  end.

(** The entries of the directory [src], renamed below [dst]. *)
Definition moved_tree (d : fs) (src dst : string) : fs :=
  list_to_map
    (omap (fun kv : string * node =>
             if within src kv.1
             then Some (dst +:+ String.substring (String.length src)
                                  (String.length kv.1 - String.length src) kv.1,
                        kv.2)
             else None)
          (map_to_list d)).

Definition has_entries_below (d : fs) (p : string) : bool :=
  bool_decide (filter (fun kv => startswith kv.1 (p +:+ "/") = true) d ≠ ∅).

(** [os.replace(src, dst)] *)
Definition os_replace (d : fs) (src dst : string) : result fs :=
  match d !! src with
  | None => Raise OSError
  | Some (File content) =>
    match d !! dst with
    | Some Dir => Raise OSError
    | _ => Ok (<[dst := File content]> (delete src d))
    end
  | Some Dir =>
    match d !! dst with
    | Some (File _) => Raise OSError
    | _ =>
      if String.eqb src dst then Ok d
      else if within src dst || has_entries_below d dst then Raise OSError
      else Ok (moved_tree d src dst ∪ filter (fun kv => within src kv.1 = false) d)
    end
  end.

(** ** The YAML library and the configuration class

    [fdoc] is what the round-trip loader returns (a [CommentedMap] when the
    text is a mapping).  A dump writes text to the open stream and may
    raise after having written some of it. *)

Record dump_outcome : Type := {
  dumped : string;
  dump_error : option exn;
}.

Class Yaml `{Host} : Type := {
  fdoc : Type;
  yaml_safe_load : string -> result (value pyobj);
  yaml_rt_load : string -> result fdoc;
  yaml_safe_dump : value pyobj -> dump_outcome;
  yaml_rt_dump : fdoc -> dump_outcome;
  fdoc_setitem : fdoc -> string -> value pyobj -> result fdoc;
  CommentedMap : fdoc;
}.

(** The class [cls] on which [load] is called: a subclass of
    [ConfigurationBase] with its annotations, its default instance, the
    host's [serialize] and [deserialize] on it, and its [after_load]. *)
Class ConfigClass `{Host} : Type := {
  inst : Type;
  cls_annotations : list (string * field_type);
  cls_get_default : inst;
  inst_serialize : inst -> dict pyobj;
  cls_deserialize : value pyobj -> result inst;
  after_load : inst -> result inst;
}.

Definition cls_schema `{ConfigClass} : schema :=
  Schema cls_annotations (inst_serialize cls_get_default).

(** ** [my_plugin/utils/logger.py]: [ConfigSerializeLogger] *)

Inductive color : Type := red | yellow.
Inductive level : Type := INFO | WARNING | ERROR.

Inductive log_msg `{Psi} : Type :=
| MsgTr (t : RTextMCDRTranslation) (c : option color)
| MsgText (s : string) (c : option color).

Record log_line `{Psi} : Type := {
  line_level : level;
  line_msg : log_msg;
  line_exc : option exn;
}.

Record logger_state `{Psi} : Type := {
  verbose : option bool;
  cached_verbose : option bool;
  src : option source;
  recording : bool;
  log_record : list log_msg;
}.

(** [ConfigSerializeLogger()] *)
Definition new_logger `{Psi} : logger_state :=
  {| verbose := Some true; cached_verbose := None; src := None;
     recording := false; log_record := [] |}.

(** ** The world: disk, logger, console and replies

    [history] lists every state the disk went through, oldest first.
    [console] lists what the logger hands to its handlers. *)

Record world `{Psi} : Type := {
  disk : fs;
  history : list fs;
  the_logger : logger_state;
  console : list log_line;
  replies : list (source * log_msg);
}.

Definition io `{Psi} (A : Type) : Type := world -> result A * world.

#[export] Instance io_ret `{Psi} : MRet io := fun A a w => (Ok a, w).
#[export] Instance io_bind `{Psi} : MBind io := fun A B f m w =>
  match m w with
  | (Ok a, w') => f a w'
  | (Raise e, w') => (Raise e, w')
  end.

Definition raise `{Psi} {A : Type} (e : exn) : io A := fun w => (Raise e, w).

Definition lift `{Psi} {A : Type} (r : result A) : io A := fun w => (r, w).

Definition get_disk `{Psi} : io fs := fun w => (Ok (disk w), w).

Definition put_disk `{Psi} (d : fs) : io unit := fun w =>
  (Ok tt, {| disk := d; history := history w ++ [d]; the_logger := the_logger w;
             console := console w; replies := replies w |}).

Definition get_logger `{Psi} : io logger_state := fun w => (Ok (the_logger w), w).

Definition put_logger `{Psi} (l : logger_state) : io unit := fun w =>
  (Ok tt, {| disk := disk w; history := history w; the_logger := l;
             console := console w; replies := replies w |}).

Definition print_console `{Psi} (line : log_line) : io unit := fun w =>
  (Ok tt, {| disk := disk w; history := history w; the_logger := the_logger w;
             console := console w ++ [line]; replies := replies w |}).

Definition reply `{Psi} (s : source) (msg : log_msg) : io unit := fun w =>
  (Ok tt, {| disk := disk w; history := history w; the_logger := the_logger w;
             console := console w; replies := replies w ++ [(s, msg)] |}).

(** [try: body except <handles> as e: handler(e) else: orelse(a)] *)
Definition try_except_else `{Psi} {A B : Type} (body : io A)
    (handles : exn -> bool) (handler : exn -> io B) (orelse : A -> io B) : io B :=
  fun w =>
    match body w with
    | (Ok a, w') => orelse a w'
    | (Raise e, w') => if handles e then handler e w' else (Raise e, w')
    end.

(** [try: body finally: final] *)
Definition try_finally `{Psi} {A : Type} (body : io A) (final : io unit) : io A :=
  fun w =>
    match body w with
    | (r, w') =>
      match final w' with
      | (Ok _, w'') => (r, w'')
      | (Raise e, w'') => (Raise e, w'')
      end
    end.

(** [except Exception] *)
Definition any_exception (e : exn) : bool := true.

Definition is_true (v : option bool) : bool :=
  match v with Some true => true | _ => false end.

Definition log `{Psi} (lvl : level) (msg : log_msg) (exc_info : option exn)
  : io unit :=
  l ← get_logger;
  (if recording l
   then put_logger {| verbose := verbose l; cached_verbose := cached_verbose l;
                      src := src l; recording := recording l;
                      log_record := log_record l ++ [msg] |}
   else mret tt) ;;
  match src l with Some s => reply s msg | None => mret tt end ;;
  if is_true (verbose l)
  then print_console {| line_level := lvl; line_msg := msg; line_exc := exc_info |}
  else mret tt.

(** [__set_color(msg, color)] *)
Definition set_color `{Psi} (msg : log_msg) (c : color) : log_msg :=
  match msg with
  | MsgTr t _ => MsgTr t (Some c)
  | MsgText s _ => MsgText s (Some c)
  end.

Definition info `{Psi} (msg : log_msg) : io unit := log INFO msg None.

Definition warn `{Psi} (msg : log_msg) (exc_info : option exn) : io unit :=
  log WARNING (set_color msg yellow) exc_info.

Definition reply_to_source_context `{Psi} {A : Type} (verbose_ : bool)
    (source_ : option source) (body : io A) : io A :=
  try_finally
    (l ← get_logger;
     put_logger {| verbose := Some verbose_; cached_verbose := verbose l;
                   src := source_; recording := recording l;
                   log_record := log_record l |} ;;
     body)
    (l ← get_logger;
     put_logger {| verbose := cached_verbose l; cached_verbose := None;
                   src := None; recording := recording l;
                   log_record := log_record l |}).

Definition record_context `{Psi} {A : Type} (verbose_ : bool)
    (source_ : option source) (body : io A) : io A :=
  (l ← get_logger;
   put_logger {| verbose := verbose l; cached_verbose := cached_verbose l;
                 src := src l; recording := true; log_record := [] |}) ;;
  try_finally
    (reply_to_source_context verbose_ source_ body)
    (l ← get_logger;
     put_logger {| verbose := verbose l; cached_verbose := cached_verbose l;
                   src := src l; recording := false;
                   log_record := log_record l |}).

(** ** [my_plugin/utils/file_util.py] *)

Definition CR : ascii := ascii_of_nat 13.
Definition LF : ascii := ascii_of_nat 10.

(** [s.replace('\r\n', '\n')] *)
Fixpoint replace_crlf (s : string) : string :=
  match s with
  | String c1 (String c2 s' as rest) =>
    if Ascii.eqb c1 CR && Ascii.eqb c2 LF
    then String LF (replace_crlf s')
    else String c1 (replace_crlf rest)
  | _ => s
  end.

(** [s.replace('\r', '\n')] *)
Fixpoint replace_cr (s : string) : string :=
  match s with
  | EmptyString => EmptyString
  | String c s' => String (if Ascii.eqb c CR then LF else c) (replace_cr s')
  end.

Definition delete `{Psi} (target_file_path : string) : io unit :=
  d ← get_disk;
  if isfile d target_file_path then put_disk (os_remove d target_file_path)
  else if isdir d target_file_path then put_disk (rmtree d target_file_path)
  else mret tt.

(** Writing [rest] to the open file [p] which already holds [written]:
    the disk goes through every prefix of the text. *)
Fixpoint write_text `{Psi} (p : string) (written rest : string) : io unit :=
  match rest with
  | EmptyString => mret tt
  | String c rest' =>
    let written' := written +:+ String c EmptyString in
    d ← get_disk;
    put_disk (<[p := File written']> d) ;;
    write_text p written' rest'
  end.

(** [with safe_write(target) as f: <dump to f>], where the dump produces
    [out]. *)
Definition safe_write `{Psi} (target_file_path : string) (out : dump_outcome)
  : io unit :=
  let temp_file_path := target_file_path +:+ ".tmp" in
  delete temp_file_path ;;
  d ← get_disk;
  d' ← lift (open_w d temp_file_path);
  put_disk d' ;;
  write_text temp_file_path "" (dumped out) ;;
  match dump_error out with
  | Some e => raise e
  | None =>
    d ← get_disk;
    d' ← lift (os_replace d temp_file_path target_file_path);
    put_disk d'
  end.

Definition lf_read `{Psi} (target_file_path : string) : io string :=
  d ← get_disk;
  file_string ← lift (read_text d target_file_path);
  mret (replace_cr (replace_crlf file_string)).

(** ** [ConfigurationBase] *)

Record configuration `{ConfigClass} `{Psi} : Type := {
  fields : inst;
  file_path : option string;
  bundled_template_path : option string;
  reloader : option source;
}.

Section Serializer.
Context `{HH : Host} `{!Yaml} `{!ConfigClass} `{!Psi}.
Context (no_args : targs).

(** [ConfigurationBase.tr(translation_key)] *)
Definition tr (translation_key : string) : log_msg :=
  MsgTr (ktr translation_key no_args None false
             (TRANSLATION_KEY_PREFIX +:+ "config.")) None.

Definition get_template (self : configuration) : io fdoc :=
  try_except_else
    (text ← lift (open_bundled_file (bundled_template_path self));
     lift (yaml_rt_load text))
    any_exception
    (fun e =>
       print_console {| line_level := WARNING;
                        line_msg := MsgText "Template not found, is plugin modified?" None;
                        line_exc := Some e |} ;;
       mret CommentedMap)
    mret.

(** [for key, value in config_content.items(): formatted_config[key] = value] *)
Fixpoint overlay (formatted_config : fdoc) (items : dict pyobj) : result fdoc :=
  match items with
  | [] => Ok formatted_config
  | (key, value) :: items' =>
    formatted_config' ← fdoc_setitem formatted_config key value;
    overlay formatted_config' items'
  end.

Definition config_temp_path_of (file_path : string) : string :=
  path_join (dirname file_path) ("temp_" +:+ basename file_path).

(** The body of the inner function [_save]; [_save] stands for the
    function itself at its recursive call. *)
Definition _save_body (self : configuration) (file_path : string)
    (print_to_console : bool) (source_to_reply : option source)
    (_save : bool -> io unit) (safe_dump : bool) : io unit :=
  let config_temp_path := config_temp_path_of file_path in
  reply_to_source_context print_to_console source_to_reply
    (d ← get_disk;
     (if path_exists d config_temp_path then delete config_temp_path else mret tt) ;;
     let config_content := inst_serialize (fields self) in
     if safe_dump then
       safe_write file_path (yaml_safe_dump (VDict config_content)) ;;
       warn (tr "Validation during config file saving failed, saved without original format") None
     else
       d ← get_disk;
       formatted_config ←
         (if isfile d file_path
          then text ← lf_read file_path; lift (yaml_rt_load text)
          else get_template self);
       formatted_config ← lift (overlay formatted_config config_content);
       safe_write config_temp_path (yaml_rt_dump formatted_config) ;;
       try_except_else
         (text ← lf_read config_temp_path;
          data ← lift (yaml_safe_load text);
          lift (cls_deserialize data))
         is_value_or_type_error
         (fun e =>
            warn (tr "Attempting saving config with original file format due to validation failure while attempting saving config and keep local config file format") (Some e) ;;
            warn (tr "There may be mistakes in original config file format, please contact plugin maintainer") None ;;
            _save true)
         (fun _ =>
            d ← get_disk;
            d' ← lift (os_replace d config_temp_path file_path);
            put_disk d')).

(** The recursion of [_save], unfolded [depth] times. *)
Fixpoint _save (depth : nat) (self : configuration) (file_path : string)
    (print_to_console : bool) (source_to_reply : option source)
    (safe_dump : bool) : io unit :=
  match depth with
  | O => raise OtherError
  | S depth' =>
    _save_body self file_path print_to_console source_to_reply
      (_save depth' self file_path print_to_console source_to_reply) safe_dump
  end.

(** [ConfigurationBase.save] *)
Definition save (self : configuration) (print_to_console : bool)
    (source_to_reply : option source) : io unit :=
  match file_path self with
  | None => raise TypeError
  | Some file_path =>
    d ← get_disk;
    (if isdir d file_path then put_disk (rmtree d file_path) else mret tt) ;;
    _save 2 self file_path print_to_console source_to_reply false
  end.

(** [ConfigurationBase.load] *)
Definition load (file_path : string) (bundled_template_path : option string)
    (in_data_folder : bool) (print_to_console : bool)
    (source_to_reply : option source) : io configuration :=
  put_logger new_logger ;;
  record_context print_to_console source_to_reply
    (let default_config := inst_serialize cls_get_default in
     let file_path :=
       if in_data_folder then path_join get_data_folder file_path else file_path in
     '(result_config, needs_save) ←
       try_except_else (B := dict pyobj * bool)
         (string ← lf_read file_path;
          lift (yaml_safe_load string))
         any_exception
         (fun e =>
            delete file_path ;;
            warn (tr "Fail to read config file, using default config") (Some e) ;;
            mret (default_config, true))
         (fun read_data =>
            '(result_config, nodes_require_save) ←
              lift (_fix_data cls_schema read_data []);
            if bool_decide (nodes_require_save ≠ [])
            then
              warn (tr "Fixed invalid config keys with default values, please confirm these values: ") None ;;
              warn (MsgText (join ", " nodes_require_save) None) None ;;
              mret (result_config, true)
            else mret (result_config, false));
     '(result_config, needs_save) ←
       try_except_else (B := inst * bool)
         (lift (cls_deserialize (VDict result_config)))
         any_exception
         (fun e =>
            warn (tr "Fail to read config file, using default config") (Some e) ;;
            mret (cls_get_default, true))
         (fun result_config => mret (result_config, needs_save));
     let result_config :=
       {| fields := result_config; file_path := Some file_path;
          bundled_template_path := bundled_template_path; reloader := None |} in
     (if needs_save : bool
      then save result_config print_to_console source_to_reply
      else mret tt) ;;
     fields' ← lift (after_load (fields result_config));
     let result_config :=
       {| fields := fields'; file_path := Some file_path;
          bundled_template_path := bundled_template_path; reloader := None |} in
     info (tr "Config loaded") ;;
     mret result_config).

End Serializer.

(** ** Concrete collaborators for the worked scenarios *)

(** A host with no translation loaded: every lookup raises [KeyError]. *)
#[export] Instance bare_psi : Psi := {|
  rtext := Empty_set;
  targs := unit;
  source := string;
  plugin_id := "my_plugin";
  psi_tr := fun _ _ _ => Raise KeyError;
  get_mcdr_language := "zh_cn";
  get_data_folder := "config/my_plugin";
  open_bundled_file := fun _ => Raise OSError;
|}.

(** A YAML subset: the empty document, or a block mapping with one
    [key: scalar] per line, the scalars being decimal integers, [true] and
    [false].  Nothing is kept of comments, so the round-trip document is
    the mapping itself. *)

Definition COLON : ascii := ":"%char.
Definition SPACE : ascii := " "%char.

Fixpoint split_lines (s : string) (line : string) : list string :=
  match s with
  | EmptyString => if String.eqb line "" then [] else [line]
  | String c s' =>
    if Ascii.eqb c LF then line :: split_lines s' ""
    else split_lines s' (line +:+ String c EmptyString)
  end.

(** Splits [key: scalar] at the first colon. *)
Fixpoint split_entry (s : string) (key : string) : option (string * string) :=
  match s with
  | String c (String c' s' as rest) =>
    if Ascii.eqb c COLON && Ascii.eqb c' SPACE then Some (key, s')
    else if Ascii.eqb c COLON || Ascii.eqb c SPACE then None
    else split_entry rest (key +:+ String c EmptyString)
  | _ => None
  end.

Definition parse_plain_int (s : string) : option Z :=
  match list_ascii_of_string s with
  | c :: l' =>
    if Ascii.eqb c "-"%char
    then if forallb (fun c => bool_decide (is_Some (digit_of c))) l'
         then Z.opp <$> parse_digits l' 0 false else None
    else if forallb (fun c => bool_decide (is_Some (digit_of c))) (c :: l')
         then parse_digits (c :: l') 0 false else None
  | [] => None
  end.

Definition parse_scalar (s : string) : option py_value :=
  if String.eqb s "true" then Some (VBool true)
  else if String.eqb s "false" then Some (VBool false)
  else VInt <$> parse_plain_int s.

Fixpoint parse_entries (lines : list string) (d : dict Empty_set)
  : option (dict Empty_set) :=
  match lines with
  | [] => Some d
  | line :: lines' =>
    match split_entry line "" with
    | Some (key, scalar) =>
      if String.eqb key "" then None
      else match parse_scalar scalar with
           | Some v => parse_entries lines' (dict_set d key v)
           | None => None
           end
    | None => None
    end
  end.

Definition mini_load (text : string) : result py_value :=
  match split_lines text "" with
  | [] => Ok VNone
  | lines =>
    match parse_entries lines [] with
    | Some d => Ok (VDict d)
    | None => Raise YAMLError
    end
  end.

Definition string_of_Z (n : Z) : string :=
  pretty n.

Definition dump_scalar (v : py_value) : option string :=
  match v with
  | VBool true => Some "true"
  | VBool false => Some "false"
  | VInt n => Some (string_of_Z n)
  | _ => None
  end.

(** Entries are written in order; the first value outside the subset
    stops the dump with an error. *)
Fixpoint dump_entries (d : dict Empty_set) (written : string) : dump_outcome :=
  match d with
  | [] => {| dumped := written; dump_error := None |}
  | (key, v) :: d' =>
    match dump_scalar v with
    | Some s =>
      dump_entries d' (written +:+ key +:+ ": " +:+ s +:+ String LF EmptyString)
    | None => {| dumped := written; dump_error := Some YAMLError |}
    end
  end.

Definition mini_dump (v : py_value) : dump_outcome :=
  match v with
  | VDict ((_ :: _) as d) => dump_entries d ""
  | _ => {| dumped := ""; dump_error := Some YAMLError |}
  end.

Definition mini_setitem (f : py_value) (key : string) (v : py_value)
  : result py_value :=
  match f with
  | VDict d => Ok (VDict (dict_set d key v))
  | _ => Raise TypeError
  end.

#[export] Instance mini_yaml : @Yaml py_host := {|
  fdoc := py_value;
  yaml_safe_load := mini_load;
  yaml_rt_load := mini_load;
  yaml_safe_dump := mini_dump;
  yaml_rt_dump := mini_dump;
  fdoc_setitem := mini_setitem;
  CommentedMap := VDict [];
|}.

(** The host's [deserialize(data, cls)] for a class with fields of
    built-in types: present fields must have their declared type, missing
    ones keep the attribute of the default instance. *)
Fixpoint deserialize_fields (annotations : list (string * builtin_type))
    (data defaults : dict Empty_set) : result (dict Empty_set) :=
  match annotations with
  | [] => Ok []
  | (key, ty) :: annotations' =>
    match dict_get data key with
    | Some v =>
      v' ← py_deserialize v ty;
      rest ← deserialize_fields annotations' data defaults;
      Ok ((key, v') :: rest)
    | None =>
      rest ← deserialize_fields annotations' data defaults;
      Ok (match dict_get defaults key with
          | Some v => (key, v) :: rest
          | None => rest
          end)
    end
  end.

Definition py_class (annotations : list (string * builtin_type))
    (defaults : dict Empty_set) : @ConfigClass py_host := {|
  inst := dict Empty_set;
  cls_annotations := map (fun kt => (kt.1, Plain (kt.2 : @ptype py_host))) annotations;
  cls_get_default := defaults;
  inst_serialize := fun self => self;
  cls_deserialize := fun data =>
    match data with
    | VDict d => deserialize_fields annotations d defaults
    | _ => Raise TypeError
    end;
  after_load := fun self => Ok self;
|}.

(** [class Config(ConfigurationBase): a: int = 5] *)
Definition config_a : @ConfigClass py_host := py_class [("a", PInt)] [("a", VInt 5)].

(** A class with a defect in its own definition, [a: bool = 5]: the
    serialization of its default instance does not deserialize. *)
Definition config_defect : @ConfigClass py_host := py_class [("a", PBool)] [("a", VInt 5)].

(** An instance of [config_defect] with its default values, and an
    instance of [config_a], both to be saved at [config.yml]. *)
Definition defect_instance : @configuration py_host config_defect bare_psi := {|
  fields := ([("a", VInt 5)] : dict Empty_set) : @inst py_host config_defect;
  file_path := Some "config.yml";
  bundled_template_path := None; reloader := None;
|}.

Definition a_instance : @configuration py_host config_a bare_psi := {|
  fields := ([("a", VInt 7)] : dict Empty_set) : @inst py_host config_a;
  file_path := Some "config.yml";
  bundled_template_path := None; reloader := None;
|}.

Definition empty_world : @world bare_psi := {|
  disk := ∅; history := []; the_logger := new_logger; console := []; replies := [];
|}.

Definition world_with (path text : string) : @world bare_psi := {|
  disk := {[ path := File text ]}; history := []; the_logger := new_logger;
  console := []; replies := [];
|}.

(** A world where [config.yml] is a directory. *)
Definition world_with_dir : @world bare_psi := {|
  disk := {[ "config.yml" := Dir ]}; history := []; the_logger := new_logger;
  console := []; replies := [];
|}.

(** ** Vocabulary of the statements *)

(** What one turn of the loop of [_fix_data] does for the field [key] of a
    mapping [d]: the value it assigns to [fixed_dict[key]], if any, and the
    node paths it appends to [needs_save]. *)
Definition field_fix `{Host} (default_data d : dict pyobj)
    (father_nodes : list string) (key : string) (target_type : field_type)
  : result (option (value pyobj) * list string) :=
  let current_nodes := father_nodes ++ [key] in
  let node_name := join "." current_nodes in
  match dict_get d key with
  | None =>
    match dict_get default_data key with
    | Some dflt => Ok (Some dflt, [node_name])
    | None => Ok (None, [])
    end
  | Some value =>
    match target_type with
    | Blossom single_type =>
      match _fix_data single_type value current_nodes with
      | Ok (single_data, save_nodes) => Ok (Some (VDict single_data), save_nodes)
      | Raise e => Raise e
      end
    | Plain ty =>
      match deserialize value ty with
      | Ok value' => Ok (Some value', [])
      | Raise e =>
        if is_value_or_type_error e then
          match dict_get default_data key with
          | None => Ok (None, [node_name])
          | Some dflt =>
            if isinstance_Serializable ty then
              match get_default_serialize ty with
              | Ok value' => Ok (Some value', [node_name])
              | Raise e' => Raise e'
              end
            else
              match construct ty value with
              | Ok value' => Ok (Some value', [node_name])
              | Raise _ => Ok (Some dflt, [node_name])
              end
          end
        else Raise e
      end
    end
  end.

Definition assign {V : Type} (d : list (string * V)) (key : string) (o : option V)
  : list (string * V) :=
  match o with
  | Some v => dict_set d key v
  | None => d
  end.

(** The loop of [_fix_data] over the remaining [items]. *)
Fixpoint fix_fields `{Host} (default_data d : dict pyobj)
    (father_nodes : list string) (items : list (string * field_type))
    (fixed_dict : dict pyobj) (needs_save : list string)
  : result (dict pyobj * list string) :=
  match items with
  | [] => Ok (fixed_dict, needs_save)
  | (key, target_type) :: items' =>
    match field_fix default_data d father_nodes key target_type with
    | Ok (o, paths) =>
      fix_fields default_data d father_nodes items'
        (assign fixed_dict key o) (needs_save ++ paths)
    | Raise e => Raise e
    end
  end.

(** The host's [deserialize] accepts [v] for the type [ty]. *)
Definition accepted `{Host} (ty : ptype) (v : value pyobj) : Prop :=
  ∃ v', deserialize v ty = Ok v'.

(** Reconciling [v] against [cls] returns and repairs nothing. *)
Definition stable `{Host} (cls : schema) (v : value pyobj) : Prop :=
  ∀ father_nodes, ∃ fixed_dict, _fix_data cls v father_nodes = Ok (fixed_dict, []).

(** The values the host hands back are values it accepts. *)
Definition coherent_host `{Host} : Prop :=
  (∀ ty v v', deserialize v ty = Ok v' → accepted ty v') ∧
  (∀ ty v v', construct ty v = Ok v' → accepted ty v') ∧
  (∀ ty v', isinstance_Serializable ty = true →
            get_default_serialize ty = Ok v' → accepted ty v').

(** The default serialization of a class, and of every class nested in
    it, conforms to the annotations; field names are distinct. *)
Fixpoint conforming `{Host} (cls : schema) : Prop :=
  match cls with
  | Schema annotations default_data =>
    NoDup annotations.*1 ∧
    (fix each (items : list (string * field_type)) : Prop :=
       match items with
       | [] => True
       | (key, target_type) :: items' =>
         match target_type with
         | Plain ty =>
           ∀ dflt, dict_get default_data key = Some dflt → accepted ty dflt
         | Blossom single_type =>
           conforming single_type ∧
           ∀ dflt, dict_get default_data key = Some dflt → stable single_type dflt
         end ∧ each items'
       end) annotations
  end.

(** The world after the disk went through [steps] and ended as [d];
    logger, console and replies are untouched. *)
Definition with_disk `{Psi} (w : world) (d : fs) (steps : list fs) : world :=
  {| disk := d; history := history w ++ steps; the_logger := the_logger w;
     console := console w; replies := replies w |}.

(** The disk after [file_util.delete(p)], and the states it adds to the
    history. *)
Definition deleted (d : fs) (p : string) : fs :=
  if isfile d p then os_remove d p
  else if isdir d p then rmtree d p
  else d.

Definition delete_steps (d : fs) (p : string) : list fs :=
  if isfile d p || isdir d p then [deleted d p] else [].

(** The states of the disk while [rest] is written to the file [p], which
    holds [written] already. *)
Fixpoint write_states (d : fs) (p : string) (written rest : string) : list fs :=
  match rest with
  | EmptyString => []
  | String c rest' =>
    let written' := written +:+ String c EmptyString in
    let d' := <[p := File written']> d in
    d' :: write_states d' p written' rest'
  end.

(** The number of characters of a path other than ["/"]. *)
Fixpoint nonslash (p : string) : nat :=
  match p with
  | EmptyString => O
  | String c p' => if is_slash c then nonslash p' else S (nonslash p')
  end.

(** What [lf_read] returns for a file holding [text]. *)
Definition normalized (text : string) : string := replace_cr (replace_crlf text).

Section SaveVocabulary.
Context `{HH : Host} `{!Yaml} `{!ConfigClass} `{!Psi}.

(** What [get_template] returns, and the line it prints. *)
Definition template_of (self : configuration) : fdoc :=
  match text ← open_bundled_file (bundled_template_path self); yaml_rt_load text with
  | Ok f => f
  | Raise _ => CommentedMap
  end.

Definition template_lines (self : configuration) : list log_line :=
  match text ← open_bundled_file (bundled_template_path self); yaml_rt_load text with
  | Ok _ => []
  | Raise e =>
    [{| line_level := WARNING;
        line_msg := MsgText "Template not found, is plugin modified?" None;
        line_exc := Some e |}]
  end.

(** The formatted document [save] merges into, given what the
    destination path holds: the existing file, or else the template. *)
Definition merge_base (self : configuration) (at_path : option node)
  : result fdoc :=
  match at_path with
  | Some (File text) => yaml_rt_load (normalized text)
  | _ => Ok (template_of self)
  end.

(** The dump of the merged formatted document. *)
Definition formatted_dump (self : configuration) (at_path : option node)
  : result dump_outcome :=
  base ← merge_base self at_path;
  formatted_config ← overlay base (inst_serialize (fields self));
  Ok (yaml_rt_dump formatted_config).

(** The plain dump of the fallback. *)
Definition plain_dump (self : configuration) : dump_outcome :=
  yaml_safe_dump (VDict (inst_serialize (fields self))).

(** The round trip [save] makes on the text it wrote. *)
Definition validate (text : string) : result inst :=
  data ← yaml_safe_load (normalized text); cls_deserialize data.

(** [text] is the whole output of one of the two dumps of [self], the
    dump having finished without error. *)
Definition complete_dump (self : configuration) (at_path : option node)
    (text : string) : Prop :=
  (∃ out, formatted_dump self at_path = Ok out ∧ dump_error out = None ∧
          text = dumped out) ∨
  (dump_error (plain_dump self) = None ∧ text = dumped (plain_dump self)).

(** The three warnings of a save whose validation fails: two when the
    failure is caught, one when the fallback has written the file. *)
Definition warning_validation_failed (no_args : targs) : log_msg :=
  set_color (tr no_args "Attempting saving config with original file format due to validation failure while attempting saving config and keep local config file format") yellow.

Definition warning_contact_maintainer (no_args : targs) : log_msg :=
  set_color (tr no_args "There may be mistakes in original config file format, please contact plugin maintainer") yellow.

Definition warning_saved_plain (no_args : targs) : log_msg :=
  set_color (tr no_args "Validation during config file saving failed, saved without original format") yellow.

Definition warning_line (msg : log_msg) (exc_info : option exn) : log_line :=
  {| line_level := WARNING; line_msg := msg; line_exc := exc_info |}.

End SaveVocabulary.

(** Partial correctness of a computation, for the result and the world it
    ends in, whether it returns or raises. *)
Definition hoare `{Psi} {A : Type} (P : world → Prop) (m : io A)
    (Q : result A → world → Prop) : Prop :=
  ∀ w, P w → Q (m w).1 (m w).2.

(** A property of the disk and its history alone. *)
Definition disk_only `{Psi} (P : world → Prop) : Prop :=
  ∀ w w', disk w' = disk w → history w' = history w → P w → P w'.

(** Since the world [w0], the path [p] was left as it was. *)
Definition quiet `{Psi} (w0 : world) (p : string) (w : world) : Prop :=
  (∃ hs, history w = history w0 ++ hs ∧
         Forall (λ dd : fs, dd !! p = disk w0 !! p) hs) ∧
  disk w !! p = disk w0 !! p.

(** Since the world [w0], the path [p] held at every moment what it held
    in [w0] or a file with a text that is [good]. *)
Definition safe `{Psi} (w0 : world) (p : string) (good : string → Prop)
    (w : world) : Prop :=
  ∃ hs, history w = history w0 ++ hs ∧
        Forall (λ dd : fs, dd !! p = disk w0 !! p ∨
                           ∃ text, good text ∧ dd !! p = Some (File text)) hs.

(** The world after a call of [ConfigSerializeLogger.log]. *)
Definition after_log `{Psi} (lvl : level) (msg : log_msg) (exc_info : option exn)
    (w : world) : world :=
  (log lvl msg exc_info w).2.

(** The world with another logger state, and with a line more on the
    console. *)
Definition with_logger `{Psi} (w : world) (l : logger_state) : world :=
  {| disk := disk w; history := history w; the_logger := l;
     console := console w; replies := replies w |}.

Definition with_console `{Psi} (w : world) (lines : list log_line) : world :=
  {| disk := disk w; history := history w; the_logger := the_logger w;
     console := console w ++ lines; replies := replies w |}.

(** The logger inside and after [reply_to_source_context]. *)
Definition entered `{Psi} (verbose_ : bool) (source_ : option source)
    (l : logger_state) : logger_state :=
  {| verbose := Some verbose_; cached_verbose := verbose l; src := source_;
     recording := recording l; log_record := log_record l |}.

Definition exited `{Psi} (l : logger_state) : logger_state :=
  {| verbose := cached_verbose l; cached_verbose := None; src := None;
     recording := recording l; log_record := log_record l |}.

(** * More of the code *)

(** ** A host with an enumeration

    [class Level(Enum)] with [LOW = 'low'] and [HIGH = 'high'].  The host
    deserializes an [Enum] from the name of a member, [cls[data]] for a
    string [data]: it returns the member, and a name that is no member
    is a [KeyError]; data that is no string is a [TypeError].
    [Level(value)] returns a member as it is, and otherwise the member
    that has this value, a [ValueError] when there is none.  A member is
    serialized as its name. *)

Inductive Level : Type := LOW | HIGH.

(** [Level.__members__] *)
Definition level_members : list (string * Level) := [("LOW", LOW); ("HIGH", HIGH)].

(** [member.value] *)
Definition level_value (m : Level) : string :=
  match m with LOW => "low" | HIGH => "high" end.

Definition enum_deserialize (v : value Level) (ty : unit) : result (value Level) :=
  match v with
  | VStr name =>
    match dict_get level_members name with
    | Some m => Ok (VOpaque m)
    | None => Raise KeyError
    end
  | _ => Raise TypeError
  end.

(** [Level(value)] *)
Definition enum_construct (ty : unit) (v : value Level) : result (value Level) :=
  match v with
  | VOpaque m => Ok (VOpaque m)
  | VStr s =>
    match List.find (fun m => String.eqb (level_value m) s) [LOW; HIGH] with
    | Some m => Ok (VOpaque m)
    | None => Raise ValueError
    end
  | _ => Raise ValueError
  end.

Definition enum_host : Host := {|
  pyobj := Level;
  ptype := unit;
  deserialize := enum_deserialize;
  isinstance_Serializable := fun _ => false;
  get_default_serialize := fun _ => Raise AttributeError;
  construct := enum_construct;
|}.

(** Schema [{level: Level (default LOW)}]. *)
Definition schema_level : @schema enum_host :=
  @Schema enum_host [("level", @Plain enum_host tt)] [("level", VStr "LOW")].

(** ** More of [my_plugin/utils/logger.py] *)

(** [BlossomLogger.bind_single_file]: the file of the [FileHandler] that
    the logger holds while the plugin loads,
    [os.path.join(psi.get_data_folder(), f'{psi.get_self_metadata().id}.log')].
    What goes to [console] is appended to this file as well; [disk] keeps
    no account of it, so that nothing is said here of what this one path
    holds. *)
Definition log_file_path `{Psi} : string :=
  path_join get_data_folder (plugin_id +:+ ".log").

(** Two disks hold the same at every path but that of the log file. *)
Definition same_but_log `{Psi} (d d' : fs) : Prop :=
  ∀ q, q ≠ log_file_path → d !! q = d' !! q.

(** Since the world [w0] no file was written but the log file: at every
    moment the disk held, off that path, what it held in [w0]. *)
Definition only_logged `{Psi} (w0 w : world) : Prop :=
  same_but_log (disk w) (disk w0) ∧
  ∃ hs, history w = history w0 ++ hs ∧
        Forall (λ dd : fs, same_but_log dd (disk w0)) hs.

(** [ConfigSerializeLogger.error] *)
Definition error `{Psi} (msg : log_msg) (exc_info : option exn) : io unit :=
  log ERROR (set_color msg red) exc_info.

(** [BlossomLogger.NoColorFormatter.clean_console_color_code]:
    [re.compile(r'\033\[(\d+(;\d+)?)?m').sub('', text)].

    Characters are code points below 256; the decimal digits [\d] among
    them are [0] to [9]. *)

Definition ESC : ascii := ascii_of_nat 27.

Definition is_digit (c : ascii) : bool :=
  match digit_of c with Some _ => true | None => false end.

(** The length of the longest run of digits at the start of [s]: what a
    greedy [\d+] takes. *)
Fixpoint digits_run (s : string) : nat :=
  match s with
  | String c s' => if is_digit c then S (digits_run s') else O
  | EmptyString => O
  end.

Fixpoint string_drop (n : nat) (s : string) : string :=
  match n, s with
  | S n', String _ s' => string_drop n' s'
  | _, _ => s
  end.

Definition starts_with_m (s : string) : bool :=
  match s with
  | String c _ => Ascii.eqb c "m"%char
  | EmptyString => false
  end.

(** The pattern matched at the start of [s]: the length of the match.
    After [ESC] and the bracket, the optional group takes all the digits
    there are, and after them a semicolon with all the digits behind it;
    giving back digits never helps, as an [m] has to follow. *)
Definition color_code_match (s : string) : option nat :=
  match s with
  | String c1 (String c2 rest) =>
    if Ascii.eqb c1 ESC && Ascii.eqb c2 "["%char then
      match digits_run rest with
      | O => if starts_with_m rest then Some 3%nat else None
      | S _ as n1 =>
        match string_drop n1 rest with
        | String c3 after =>
          if Ascii.eqb c3 ";"%char then
            match digits_run after with
            | O => None
            | S _ as n2 =>
              if starts_with_m (string_drop n2 after)
              then Some (2 + n1 + 1 + n2 + 1)%nat
              else None
            end
          else if Ascii.eqb c3 "m"%char then Some (2 + n1 + 1)%nat
          else None
        | EmptyString => None
        end
      end
    else None
  | _ => None
  end.

(** [pattern.sub('', text)]: from left to right, every match is left
    out and the search goes on behind it; [skip] characters of a match
    are still to be left out. *)
Fixpoint sub_color_codes (skip : nat) (text : string) : string :=
  match text with
  | EmptyString => EmptyString
  | String c text' =>
    match skip with
    | S skip' => sub_color_codes skip' text'
    | O =>
      match color_code_match text with
      | Some (S n) => sub_color_codes n text'
      | _ => String c (sub_color_codes O text')
      end
    end
  end.

Definition clean_console_color_code (text : string) : string :=
  sub_color_codes 0 text.

(** A body that makes these calls of [log], one after the other. *)
Fixpoint log_all `{Psi} (entries : list (level * log_msg * option exn)) : io unit :=
  match entries with
  | [] => mret tt
  | (lvl, msg, exc_info) :: entries' => log lvl msg exc_info ;; log_all entries'
  end.

(** A call of one of the three logging methods, what the method hands
    to [log] (the message as coloured), and a body that makes these
    calls, one after the other. *)
Inductive logger_call `{Psi} : Type :=
| CallInfo (msg : log_msg)
| CallWarn (msg : log_msg) (exc_info : option exn)
| CallError (msg : log_msg) (exc_info : option exn).

Definition make_call `{Psi} (c : logger_call) : io unit :=
  match c with
  | CallInfo msg => info msg
  | CallWarn msg exc_info => warn msg exc_info
  | CallError msg exc_info => error msg exc_info
  end.

Definition handed_to_log `{Psi} (c : logger_call) : level * log_msg * option exn :=
  match c with
  | CallInfo msg => (INFO, msg, None)
  | CallWarn msg exc_info => (WARNING, set_color msg yellow, exc_info)
  | CallError msg exc_info => (ERROR, set_color msg red, exc_info)
  end.

Fixpoint make_calls `{Psi} (calls : list logger_call) : io unit :=
  match calls with
  | [] => mret tt
  | c :: calls' => make_call c ;; make_calls calls'
  end.

(** A colour code of a terminal: [ESC [ m], [ESC [ first m] or
    [ESC [ first ; second m]. *)
Definition color_code (first second : string) : string :=
  String ESC
    (String "["%char
       (first +:+
        (if String.eqb second "" then "m" else String ";"%char (second +:+ "m")))).

Fixpoint all_digits (s : string) : bool :=
  match s with
  | EmptyString => true
  | String c s' => is_digit c && all_digits s'
  end.

Fixpoint no_escape (s : string) : bool :=
  match s with
  | EmptyString => true
  | String c s' => negb (Ascii.eqb c ESC) && no_escape s'
  end.

(** The parameters of a colour code are digits, and there is no second
    one without a first. *)
Definition code_parameters (first second : string) : bool :=
  all_digits first && all_digits second &&
  (negb (String.eqb first "") || String.eqb second "").

(** A text made of plain pieces, each followed by a colour code, and of
    a plain end; and the same text without the codes. *)
Fixpoint colored (pieces : list (string * (string * string))) (tail : string) : string :=
  match pieces with
  | [] => tail
  | (plain, (first, second)) :: pieces' =>
    plain +:+ color_code first second +:+ colored pieces' tail
  end.

Fixpoint uncolored (pieces : list (string * (string * string))) (tail : string) : string :=
  match pieces with
  | [] => tail
  | (plain, _) :: pieces' => plain +:+ uncolored pieces' tail
  end.

(** ** [dtr] of [my_plugin/utils/translation.py]

    [fake_tr] is the translator [dtr] installs.  The two ways of
    formatting a text with the arguments of the translation belong to
    Python and to the host: [str.format], [RTextBase.format], and the
    test whether one of the arguments is an [RTextBase]. *)

Class Formatting `{Psi} : Type := {
  any_rtext : targs -> bool;
  str_format : string -> targs -> result string;
  rtext_format : string -> targs -> result rtext;
}.

(** How the loop over [fallback_language] ends: by [return], or by
    running out of languages with [result] as the last lookup left it. *)
Inductive loop_end (A B : Type) : Type :=
| Returned (a : A)
| Exhausted (b : B).
Arguments Returned {A B} a.
Arguments Exhausted {A B} b.

Section Dtr.
Context `{Formatting}.

Fixpoint fake_tr_loop (translation_dict : list (string * string))
    (inner_args : targs) (fallback_language : list string)
    (result_ : option string) : loop_end (result MessageText) (option string) :=
  match fallback_language with
  | [] => Exhausted result_
  | lang :: fallback_language' =>
    let result_ := dict_get translation_dict lang in
    match result_ with
    | Some text =>
      Returned
        (if any_rtext inner_args
         then t ← rtext_format text inner_args; Ok (inr t)
         else t ← str_format text inner_args; Ok (inl t))
    | None => fake_tr_loop translation_dict inner_args fallback_language' result_
    end
  end.

(** [fake_tr]; [Ok None] is the [None] a Python function returns when it
    reaches its end. *)
Definition fake_tr (translation_dict : list (string * string))
    (translation_key : string) (inner_args : targs)
    (language _mcdr_tr_language : option string)
    (allow_failure : bool) : result (option MessageText) :=
  let _mcdr_tr_language :=
    match language, _mcdr_tr_language with
    | Some l, None => Some l
    | _, _ => _mcdr_tr_language
    end in
  let result_ :=
    match language with
    | Some l => dict_get translation_dict l
    | None => None
    end in
  let fallback_language := [get_mcdr_language] in
  let fallback_language :=
    if negb (bool_decide ("en_us" ∈ fallback_language)) &&
       negb (bool_decide (language = Some "en_us"))
    then fallback_language ++ ["en_us"]
    else fallback_language in
  match fake_tr_loop translation_dict inner_args fallback_language result_ with
  | Returned r => text ← r; Ok (Some text)
  | Exhausted result_ =>
    match result_ with
    | None =>
      if allow_failure then Ok (Some (inl "<Translation failed>"))
      else Raise KeyError
    | Some _ => Ok None
    end
  end.

(** What [fake_tr] returns for a text it found, and what it does when it
    found none. *)
Definition fake_tr_format (text : string) (inner_args : targs)
  : result (option MessageText) :=
  text' ← (if any_rtext inner_args
           then t ← rtext_format text inner_args; Ok (inr t)
           else t ← str_format text inner_args; Ok (inl t));
  Ok (Some text').

Definition fake_tr_failure (allow_failure : bool) : result (option MessageText) :=
  if allow_failure then Ok (Some (inl "<Translation failed>")) else Raise KeyError.

End Dtr.

(** Formatting for a host without rich text: the text as it is. *)
Definition plain_formatting : @Formatting bare_psi := {|
  any_rtext := fun _ => false;
  str_format := fun text _ => Ok text;
  rtext_format := fun _ _ => Raise TypeError;
|}.

(** The paths [save] works on: the destination, the temporary file
    [temp_<name>] next to it, and the [.tmp] file of each. *)
Definition save_paths (p : string) : list string :=
  [p; p +:+ ".tmp"; config_temp_path_of p; config_temp_path_of p +:+ ".tmp"].

(** A YAML library whose round-trip dump writes a flow mapping, which
    the safe loader of [mini_yaml] does not read. *)
Definition flow_yaml : @Yaml py_host := {|
  fdoc := py_value;
  yaml_safe_load := mini_load;
  yaml_rt_load := mini_load;
  yaml_safe_dump := mini_dump;
  yaml_rt_dump := fun _ => {| dumped := "{a: 7}"; dump_error := None |};
  fdoc_setitem := mini_setitem;
  CommentedMap := VDict [];
|}.

(** * Properties *)

(** ** Dictionaries *)

Lemma dict_get_set_eq {V} (d : list (string * V)) key v :
  dict_get (dict_set d key v) key = Some v.
Proof.
  induction d as [|[k w] d IH]; simpl.
  - by rewrite String.eqb_refl.
  - destruct (String.eqb k key) eqn:E; simpl; rewrite E; done.
Qed.

Lemma dict_get_set_ne {V} (d : list (string * V)) key key' v :
  key ≠ key' → dict_get (dict_set d key v) key' = dict_get d key'.
Proof.
  intros Hne. induction d as [|[k w] d IH]; simpl.
  - destruct (String.eqb key key') eqn:E; [|done].
    apply String.eqb_eq in E. done.
  - destruct (String.eqb k key) eqn:E; simpl.
    + apply String.eqb_eq in E. subst k.
      destruct (String.eqb key key') eqn:E'; [|done].
      apply String.eqb_eq in E'. done.
    + by rewrite IH.
Qed.

Lemma dict_get_assign_eq {V} (d : list (string * V)) key o :
  dict_get (assign d key o) key = match o with Some v => Some v | None => dict_get d key end.
Proof. destruct o; simpl; [apply dict_get_set_eq|done]. Qed.

Lemma dict_get_assign_ne {V} (d : list (string * V)) key key' o :
  key ≠ key' → dict_get (assign d key o) key' = dict_get d key'.
Proof. destruct o; simpl; [apply dict_get_set_ne|done]. Qed.

Lemma dict_get_assign_is_Some {V} (d : list (string * V)) key key' o :
  is_Some (dict_get d key') → is_Some (dict_get (assign d key o) key').
Proof.
  intros Hs. destruct (decide (key = key')) as [->|Hne].
  - rewrite dict_get_assign_eq. destruct o; eauto.
  - by rewrite dict_get_assign_ne.
Qed.

(** ** The loop of [_fix_data] *)

Lemma _fix_data_unfold `{Host} annotations default_data d father_nodes :
  _fix_data (Schema annotations default_data) (VDict d) father_nodes
  = fix_fields default_data d father_nodes annotations [] [].
Proof.
  simpl.
  match goal with
  | |- ?loop annotations [] [] = _ =>
    enough (∀ fixed_dict needs_save,
              loop annotations fixed_dict needs_save
              = fix_fields default_data d father_nodes annotations fixed_dict needs_save)
      as Hloop by apply Hloop
  end.
  induction annotations as [|[key ty] items IH]; intros fixed_dict needs_save; [done|].
  simpl. unfold field_fix.
  destruct (dict_get d key) as [v|].
  - destruct ty as [c|ty].
    + destruct (_fix_data c v (father_nodes ++ [key])) as [[sd sn]|e]; [apply IH|done].
    + destruct (deserialize v ty) as [v'|e]; [rewrite app_nil_r; apply IH|].
      destruct (is_value_or_type_error e); [|done].
      destruct (dict_get default_data key); [|apply IH].
      destruct (isinstance_Serializable ty).
      * destruct (get_default_serialize ty); [apply IH|done].
      * destruct (construct ty v); apply IH.
  - destruct (dict_get default_data key); rewrite ?app_nil_r; apply IH.
Qed.

Lemma _fix_data_not_a_mapping `{Host} annotations default_data data father_nodes :
  (∀ d, data ≠ VDict d) → annotations ≠ [] →
  _fix_data (Schema annotations default_data) data father_nodes = Raise AttributeError.
Proof.
  intros Hd Ha. destruct annotations as [|[key ty] items]; [done|].
  simpl. destruct data; try done. by destruct (Hd d).
Qed.

Lemma same_but_log_eq `{Psi} (d d' : fs) : d = d' → same_but_log d d'.
Proof. by intros -> q _. Qed.

Lemma only_logged_same `{Psi} (w0 w : world) :
  disk w = disk w0 → history w = history w0 → only_logged w0 w.
Proof.
  intros Hd Hh. split; [by apply same_but_log_eq|].
  exists []. by rewrite app_nil_r.
Qed.

Section Loop.
Context `{Host}.
Implicit Types (d default_data fixed_dict : dict pyobj).
Implicit Types (items : list (string * field_type)).

Lemma fix_fields_cons default_data d fn key ty items fixed_dict needs_save r :
  fix_fields default_data d fn ((key, ty) :: items) fixed_dict needs_save = Ok r →
  ∃ o paths, field_fix default_data d fn key ty = Ok (o, paths) ∧
    fix_fields default_data d fn items (assign fixed_dict key o) (needs_save ++ paths)
    = Ok r.
Proof.
  simpl. destruct (field_fix default_data d fn key ty) as [[o paths]|e]; [|done].
  eauto.
Qed.

(** Nothing is ever taken back: paths recorded and keys assigned stay. *)
Lemma fix_fields_mono default_data d fn items fixed_dict needs_save fixed' needs' :
  fix_fields default_data d fn items fixed_dict needs_save = Ok (fixed', needs') →
  (∀ p, p ∈ needs_save → p ∈ needs') ∧
  (∀ key, is_Some (dict_get fixed_dict key) → is_Some (dict_get fixed' key)).
Proof.
  revert fixed_dict needs_save.
  induction items as [|[key ty] items IH]; intros fixed_dict needs_save Hrun.
  - simpl in Hrun. by simplify_eq.
  - apply fix_fields_cons in Hrun as (o & paths & Hfield & Hrun).
    destruct (IH _ _ Hrun) as [Hp Hk]. split.
    + intros p Hin. apply Hp, elem_of_app. by left.
    + intros k Hs. apply Hk. by apply dict_get_assign_is_Some.
Qed.

Lemma fix_fields_notin default_data d fn items fixed_dict needs_save fixed' needs' key :
  fix_fields default_data d fn items fixed_dict needs_save = Ok (fixed', needs') →
  key ∉ items.*1 → dict_get fixed' key = dict_get fixed_dict key.
Proof.
  revert fixed_dict needs_save.
  induction items as [|[k ty] items IH]; intros fixed_dict needs_save Hrun Hnotin.
  - simpl in Hrun. by simplify_eq.
  - apply fix_fields_cons in Hrun as (o & paths & _ & Hrun).
    rewrite fmap_cons in Hnotin. simpl in Hnotin.
    apply not_elem_of_cons in Hnotin as [Hne Hnotin].
    rewrite (IH _ _ Hrun Hnotin). apply dict_get_assign_ne. done.
Qed.

(** Every field of the schema had its turn, and what its turn recorded
    and assigned is in the result. *)
Lemma fix_fields_outcome default_data d fn items fixed_dict needs_save fixed' needs'
    key ty :
  fix_fields default_data d fn items fixed_dict needs_save = Ok (fixed', needs') →
  (key, ty) ∈ items →
  ∃ o paths, field_fix default_data d fn key ty = Ok (o, paths) ∧
    (∀ p, p ∈ paths → p ∈ needs') ∧
    (is_Some o → is_Some (dict_get fixed' key)) ∧
    (NoDup items.*1 →
     dict_get fixed' key
     = match o with Some v => Some v | None => dict_get fixed_dict key end).
Proof.
  revert fixed_dict needs_save.
  induction items as [|[k t] items IH]; intros fixed_dict needs_save Hrun Hin.
  - by apply elem_of_nil in Hin.
  - apply fix_fields_cons in Hrun as (o & paths & Hfield & Hrun).
    apply elem_of_cons in Hin as [Heq|Hin].
    + simplify_eq. exists o, paths. split; [done|].
      destruct (fix_fields_mono _ _ _ _ _ _ _ _ Hrun) as [Hp Hk].
      split; [|split].
      * intros p Hp'. apply Hp. set_solver.
      * intros Hs. apply Hk. rewrite dict_get_assign_eq. by destruct o.
      * intros Hnd. rewrite fmap_cons in Hnd. simpl in Hnd. apply NoDup_cons in Hnd as [Hnotin _].
        rewrite (fix_fields_notin _ _ _ _ _ _ _ _ _ Hrun Hnotin).
        apply dict_get_assign_eq.
    + destruct (IH _ _ Hrun Hin) as (o' & paths' & Hfield' & Hp & Hs & Hget).
      exists o', paths'. split; [done|]. split; [done|]. split; [done|].
      intros Hnd. rewrite fmap_cons in Hnd. simpl in Hnd. apply NoDup_cons in Hnd as [Hnotin Hnd].
      rewrite (Hget Hnd). destruct o'; [done|].
      apply dict_get_assign_ne. intros ->. apply Hnotin.
      apply (list_elem_of_fmap_2 fst) in Hin. done.
Qed.

(** Every recorded path comes from the turn of some field. *)
Lemma fix_fields_log_origin default_data d fn items fixed_dict needs_save
    fixed' needs' p :
  fix_fields default_data d fn items fixed_dict needs_save = Ok (fixed', needs') →
  p ∈ needs' →
  p ∈ needs_save ∨
  ∃ key ty o paths, (key, ty) ∈ items ∧
    field_fix default_data d fn key ty = Ok (o, paths) ∧ p ∈ paths.
Proof.
  revert fixed_dict needs_save.
  induction items as [|[k t] items IH]; intros fixed_dict needs_save Hrun Hin.
  - simpl in Hrun. simplify_eq. by left.
  - apply fix_fields_cons in Hrun as (o & paths & Hfield & Hrun).
    destruct (IH _ _ Hrun Hin) as [Hp|(key & ty & o' & paths' & Hk & Hf & Hp)].
    + apply elem_of_app in Hp as [Hp|Hp]; [by left|].
      right. exists k, t, o, paths. set_solver.
    + right. exists key, ty, o', paths'. set_solver.
Qed.

(** When no field has anything to repair, the loop returns and records
    nothing. *)
Lemma fix_fields_clean default_data d fn items fixed_dict needs_save :
  (∀ key ty, (key, ty) ∈ items →
             ∃ o, field_fix default_data d fn key ty = Ok (o, [])) →
  ∃ fixed', fix_fields default_data d fn items fixed_dict needs_save
            = Ok (fixed', needs_save).
Proof.
  revert fixed_dict needs_save.
  induction items as [|[k t] items IH]; intros fixed_dict needs_save Hall.
  - by eexists.
  - simpl. destruct (Hall k t) as [o ->]; [set_solver|].
    rewrite app_nil_r. apply IH. intros key ty Hin. apply Hall. set_solver.
Qed.

End Loop.

(** ** Induction over nested schemas *)

Lemma schema_nested_ind `{Host} (P : schema → Prop) :
  (∀ annotations default_data,
     (∀ key cls, (key, Blossom cls) ∈ annotations → P cls) →
     P (Schema annotations default_data)) →
  ∀ cls, P cls.
Proof.
  intros Hstep. fix IH 1. intros [annotations default_data].
  apply Hstep. induction annotations as [|[k t] items IHitems].
  - intros key cls Hin. clear IH. by apply elem_of_nil in Hin.
  - intros key cls Hin. apply elem_of_cons in Hin as [Heq|Hin].
    + destruct t as [c|ty]; [|discriminate Heq]. pose proof (IH c) as Hc.
      injection Heq as _ ->. exact Hc.
    + exact (IHitems key cls Hin).
Qed.

Lemma conforming_inv `{Host} annotations default_data :
  conforming (Schema annotations default_data) →
  NoDup annotations.*1 ∧
  ∀ key target_type, (key, target_type) ∈ annotations →
    match target_type with
    | Plain ty => ∀ dflt, dict_get default_data key = Some dflt → accepted ty dflt
    | Blossom single_type =>
      conforming single_type ∧
      ∀ dflt, dict_get default_data key = Some dflt → stable single_type dflt
    end.
Proof.
  intros [Hnd Heach]. split; [done|]. clear Hnd.
  induction annotations as [|[k t] items IH]; intros key ty Hin.
  - by apply elem_of_nil in Hin.
  - destruct Heach as [Hhere Heach].
    apply elem_of_cons in Hin as [Heq|Hin]; [by simplify_eq|by apply IH].
Qed.

(** ** Strings *)

Lemma append_cons (x : ascii) (a b : string) :
  String x a +:+ b = String x (a +:+ b).
Proof. reflexivity. Qed.

Lemma append_nil_l (a : string) : "" +:+ a = a.
Proof. reflexivity. Qed.

Lemma append_assoc (a b c : string) : (a +:+ b) +:+ c = a +:+ (b +:+ c).
Proof.
  induction a as [|x a IH]; [done|]. rewrite !append_cons. by f_equal.
Qed.

Lemma append_nil_r (a : string) : a +:+ "" = a.
Proof. induction a as [|x a IH]; [done|]. rewrite append_cons. by f_equal. Qed.

Lemma length_append (a b : string) :
  String.length (a +:+ b) = (String.length a + String.length b)%nat.
Proof.
  induction a as [|x a IH]; [done|]. rewrite append_cons. simpl. by f_equal.
Qed.

Lemma startswith_append (p s : string) : startswith (p +:+ s) p = true.
Proof.
  unfold startswith. induction p as [|x p IH]; [by destruct s|].
  rewrite append_cons. simpl. destruct (ascii_dec x x); done.
Qed.

Lemma startswith_inv (s p : string) :
  startswith s p = true → ∃ r, s = p +:+ r.
Proof.
  unfold startswith. revert s. induction p as [|x p IH]; intros s Hp.
  - by exists s.
  - destruct s as [|y s]; simpl in Hp; [done|].
    destruct (ascii_dec x y) as [->|]; [|done].
    destruct (IH s Hp) as [r ->]. by exists r.
Qed.

Lemma join_snoc_cons sep (l : list string) x rest :
  rest ≠ [] →
  join sep (l ++ x :: rest) = join sep (l ++ [x]) +:+ sep +:+ join sep rest.
Proof.
  intros Hrest. unfold join. induction l as [|y l IH]; simpl.
  - destruct rest; [done|]. done.
  - destruct (l ++ x :: rest) eqn:E1; [by destruct l|].
    destruct (l ++ [x]) eqn:E2; [by destruct l|].
    rewrite IH. by rewrite !append_assoc.
Qed.

(** ** The reconciler *)

Section Reconciler.
Context `{Host}.

(** C2, as the code has it.  Whenever [_fix_data] returns, a field of
    the schema that has a default and is absent from the raw mapping, or
    whose type is no nested class and whose present value the host's
    coercion rejects, gets a value in [fixed_dict] and its dotted node
    path is in [needs_save]; an absent field gets the default itself. *)
Theorem fix_data_records_every_repair cls d father_nodes fixed_dict needs_save
    key target_type dflt :
  _fix_data cls (VDict d) father_nodes = Ok (fixed_dict, needs_save) →
  (key, target_type) ∈ get_field_annotations cls →
  dict_get (get_default_data cls) key = Some dflt →
  (dict_get d key = None ∨
   ∃ ty v e, target_type = Plain ty ∧ dict_get d key = Some v ∧
             deserialize v ty = Raise e) →
  is_Some (dict_get fixed_dict key) ∧
  join "." (father_nodes ++ [key]) ∈ needs_save ∧
  (NoDup (get_field_annotations cls).*1 → dict_get d key = None →
   dict_get fixed_dict key = Some dflt).
Proof.
  destruct cls as [annotations default_data].
  cbn [get_field_annotations get_default_data]. rewrite _fix_data_unfold. intros Hrun Hin Hdflt Hcase.
  destruct (fix_fields_outcome _ _ _ _ _ _ _ _ _ _ Hrun Hin)
    as (o & paths & Hfield & Hpaths & Hsome & Hget).
  unfold field_fix in Hfield. rewrite Hdflt in Hfield.
  destruct Hcase as [Habs|(ty & v & e & -> & Hv & Hdes)].
  - rewrite Habs in Hfield. simplify_eq. split; [|split].
    + apply Hsome. eauto.
    + apply Hpaths. set_solver.
    + intros Hnd _. by rewrite (Hget Hnd).
  - rewrite Hv, Hdes in Hfield.
    destruct (is_value_or_type_error e); [|done].
    assert (is_Some o ∧ join "." (father_nodes ++ [key]) ∈ paths) as [Ho Hp].
    { destruct (isinstance_Serializable ty).
      - destruct (get_default_serialize ty); simplify_eq. split; [eauto|set_solver].
      - destruct (construct ty v); simplify_eq; (split; [eauto|set_solver]). }
    split; [by apply Hsome|]. split; [by apply Hpaths|].
    intros _ Habs. congruence.
Qed.

(** C3, as the code has it.  When the host's coercion rejects the present
    value of a field that has a default, the node path is recorded and
    the field gets the result of calling the target type's constructor
    on the present raw value; the literal default is used only when that
    call raises.  (If the declared type object is itself an instance of
    [Serializable], the field gets that type's default serialization.) *)
Theorem fix_data_failed_coercion cls d father_nodes fixed_dict needs_save
    key ty v e dflt :
  _fix_data cls (VDict d) father_nodes = Ok (fixed_dict, needs_save) →
  NoDup (get_field_annotations cls).*1 →
  (key, Plain ty) ∈ get_field_annotations cls →
  dict_get d key = Some v →
  deserialize v ty = Raise e →
  is_value_or_type_error e = true →
  dict_get (get_default_data cls) key = Some dflt →
  join "." (father_nodes ++ [key]) ∈ needs_save ∧
  dict_get fixed_dict key
  = Some (if isinstance_Serializable ty
          then match get_default_serialize ty with Ok v' => v' | Raise _ => dflt end
          else match construct ty v with Ok v' => v' | Raise _ => dflt end).
Proof.
  destruct cls as [annotations default_data].
  cbn [get_field_annotations get_default_data]. rewrite _fix_data_unfold. intros Hrun Hnd Hin Hv Hdes He Hdflt.
  destruct (fix_fields_outcome _ _ _ _ _ _ _ _ _ _ Hrun Hin)
    as (o & paths & Hfield & Hpaths & _ & Hget).
  rewrite (Hget Hnd). clear Hget.
  unfold field_fix in Hfield. rewrite Hv, Hdes, He, Hdflt in Hfield.
  destruct (isinstance_Serializable ty).
  - destruct (get_default_serialize ty); simplify_eq. split; [|done].
    apply Hpaths. set_solver.
  - destruct (construct ty v); simplify_eq; (split; [|done]); apply Hpaths; set_solver.
Qed.

(** C4. A field whose present value the host's coercion rejects and
    which has no default is absent from [fixed_dict] (and its node path
    is recorded). *)
Theorem fix_data_drops_field_without_default cls d father_nodes fixed_dict
    needs_save key ty v e :
  _fix_data cls (VDict d) father_nodes = Ok (fixed_dict, needs_save) →
  NoDup (get_field_annotations cls).*1 →
  (key, Plain ty) ∈ get_field_annotations cls →
  dict_get d key = Some v →
  deserialize v ty = Raise e →
  is_value_or_type_error e = true →
  dict_get (get_default_data cls) key = None →
  dict_get fixed_dict key = None ∧
  join "." (father_nodes ++ [key]) ∈ needs_save.
Proof.
  destruct cls as [annotations default_data].
  cbn [get_field_annotations get_default_data]. rewrite _fix_data_unfold. intros Hrun Hnd Hin Hv Hdes He Hdflt.
  destruct (fix_fields_outcome _ _ _ _ _ _ _ _ _ _ Hrun Hin)
    as (o & paths & Hfield & Hpaths & _ & Hget).
  rewrite (Hget Hnd). clear Hget.
  unfold field_fix in Hfield. rewrite Hv, Hdes, He, Hdflt in Hfield.
  simplify_eq. split; [done|]. apply Hpaths. set_solver.
Qed.

(** Every recorded path extends the path of the mapping being
    reconciled by at least one key. *)
Lemma fix_data_paths_extend cls :
  ∀ data father_nodes fixed_dict needs_save p,
    _fix_data cls data father_nodes = Ok (fixed_dict, needs_save) →
    p ∈ needs_save →
    ∃ rest, rest ≠ [] ∧ p = join "." (father_nodes ++ rest).
Proof.
  induction cls as [annotations default_data IH] using schema_nested_ind.
  intros data father_nodes fixed_dict needs_save p Hrun Hp.
  destruct data as [| | | | |d|];
    try (destruct annotations as [|[k t] items]; simpl in Hrun; [|done];
         simplify_eq; by apply elem_of_nil in Hp).
  rewrite _fix_data_unfold in Hrun.
  destruct (fix_fields_log_origin _ _ _ _ _ _ _ _ _ Hrun Hp)
    as [Hnil|(key & ty & o & paths & Hin & Hfield & Hpp)];
    [by apply elem_of_nil in Hnil|].
  unfold field_fix in Hfield.
  assert (p = join "." (father_nodes ++ [key]) →
          ∃ rest, rest ≠ [] ∧ p = join "." (father_nodes ++ rest)) as Hhere.
  { intros ->. by exists [key]. }
  destruct (dict_get d key) as [v|].
  - destruct ty as [c|ty].
    + destruct (_fix_data c v (father_nodes ++ [key])) as [[sd sn]|e'] eqn:Hsub;
        [|done].
      simplify_eq.
      destruct (IH key c Hin _ _ _ _ p Hsub Hpp) as (rest & Hrest & ->).
      exists (key :: rest). split; [done|]. by rewrite <- app_assoc.
    + destruct (deserialize v ty) as [v'|e'].
      { simplify_eq. by apply elem_of_nil in Hpp. }
      destruct (is_value_or_type_error e'); [|done].
      destruct (dict_get default_data key).
      * destruct (isinstance_Serializable ty).
        -- destruct (get_default_serialize ty); simplify_eq.
           apply Hhere. set_solver.
        -- destruct (construct ty v); simplify_eq; apply Hhere; set_solver.
      * simplify_eq. apply Hhere. set_solver.
  - destruct (dict_get default_data key); simplify_eq.
    + apply Hhere. set_solver.
    + by apply elem_of_nil in Hpp.
Qed.

(** C6. For a field whose type is a nested schema, the paths recorded
    while reconciling the nested value are in the outer log, and each is
    the dotted path of the outer key followed by a dot and the path
    inside the nested value. *)
Theorem nested_repairs_carry_full_path cls d father_nodes fixed_dict needs_save
    key single_type v :
  _fix_data cls (VDict d) father_nodes = Ok (fixed_dict, needs_save) →
  (key, Blossom single_type) ∈ get_field_annotations cls →
  dict_get d key = Some v →
  ∃ single_data save_nodes,
    _fix_data single_type v (father_nodes ++ [key]) = Ok (single_data, save_nodes) ∧
    ∀ p, p ∈ save_nodes →
      p ∈ needs_save ∧
      ∃ rest, rest ≠ [] ∧
        p = join "." (father_nodes ++ [key]) +:+ "." +:+ join "." rest.
Proof.
  destruct cls as [annotations default_data].
  cbn [get_field_annotations get_default_data]. rewrite _fix_data_unfold. intros Hrun Hin Hv.
  destruct (fix_fields_outcome _ _ _ _ _ _ _ _ _ _ Hrun Hin)
    as (o & paths & Hfield & Hpaths & _ & _).
  unfold field_fix in Hfield. rewrite Hv in Hfield.
  destruct (_fix_data single_type v (father_nodes ++ [key])) as [[sd sn]|e] eqn:Hsub;
    [|done].
  simplify_eq. exists sd, paths. split; [done|].
  intros p Hp. split; [by apply Hpaths|].
  destruct (fix_data_paths_extend _ _ _ _ _ _ Hsub Hp) as (rest & Hrest & ->).
  exists rest. split; [done|].
  rewrite <- app_assoc. simpl. by apply join_snoc_cons.
Qed.

End Reconciler.

Section Idempotence.
Context `{Host}.
Hypothesis Hhost : coherent_host.

(** On a conforming schema, the value a turn of the loop assigns to a
    field is one a second reconciliation leaves alone. *)
Lemma refix_field annotations default_data d father_nodes key target_type o paths
    fixed_dict father_nodes' :
  (∀ k c, (k, Blossom c) ∈ annotations →
     conforming c →
     ∀ data fn fixed ns fn', _fix_data c data fn = Ok (fixed, ns) →
       ∃ fixed', _fix_data c (VDict fixed) fn' = Ok (fixed', [])) →
  conforming (Schema annotations default_data) →
  (key, target_type) ∈ annotations →
  field_fix default_data d father_nodes key target_type = Ok (o, paths) →
  dict_get fixed_dict key = o →
  ∃ o', field_fix default_data fixed_dict father_nodes' key target_type = Ok (o', []).
Proof.
  intros IH Hconf Hin Hfield Hget.
  destruct Hhost as (Hdes & Hcon & Hser).
  apply conforming_inv in Hconf as [_ Hconf]. specialize (Hconf _ _ Hin).
  unfold field_fix in *. rewrite Hget. clear Hget.
  destruct target_type as [c|ty].
  - destruct Hconf as [Hc Hstable].
    assert (∀ v, o = Some v → stable c v ∨ ∃ data fn fixed ns,
               _fix_data c data fn = Ok (fixed, ns) ∧ v = VDict fixed) as Hv.
    { intros v ->. destruct (dict_get d key) as [w|].
      - destruct (_fix_data c w (father_nodes ++ [key])) as [[sd sn]|e] eqn:Hsub;
          [|done].
        simplify_eq. right. by exists w, (father_nodes ++ [key]), sd, paths.
      - destruct (dict_get default_data key) as [dflt|] eqn:Hd; simplify_eq.
        left. by apply Hstable. }
    destruct o as [v|].
    + destruct (Hv v eq_refl) as [Hst|(data & fn & fixed & ns & Hsub & ->)].
      * destruct (Hst (father_nodes' ++ [key])) as [fixed' ->]. eauto.
      * destruct (IH key c Hin Hc _ _ _ _ (father_nodes' ++ [key]) Hsub)
          as [fixed' ->].
        eauto.
    + destruct (dict_get d key) as [w|].
      * destruct (_fix_data c w (father_nodes ++ [key])) as [[sd sn]|e]; done.
      * destruct (dict_get default_data key); [done|]. eauto.
  - assert (∀ v, o = Some v → accepted ty v) as Hv.
    { intros v ->. destruct (dict_get d key) as [w|].
      - destruct (deserialize w ty) as [w'|e] eqn:Hw.
        { simplify_eq. by eapply Hdes. }
        destruct (is_value_or_type_error e); [|done].
        destruct (dict_get default_data key) as [dflt|] eqn:Hd; [|done].
        destruct (isinstance_Serializable ty) eqn:Hi.
        + destruct (get_default_serialize ty) eqn:Hg; simplify_eq. by eapply Hser.
        + destruct (construct ty w) eqn:Hc; simplify_eq; [by eapply Hcon|].
          by apply Hconf.
      - destruct (dict_get default_data key) as [dflt|] eqn:Hd; simplify_eq.
        by apply Hconf. }
    destruct o as [v|].
    + destruct (Hv v eq_refl) as [v' ->]. eauto.
    + destruct (dict_get d key) as [w|].
      * destruct (deserialize w ty) as [w'|e]; [done|].
        destruct (is_value_or_type_error e); [|done].
        destruct (dict_get default_data key); [|eauto].
        destruct (isinstance_Serializable ty).
        -- destruct (get_default_serialize ty); done.
        -- destruct (construct ty w); done.
      * destruct (dict_get default_data key); [done|]. eauto.
Qed.


End Idempotence.

(** ** The reconciler on the built-in types *)

Lemma py_host_coherent : @coherent_host py_host.
Proof.
  split; [|split].
  - intros ty v v' Hd. exists v'. destruct ty, v; simpl in *; by simplify_eq.
  - intros ty v v' Hc. exists v'.
    destruct ty, v as [| | |s| | |[]]; simpl in *; simplify_eq; try done.
    destruct (int_of_string s); by simplify_eq.
  - intros ty v' Hi. done.
Qed.

Lemma schema_x_conforming : conforming schema_x.
Proof.
  split; [repeat constructor; set_solver|]. split; [|done].
  intros dflt Hd. simpl in Hd. simplify_eq. by eexists.
Qed.

Lemma schema_sub_conforming : conforming schema_sub.
Proof.
  split; [repeat constructor; set_solver|]. split; [|done].
  split; [apply schema_x_conforming|].
  intros dflt Hd. simpl in Hd. simplify_eq. intros fn. by eexists.
Qed.

Lemma fix_data_records_every_repair_witness :
  is_Some (dict_get [("a", (VInt 5 : py_value))] "a") ∧
  join "." ([] ++ ["a"]) ∈ ["a"] ∧
  (NoDup (get_field_annotations schema_a).*1 →
   dict_get (@nil (string * py_value)) "a" = None →
   dict_get [("a", (VInt 5 : py_value))] "a" = Some (VInt 5)).
Proof.
  apply (@fix_data_records_every_repair py_host schema_a [] [] [("a", VInt 5)] ["a"]
           "a" (@Plain py_host PInt) (VInt 5)).
  - reflexivity.
  - apply list_elem_of_here.
  - reflexivity.
  - left. reflexivity.
Defined.

(** C2 as stated fails, in two ways.  Against [b: int = 1] beside a
    nested [sub], the raw document [{"sub": 5}] lacks [b], which has a
    default; [_fix_data] raises, and hands back neither a value for [b]
    nor its path.  And where the nested class declares no field, the
    value [5] of [opt] is replaced by the empty mapping while no path is
    recorded. *)
Lemma fix_data_loses_repairs :
  (dict_get [("sub", (VInt 5 : py_value))] "b" = None ∧
   dict_get (get_default_data schema_b_sub) "b" = Some (VInt 1) ∧
   _fix_data schema_b_sub (VDict [("sub", VInt 5)]) [] = Raise AttributeError) ∧
  (dict_get (get_default_data schema_opt) "opt" = Some (VDict []) ∧
   _fix_data schema_opt (VDict [("opt", VInt 5)]) [] = Ok ([("opt", VDict [])], [])).
Proof. repeat split; done. Qed.

(** C3 as stated fails: for the raw document [{"a": "12"}] against
    [{a: int (default 5)}] the host rejects the string, the path is
    recorded, but the field gets [int("12")], which is neither the default
    nor [int] applied to the default. *)
Lemma fix_data_keeps_constructible_raw_value :
  deserialize (VStr "12" : value (@pyobj py_host)) PInt = Raise TypeError ∧
  dict_get (get_default_data schema_a) "a" = Some (VInt 5) ∧
  construct PInt (VInt 5 : value (@pyobj py_host)) = Ok (VInt 5) ∧
  _fix_data schema_a (VDict [("a", VStr "12")]) []
  = Ok ([("a", VInt 12)], ["a"]) ∧
  (VInt 12 : py_value) ≠ VInt 5.
Proof. repeat split; done. Qed.

Lemma fix_data_failed_coercion_witness :
  join "." ([] ++ ["a"]) ∈ ["a"] ∧
  dict_get [("a", (VInt 12 : py_value))] "a" = Some (VInt 12).
Proof.
  apply (@fix_data_failed_coercion py_host schema_a [("a", VStr "12")] []
           [("a", VInt 12)] ["a"] "a" PInt (VStr "12") TypeError (VInt 5)).
  - reflexivity.
  - simpl. repeat constructor; set_solver.
  - apply list_elem_of_here.
  - reflexivity.
  - reflexivity.
  - reflexivity.
  - reflexivity.
Defined.

Lemma fix_data_drops_field_without_default_witness :
  dict_get (@nil (string * py_value)) "a" = None ∧
  join "." ([] ++ ["a"]) ∈ ["a"].
Proof.
  apply (@fix_data_drops_field_without_default py_host schema_nodefault
           [("a", VStr "oops")] [] [] ["a"] "a" PInt (VStr "oops") TypeError).
  - reflexivity.
  - simpl. repeat constructor; set_solver.
  - apply list_elem_of_here.
  - reflexivity.
  - reflexivity.
  - reflexivity.
  - reflexivity.
Defined.

Lemma schema_level_conforming : conforming schema_level.
Proof.
  split; [repeat constructor; set_solver|]. split; [|done].
  intros dflt Hd. simpl in Hd. simplify_eq. by eexists.
Qed.

(** The host with the enumeration does not accept what it hands back:
    the member it returns for a name is no string. *)
Lemma enum_host_not_coherent : ¬ @coherent_host enum_host.
Proof.
  intros (Hdes & _ & _).
  destruct (Hdes tt (VStr "HIGH") (VOpaque HIGH) eq_refl) as [v' Hv']. done.
Qed.



(** The scenario of C6: [{"sub": {"x": "bad"}}], [sub] a nested schema
    with [x: int = 0], records ["sub.x"]. *)
Lemma nested_repairs_carry_full_path_witness :
  _fix_data schema_sub (VDict [("sub", VDict [("x", VStr "bad")])]) []
  = Ok ([("sub", VDict [("x", VInt 0)])], ["sub.x"]) ∧
  ∃ single_data save_nodes,
    _fix_data schema_x (VDict [("x", VStr "bad")]) ([] ++ ["sub"])
    = Ok (single_data, save_nodes) ∧
    ∀ p, p ∈ save_nodes →
      p ∈ ["sub.x"] ∧
      ∃ rest, rest ≠ [] ∧ p = join "." ([] ++ ["sub"]) +:+ "." +:+ join "." rest.
Proof.
  split; [reflexivity|].
  apply (@nested_repairs_carry_full_path py_host schema_sub
           [("sub", VDict [("x", VStr "bad")])] []
           [("sub", VDict [("x", VInt 0)])] ["sub.x"] "sub" schema_x
           (VDict [("x", VStr "bad")])).
  - reflexivity.
  - apply list_elem_of_here.
  - reflexivity.
Defined.

(** ** Translation keys *)

Section Translation.
Context `{Psi}.

Lemma rtr_key key args with_prefix :
  (rtr key args with_prefix).(translation_key)
  = if with_prefix && negb (startswith key TRANSLATION_KEY_PREFIX)
    then TRANSLATION_KEY_PREFIX +:+ key
    else key.
Proof. reflexivity. Qed.

Lemma ktr_key key args default_fallback log_error_message prefix :
  (ktr key args default_fallback log_error_message prefix).(translation_key)
  = if startswith key prefix then key else prefix +:+ key.
Proof. unfold ktr. simpl. by destruct (startswith key prefix). Qed.

(** C10. [rtr] and [ktr] prepend the prefix exactly when the key does
    not start with it; a key that carries the prefix is passed through
    unchanged, and prefixing twice gives the same key as prefixing
    once. *)
Theorem translation_prefix_idempotent key args with_prefix default_fallback
    default_fallback' log_error_message prefix :
  let rtr_key k := (rtr k args with_prefix).(translation_key) in
  let ktr_key k d :=
    (ktr k args d log_error_message prefix).(translation_key) in
  rtr_key key
  = (if with_prefix && negb (startswith key TRANSLATION_KEY_PREFIX)
     then TRANSLATION_KEY_PREFIX +:+ key else key) ∧
  rtr_key (TRANSLATION_KEY_PREFIX +:+ key) = TRANSLATION_KEY_PREFIX +:+ key ∧
  rtr_key (rtr_key key) = rtr_key key ∧
  ktr_key key default_fallback
  = (if startswith key prefix then key else prefix +:+ key) ∧
  ktr_key (prefix +:+ key) default_fallback = prefix +:+ key ∧
  ktr_key (ktr_key key default_fallback) default_fallback'
  = ktr_key key default_fallback.
Proof.
  intros rk kk. subst rk kk. cbv beta. rewrite !rtr_key, !ktr_key.
  rewrite !startswith_append. rewrite andb_false_r.
  split; [done|]. split; [done|]. split; [|split; [done|split; [done|]]].
  - destruct with_prefix; [|done]. simpl.
    destruct (startswith key TRANSLATION_KEY_PREFIX) eqn:E; simpl.
    + by rewrite E.
    + by rewrite startswith_append.
  - destruct (startswith key prefix) eqn:E.
    + by rewrite E.
    + by rewrite startswith_append.
Qed.

Lemma collect_languages_all_given items languages :
  Forall is_Some items → Forall is_Some languages →
  Forall is_Some (collect_languages items languages).
Proof.
  revert languages. induction items as [|item items IH]; intros languages Hi Hl.
  - done.
  - apply Forall_cons in Hi as [Hitem Hi]. simpl. case_bool_decide.
    + by apply IH.
    + apply IH; [done|]. apply Forall_app. split; [done|]. by constructor.
Qed.

Lemma join_languages_all_given languages :
  Forall is_Some languages → ∃ text, join_languages languages = Ok text.
Proof.
  intros Hall. unfold join_languages.
  destruct (mapM id languages) as [l|] eqn:E; [by eexists|].
  exfalso. induction Hall as [|[x|] languages [y Hy] Hall IH]; simpl in E; [done| |done].
  destruct (mapM id languages); [done|]. by apply IH.
Qed.

Lemma collect_languages_keeps items languages item :
  item ∈ languages → item ∈ collect_languages items languages.
Proof.
  revert languages. induction items as [|x items IH]; intros languages Hin; [done|].
  simpl. case_bool_decide; apply IH; [done|]. apply elem_of_app. by left.
Qed.

Lemma collect_languages_head item items :
  item ∈ collect_languages (item :: items) [].
Proof.
  cbn [collect_languages].
  rewrite bool_decide_eq_false_2 by apply not_elem_of_nil.
  apply collect_languages_keeps, list_elem_of_here.
Qed.

Lemma join_languages_not_given languages :
  None ∈ languages → join_languages languages = Raise TypeError.
Proof.
  intros Hin. unfold join_languages.
  destruct (mapM id languages) as [l|] eqn:E; [|done]. exfalso.
  revert l E. induction languages as [|x languages IH]; intros l0 E.
  - by apply elem_of_nil in Hin.
  - apply elem_of_cons in Hin as [<-|Hin]; simpl in E; [done|].
    destruct x as [x|]; [|done]. simpl in E.
    destruct (mapM id languages) as [l'|]; [|done]. by eapply (IH Hin l').
Qed.

(** X26. When a language is requested, both lookups fail and failure
    is allowed, [ntr] returns the key (or the given fallback) and logs
    exactly when logging is enabled. *)
Lemma ntr_echoes_key translation_key args language _mcdr_tr_language l
    _default_fallback log_error_message e e' :
  match language, _mcdr_tr_language with
  | Some l', None => Some l'
  | _, _ => _mcdr_tr_language
  end = Some l →
  psi_tr translation_key args (Some l) = Raise e →
  is_key_or_value_error e = true →
  (get_mcdr_language = "en_us" ∨
   psi_tr translation_key args (Some "en_us") = Raise e' ∧
   is_key_or_value_error e' = true) →
  ∃ languages,
    ntr translation_key args language _mcdr_tr_language true _default_fallback
        log_error_message
    = (if log_error_message
       then ["Error translate text " +:+ dquote +:+ translation_key
               +:+ dquote +:+ " to language " +:+ languages]
       else [],
       Ok (match _default_fallback with
           | None => inl translation_key
           | Some d => d
           end)).
Proof.
  intros Hlang Hfirst He Hsecond. unfold ntr.
  destruct language as [l1|], _mcdr_tr_language as [l2|];
    simpl in Hlang; simplify_eq; cbv beta iota zeta; rewrite Hfirst, He.
  all: destruct (join_languages_all_given
              (collect_languages [Some l; Some get_mcdr_language; Some "en_us"] []))
    as [text Htext].
  all: try (apply collect_languages_all_given; [|done]; repeat constructor; eauto).
  all: exists text.
  all: destruct Hsecond as [Hen|[Hsecond He']];
    [ rewrite Hen in *; simpl String.eqb; cbv iota; simpl is_key_or_value_error;
      cbv iota; by rewrite Htext
    | destruct (String.eqb get_mcdr_language "en_us");
      [ simpl is_key_or_value_error; cbv iota; by rewrite Htext
      | rewrite Hsecond, He'; by rewrite Htext ] ].
Qed.

(** C9, where the code departs from it.  When neither [language] nor
    [_mcdr_tr_language] is given and both lookups fail, [ntr] raises
    [TypeError] while building the list of languages, whatever
    [allow_failure] says. *)
Theorem ntr_raises_without_language translation_key args allow_failure
    _default_fallback log_error_message e e' :
  psi_tr translation_key args None = Raise e →
  is_key_or_value_error e = true →
  (get_mcdr_language = "en_us" ∨
   psi_tr translation_key args (Some "en_us") = Raise e' ∧
   is_key_or_value_error e' = true) →
  ntr translation_key args None None allow_failure _default_fallback
      log_error_message
  = ([], Raise TypeError).
Proof.
  intros Hfirst He Hsecond. unfold ntr. cbv beta iota zeta. rewrite Hfirst, He.
  assert (join_languages
            (collect_languages [None; Some get_mcdr_language; Some "en_us"] [])
          = Raise TypeError) as Hjoin.
  { apply join_languages_not_given, collect_languages_head. }
  destruct Hsecond as [Hen|[Hsecond He']].
  - rewrite Hen in *. simpl String.eqb. cbv iota. simpl is_key_or_value_error.
    cbv iota. by rewrite Hjoin.
  - destruct (String.eqb get_mcdr_language "en_us").
    + simpl is_key_or_value_error. cbv iota. by rewrite Hjoin.
    + rewrite Hsecond, He'. by rewrite Hjoin.
Qed.

End Translation.

Lemma ntr_raises_without_language_witness :
  @ntr bare_psi "help.missing" tt None None true None true = ([], Raise TypeError).
Proof.
  apply (@ntr_raises_without_language bare_psi "help.missing" tt true None true
           KeyError KeyError).
  - reflexivity.
  - reflexivity.
  - right. split; reflexivity.
Defined.

(** ** Running computations *)

Ltac io_simpl :=
  repeat progress
    (unfold mbind, mret, io_bind, io_ret, raise, lift, get_disk, put_disk,
       get_logger, put_logger, print_console, reply, try_except_else,
       try_finally, any_exception;
     cbn beta iota zeta;
     cbn [disk history the_logger console replies verbose cached_verbose src
          recording log_record fst snd]).

(** ** Loading *)

Section Load.
Context `{HH : Host} `{!Yaml} `{!ConfigClass} `{!Psi}.
Context (no_args : targs).

(** C1, where the code departs from it.  When the file can be read and
    parses as YAML, but not as a mapping (an empty document, a scalar, a
    sequence), [_fix_data] is called outside any [try] and [load] raises
    [AttributeError]; the file is left as it was. *)
Theorem load_raises_on_non_mapping_document (file_path : string)
    (bundled_template_path : option string) (in_data_folder print_to_console : bool)
    (source_to_reply : option source) (w : world) (text : string)
    (data : value pyobj) :
  let path :=
    if in_data_folder then path_join get_data_folder file_path else file_path in
  disk w !! path = Some (File text) →
  yaml_safe_load (replace_cr (replace_crlf text)) = Ok data →
  (∀ d, data ≠ VDict d) →
  cls_annotations ≠ @nil (string * field_type) →
  let run := load no_args file_path bundled_template_path in_data_folder
               print_to_console source_to_reply w in
  run.1 = Raise AttributeError ∧ disk run.2 = disk w ∧ history run.2 = history w.
Proof.
  intros path Hfile Hparse Hdata Hann run. subst run path.
  unfold load, record_context, reply_to_source_context, lf_read.
  io_simpl. unfold read_text. rewrite Hfile. io_simpl. rewrite Hparse. io_simpl.
  unfold cls_schema. rewrite _fix_data_not_a_mapping by done. io_simpl. done.
Qed.

End Load.

(** An empty configuration file: the safe loader returns [None]. *)
Lemma load_raises_on_non_mapping_document_witness :
  let run := @load py_host mini_yaml config_a bare_psi tt "config.yml" None true
               true None (world_with "config/my_plugin/config.yml" "") in
  run.1 = Raise AttributeError ∧
  disk run.2 = disk (world_with "config/my_plugin/config.yml" "") ∧
  history run.2 = history (world_with "config/my_plugin/config.yml" "").
Proof.
  apply (@load_raises_on_non_mapping_document py_host mini_yaml config_a bare_psi
           tt "config.yml" None true true None
           (world_with "config/my_plugin/config.yml" "") "" VNone).
  - reflexivity.
  - reflexivity.
  - intros d. discriminate.
  - discriminate.
Defined.

(** ** Paths: the temporary files are never the destination *)

Lemma nonslash_append (a b : string) :
  nonslash (a +:+ b) = (nonslash a + nonslash b)%nat.
Proof.
  induction a as [|c a IH]; [done|]. rewrite append_cons. simpl.
  destruct (is_slash c); simpl; by rewrite IH.
Qed.

Lemma within_nonslash (t p : string) :
  within t p = true → (nonslash t ≤ nonslash p)%nat.
Proof.
  unfold within. intros Hw. apply orb_true_iff in Hw as [Heq|Hpre].
  - apply String.eqb_eq in Heq. by subst.
  - apply startswith_inv in Hpre as [r ->]. rewrite !nonslash_append. lia.
Qed.

Lemma outside (t p : string) :
  (nonslash p < nonslash t)%nat → within t p = false.
Proof.
  intros Hlt. destruct (within t p) eqn:E; [|done].
  apply within_nonslash in E. lia.
Qed.

Lemma path_head_basename (p : string) : path_head p +:+ basename p = p.
Proof.
  induction p as [|c p IH]; [done|]. simpl.
  destruct (has_slash p).
  - rewrite append_cons. by rewrite IH.
  - by destruct (is_slash c).
Qed.

Lemma nonslash_all_slashes (s : string) : all_slashes s = true → nonslash s = O.
Proof.
  induction s as [|c s IH]; [done|]. simpl. intros Hs.
  apply andb_true_iff in Hs as [-> Hs]. by apply IH.
Qed.

Lemma nonslash_rstrip_slashes (s : string) :
  nonslash (rstrip_slashes s) = nonslash s.
Proof.
  induction s as [|c s IH]; [done|].
  cbn [rstrip_slashes]. destruct (all_slashes (String c s)) eqn:E.
  - by rewrite (nonslash_all_slashes _ E).
  - simpl. by rewrite IH.
Qed.

Lemma nonslash_dirname_basename (p : string) :
  (nonslash (dirname p) + nonslash (basename p))%nat = nonslash p.
Proof.
  rewrite <- (path_head_basename p) at 3. rewrite nonslash_append. f_equal.
  unfold dirname.
  destruct (negb (String.eqb (path_head p) "") && negb (all_slashes (path_head p)));
    [apply nonslash_rstrip_slashes|done].
Qed.

Lemma nonslash_path_join (a b : string) :
  startswith b "/" = false →
  nonslash (path_join a b) = (nonslash a + nonslash b)%nat.
Proof.
  intros Hb. unfold path_join. rewrite Hb.
  destruct (String.eqb a "" || ends_with_slash a).
  - apply nonslash_append.
  - rewrite !nonslash_append. simpl. lia.
Qed.

Lemma nonslash_config_temp_path (p : string) :
  nonslash (config_temp_path_of p) = (nonslash p + 5)%nat.
Proof.
  unfold config_temp_path_of. rewrite nonslash_path_join by done.
  rewrite nonslash_append. simpl nonslash at 2.
  pose proof (nonslash_dirname_basename p). lia.
Qed.

Lemma tmp_outside (p : string) : within (p +:+ ".tmp") p = false.
Proof. apply outside. rewrite nonslash_append. simpl. lia. Qed.

Lemma config_temp_outside (p : string) : within (config_temp_path_of p) p = false.
Proof. apply outside. rewrite nonslash_config_temp_path. lia. Qed.

Lemma config_temp_tmp_outside (p : string) :
  within (config_temp_path_of p +:+ ".tmp") p = false.
Proof.
  apply outside. rewrite nonslash_append, nonslash_config_temp_path. simpl. lia.
Qed.

Lemma outside_ne (t p : string) : within t p = false → p ≠ t.
Proof.
  unfold within. intros Hw ->. by rewrite String.eqb_refl in Hw.
Qed.

(** ** The disk operations of [file_util] *)

Lemma deleted_lookup_self (d : fs) (p : string) : deleted d p !! p = None.
Proof.
  unfold deleted, isfile, isdir, os_remove, rmtree.
  destruct (d !! p) as [[content|]|] eqn:E.
  - apply lookup_delete_eq.
  - apply map_lookup_filter_None. right. intros x _. simpl. unfold within.
    by rewrite String.eqb_refl.
  - done.
Qed.

Lemma deleted_lookup_outside (d : fs) (p q : string) :
  within p q = false → deleted d p !! q = d !! q.
Proof.
  intros Hout. pose proof (outside_ne _ _ Hout) as Hne.
  unfold deleted, isfile, isdir, os_remove, rmtree.
  destruct (d !! p) as [[content|]|] eqn:E.
  - by apply lookup_delete_ne.
  - rewrite map_lookup_filter. destruct (d !! q) as [x|]; [|done]. simpl.
    by rewrite option_guard_True.
  - done.
Qed.

Lemma delete_steps_spec (d : fs) (p : string) :
  Forall (λ dd, dd = deleted d p) (delete_steps d p).
Proof.
  unfold delete_steps. destruct (isfile d p || isdir d p); by repeat constructor.
Qed.

Lemma write_states_lookup (d : fs) (p written rest : string) :
  Forall (λ dd, (∀ q, q ≠ p → dd !! q = d !! q) ∧
                ∃ pre, dd !! p = Some (File (written +:+ pre)))
         (write_states d p written rest).
Proof.
  revert d written. induction rest as [|c rest IH]; intros d written; [constructor|].
  simpl. constructor.
  - split; [intros q Hq; by apply lookup_insert_ne|].
    exists (String c ""). apply lookup_insert_eq.
  - eapply Forall_impl; [apply IH|]. intros dd [Hother [pre Hp]]. split.
    + intros q Hq. rewrite (Hother q Hq). by apply lookup_insert_ne.
    + exists (String c pre). rewrite Hp, append_assoc. done.
Qed.

Lemma write_states_last (d : fs) (p written rest : string) :
  d !! p = Some (File written) →
  default d (last (write_states d p written rest)) !! p
  = Some (File (written +:+ rest)).
Proof.
  revert d written. induction rest as [|c rest IH]; intros d written Hp.
  - simpl. by rewrite append_nil_r.
  - cbn [write_states].
    set (written' := written +:+ String c "").
    set (d' := <[p := File written']> d).
    specialize (IH d' written' (lookup_insert_eq _ _ _)).
    replace (written +:+ String c rest) with (written' +:+ rest)
      by (unfold written'; by rewrite append_assoc).
    rewrite <- IH, last_cons.
    by destruct (last (write_states d' p written' rest)).
Qed.

Lemma write_states_last_other (d : fs) (p written rest q : string) :
  q ≠ p → default d (last (write_states d p written rest)) !! q = d !! q.
Proof.
  intros Hq. pose proof (write_states_lookup d p written rest) as Hall.
  destruct (last (write_states d p written rest)) as [dd|] eqn:E; [|done].
  apply last_Some_elem_of in E. rewrite Forall_forall in Hall.
  by apply Hall.
Qed.

Section DiskRuns.
Context `{Psi}.

Lemma with_disk_nil (w : world) : with_disk w (disk w) [] = w.
Proof. destruct w. unfold with_disk. simpl. by rewrite app_nil_r. Qed.

Lemma with_disk_with_disk (w : world) d1 h1 d2 h2 :
  with_disk (with_disk w d1 h1) d2 h2 = with_disk w d2 (h1 ++ h2).
Proof. unfold with_disk. simpl. by rewrite app_assoc. Qed.

Lemma put_disk_run (d : fs) (w : world) :
  put_disk d w = (Ok tt, with_disk w d [d]).
Proof. reflexivity. Qed.

Lemma delete_run (p : string) (w : world) :
  delete p w = (Ok tt, with_disk w (deleted (disk w) p) (delete_steps (disk w) p)).
Proof.
  unfold delete. io_simpl. unfold delete_steps, deleted.
  destruct (isfile (disk w) p); simpl; [done|].
  destruct (isdir (disk w) p); simpl; [done|]. by rewrite with_disk_nil.
Qed.

Lemma write_text_run (p written rest : string) (w : world) :
  write_text p written rest w
  = (Ok tt,
     with_disk w (default (disk w) (last (write_states (disk w) p written rest)))
       (write_states (disk w) p written rest)).
Proof.
  revert written w. induction rest as [|c rest IH]; intros written w.
  - simpl. by rewrite with_disk_nil.
  - cbn [write_text write_states]. io_simpl. rewrite IH. cbn [disk]. f_equal.
    unfold with_disk. cbn [disk history the_logger console replies].
    rewrite <- app_assoc. f_equal.
    set (d' := <[p := File (written +:+ String c "")]> (disk w)).
    rewrite last_cons.
    by destruct (last (write_states d' p (written +:+ String c "") rest)).
Qed.

End DiskRuns.

Section SafeWrite.
Context `{Psi}.

(** The disk while [safe_write] fills its temporary file: after the
    temporary path was cleared, the file opened and [text] written. *)
Lemma safe_write_filling (d : fs) (tmp text : string) :
  let d2 := <[tmp := File ""]> (deleted d tmp) in
  let ws := write_states d2 tmp "" text in
  let d3 := default d2 (last ws) in
  d3 !! tmp = Some (File text) ∧
  (∀ q, within tmp q = false → d3 !! q = d !! q) ∧
  Forall (λ dd, ∀ q, within tmp q = false → dd !! q = d !! q)
         (delete_steps d tmp ++ [d2] ++ ws).
Proof.
  intros d2 ws d3.
  assert (∀ q, within tmp q = false → d2 !! q = d !! q) as Hd2.
  { intros q Hq. unfold d2. rewrite lookup_insert_ne by (symmetry; by apply outside_ne).
    by apply deleted_lookup_outside. }
  split; [|split].
  - unfold d3, ws. rewrite write_states_last; [done|]. apply lookup_insert_eq.
  - intros q Hq. unfold d3, ws.
    rewrite write_states_last_other by (by apply outside_ne). by apply Hd2.
  - apply Forall_app. split; [|apply Forall_cons; split; [done|]].
    + eapply Forall_impl; [apply delete_steps_spec|]. intros dd -> q Hq.
      by apply deleted_lookup_outside.
    + eapply Forall_impl; [apply write_states_lookup|]. intros dd [Hother _] q Hq.
      rewrite Hother by (by apply outside_ne). by apply Hd2.
Qed.

(** [safe_write]: the temporary file is filled next to the target, and
    the target changes only in the last state, by the rename, to the
    whole text of a dump that finished. *)
Lemma safe_write_run (target : string) (out : dump_outcome) (w : world) :
  ∃ r d' hs,
    safe_write target out w = (r, with_disk w d' hs) ∧
    (∀ q, within (target +:+ ".tmp") q = false → q ≠ target →
          d' !! q = disk w !! q ∧ Forall (λ dd, dd !! q = disk w !! q) hs) ∧
    match r with
    | Ok _ =>
      dump_error out = None ∧ d' !! target = Some (File (dumped out)) ∧
      d' !! (target +:+ ".tmp") = None ∧
      ∃ hs', hs = hs' ++ [d'] ∧
             Forall (λ dd, dd !! target = disk w !! target) hs'
    | Raise e =>
      d' !! target = disk w !! target ∧
      Forall (λ dd, dd !! target = disk w !! target) hs
    end ∧
    (dump_error out = None → disk w !! target ≠ Some Dir → r = Ok tt).
Proof.
  set (tmp := target +:+ ".tmp"). set (d := disk w).
  pose proof (safe_write_filling d tmp (dumped out)) as Hfill.
  cbv zeta in Hfill. destruct Hfill as (Htmp & Hd3 & Hpre).
  set (d2 := <[tmp := File ""]> (deleted d tmp)) in *.
  set (ws := write_states d2 tmp "" (dumped out)) in *.
  set (d3 := default d2 (last ws)) in *.
  pose proof (tmp_outside target) as Hout. fold tmp in Hout.
  pose proof (outside_ne _ _ Hout) as Hne.
  assert (safe_write target out w
          = match dump_error out with
            | Some e => (Raise e, with_disk w d3 (delete_steps d tmp ++ [d2] ++ ws))
            | None =>
              match d3 !! target with
              | Some Dir =>
                (Raise OSError, with_disk w d3 (delete_steps d tmp ++ [d2] ++ ws))
              | _ =>
                let d4 := <[target := File (dumped out)]> (base.delete tmp d3) in
                (Ok tt, with_disk w d4 ((delete_steps d tmp ++ [d2] ++ ws) ++ [d4]))
              end
            end) as Hrun.
  { unfold safe_write. fold tmp. unfold mbind at 1, io_bind at 1.
    rewrite delete_run. fold d. unfold with_disk. io_simpl. unfold open_w.
    rewrite deleted_lookup_self. fold d2. io_simpl.
    rewrite write_text_run. unfold with_disk. io_simpl. fold ws d3.
    destruct (dump_error out) as [e|]; io_simpl.
    - by rewrite <- !app_assoc.
    - unfold os_replace. rewrite Htmp.
      destruct (d3 !! target) as [[c|]|]; io_simpl; by rewrite <- !app_assoc. }
  assert (∀ q, Forall (λ dd : fs, ∀ q, within tmp q = false → dd !! q = d !! q)
                 (delete_steps d tmp ++ [d2] ++ ws) →
               within tmp q = false →
               Forall (λ dd : fs, dd !! q = d !! q)
                 (delete_steps d tmp ++ [d2] ++ ws)) as Hat.
  { intros q Hall Hq. eapply Forall_impl; [exact Hall|]. intros dd Hdd. by apply Hdd. }
  destruct (dump_error out) as [e|] eqn:Herr.
  { eexists _, _, _. split; [exact Hrun|]. split; [|split].
    - intros q Hq _. split; [by apply Hd3|by apply Hat].
    - split; [by apply Hd3|by apply Hat].
    - done. }
  rewrite (Hd3 target Hout) in Hrun.
  destruct (d !! target) as [[c|]|] eqn:Ht.
  2:{ eexists _, _, _. split; [exact Hrun|]. split; [|split].
      - intros q Hq _. split; [by apply Hd3|by apply Hat].
      - split; [by rewrite (Hd3 target Hout)|rewrite <- Ht; by apply Hat].
      - intros _ Hdir. done. }
  all: eexists _, _, _; (split; [exact Hrun|]); cbv zeta; (split; [|split]).
  all: try (intros _ _; done).
  all: try (intros q Hq Hqt; split;
            [ rewrite lookup_insert_ne by done;
              rewrite lookup_delete_ne by (symmetry; by apply outside_ne);
              by apply Hd3
            | apply Forall_app; split; [by apply Hat|];
              apply Forall_cons; split; [|done];
              rewrite lookup_insert_ne by done;
              rewrite lookup_delete_ne by (symmetry; by apply outside_ne);
              by apply Hd3 ]).
  all: split; [done|]; split; [apply lookup_insert_eq|]; split;
    [ rewrite lookup_insert_ne by done; apply lookup_delete_eq
    | eexists; split; [done|]; rewrite <- Ht; by apply Hat ].
Qed.

End SafeWrite.

(** ** Reasoning about computations *)

Section Hoare.
Context `{Psi}.

Lemma hoare_conseq {A} (P P' : world → Prop) (m : io A)
    (Q Q' : result A → world → Prop) :
  hoare P' m Q' → (∀ w, P w → P' w) → (∀ r w, Q' r w → Q r w) → hoare P m Q.
Proof. intros Hm HP HQ w Hw. by apply HQ, Hm, HP. Qed.

Lemma hoare_bind {A B} (P : world → Prop) (m : io A) (f : A → io B)
    (Q : result A → world → Prop) (R : result B → world → Prop) :
  hoare P m Q →
  (∀ a, hoare (Q (Ok a)) (f a) R) →
  (∀ e w, Q (Raise e) w → R (Raise e) w) →
  hoare P (m ≫= f) R.
Proof.
  intros Hm Hf He w Hw. specialize (Hm w Hw).
  unfold mbind, io_bind. destruct (m w) as [[a|e] w']; simpl in *.
  - by apply Hf.
  - by apply He.
Qed.

Lemma hoare_ret {A} (P : world → Prop) (a : A) :
  hoare P (mret a) (λ r w, r = Ok a ∧ P w).
Proof. by intros w Hw. Qed.

Lemma hoare_raise {A} (P : world → Prop) (e : exn) :
  hoare P (raise (A := A) e) (λ r w, r = Raise e ∧ P w).
Proof. by intros w Hw. Qed.

Lemma hoare_lift {A} (P : world → Prop) (x : result A) :
  hoare P (lift x) (λ r w, r = x ∧ P w).
Proof. by intros w Hw. Qed.

Lemma hoare_get_disk (P : world → Prop) :
  hoare P get_disk (λ r w, r = Ok (disk w) ∧ P w).
Proof. by intros w Hw. Qed.

Lemma hoare_try_except_else {A B} (P : world → Prop) (body : io A)
    (handles : exn → bool) (handler : exn → io B) (orelse : A → io B)
    (Q : result A → world → Prop) (R : result B → world → Prop) :
  hoare P body Q →
  (∀ a, hoare (Q (Ok a)) (orelse a) R) →
  (∀ e, handles e = true → hoare (Q (Raise e)) (handler e) R) →
  (∀ e w, handles e = false → Q (Raise e) w → R (Raise e) w) →
  hoare P (try_except_else body handles handler orelse) R.
Proof.
  intros Hbody Helse Hhandler Hpass w Hw. specialize (Hbody w Hw).
  unfold try_except_else. destruct (body w) as [[a|e] w']; simpl in *.
  - by apply Helse.
  - destruct (handles e) eqn:E; [by apply Hhandler|by apply Hpass].
Qed.

Lemma hoare_try_finally {A} (P : world → Prop) (body : io A) (final : io unit)
    (Q : result A → world → Prop) (R : result A → world → Prop) :
  hoare P body Q →
  (∀ r, hoare (Q r) final (λ r' w, r' = Ok tt ∧ R r w)) →
  hoare P (try_finally body final) R.
Proof.
  intros Hbody Hfinal w Hw. specialize (Hbody w Hw).
  unfold try_finally. destruct (body w) as [r w']; simpl in *.
  specialize (Hfinal r w' Hbody). destruct (final w') as [r' w'']; simpl in *.
  destruct Hfinal as [-> HR]. done.
Qed.

(** The logger does not touch the disk. *)

Lemma hoare_get_logger (P : world → Prop) :
  hoare P get_logger (λ r w, (∃ l, r = Ok l) ∧ P w).
Proof. intros w Hw. split; [by eexists|done]. Qed.

Lemma hoare_put_logger (P : world → Prop) (l : logger_state) :
  disk_only P → hoare P (put_logger l) (λ r w, r = Ok tt ∧ P w).
Proof. intros HP w Hw. split; [done|]. by apply (HP w). Qed.

Lemma hoare_print_console (P : world → Prop) (line : log_line) :
  disk_only P → hoare P (print_console line) (λ r w, r = Ok tt ∧ P w).
Proof. intros HP w Hw. split; [done|]. by apply (HP w). Qed.

Lemma hoare_log (P : world → Prop) lvl msg exc_info :
  disk_only P → hoare P (log lvl msg exc_info) (λ r w, r = Ok tt ∧ P w).
Proof.
  intros HP w Hw. unfold log. io_simpl.
  destruct (recording (the_logger w)), (src (the_logger w)),
    (is_true (verbose (the_logger w)));
    io_simpl; (split; [done|]); by apply (HP w).
Qed.

Lemma hoare_warn (P : world → Prop) msg exc_info :
  disk_only P → hoare P (warn msg exc_info) (λ r w, r = Ok tt ∧ P w).
Proof. apply hoare_log. Qed.

Lemma hoare_reply_to_source_context {A} (P : world → Prop) verbose_ source_
    (body : io A) (Q : result A → world → Prop) :
  disk_only P → (∀ r, disk_only (Q r)) →
  hoare P body Q →
  hoare P (reply_to_source_context verbose_ source_ body) Q.
Proof.
  intros HP HQ Hbody. unfold reply_to_source_context.
  eapply hoare_try_finally.
  - eapply hoare_bind; [apply hoare_get_logger| |by intros e w [[l Hl] _]].
    intros l. eapply hoare_bind.
    + eapply hoare_conseq; [by apply (hoare_put_logger P)| |done].
      by intros w [_ Hw].
    + intros []. eapply hoare_conseq; [exact Hbody| |done]. by intros w [_ Hw].
    + by intros e w [He _].
  - intros r. eapply hoare_bind; [apply hoare_get_logger| |by intros e w [[l Hl] _]].
    intros l. eapply hoare_conseq; [by apply (hoare_put_logger (Q r))| |done].
    by intros w [_ Hw].
Qed.

Lemma quiet_disk_only w0 p : disk_only (quiet w0 p).
Proof. intros w w' Hd Hh Hq. unfold quiet in *. by rewrite Hd, Hh. Qed.

Lemma safe_disk_only w0 p good : disk_only (safe w0 p good).
Proof. intros w w' Hd Hh Hs. unfold safe in *. by rewrite Hh. Qed.

Lemma quiet_safe w0 p good w : quiet w0 p w → safe w0 p good w.
Proof.
  intros [(hs & Hh & Hall) _]. exists hs. split; [done|].
  eapply Forall_impl; [exact Hall|]. intros dd Hdd. by left.
Qed.

Lemma quiet_refl w0 p : quiet w0 p w0.
Proof. split; [|done]. exists []. by rewrite app_nil_r. Qed.

(** A change of the disk that leaves [p] alone keeps it quiet. *)
Lemma quiet_with_disk w0 p w d' hs :
  quiet w0 p w →
  d' !! p = disk w !! p → Forall (λ dd : fs, dd !! p = disk w !! p) hs →
  quiet w0 p (with_disk w d' hs).
Proof.
  intros [(hs0 & Hh & Hall) Hp] Hd' Hhs. split.
  - exists (hs0 ++ hs). unfold with_disk. simpl. rewrite Hh, app_assoc.
    split; [done|]. apply Forall_app. split; [done|].
    eapply Forall_impl; [exact Hhs|]. intros dd Hdd. simpl in Hdd. congruence.
  - simpl. congruence.
Qed.

Lemma hoare_delete w0 p q :
  within q p = false →
  hoare (quiet w0 p) (delete q) (λ r w, r = Ok tt ∧ quiet w0 p w).
Proof.
  intros Hout w Hw. rewrite delete_run. simpl. split; [done|].
  apply quiet_with_disk; [done|by apply deleted_lookup_outside|].
  eapply Forall_impl; [apply delete_steps_spec|]. intros dd ->.
  by apply deleted_lookup_outside.
Qed.

Lemma hoare_lf_read (P : world → Prop) q :
  hoare P (lf_read q)
    (λ r w, P w ∧ r = (text ← read_text (disk w) q; Ok (normalized text))).
Proof.
  intros w Hw. unfold lf_read. io_simpl.
  destruct (read_text (disk w) q) eqn:E; simpl; by rewrite E.
Qed.

(** [safe_write] next to [p]: [p] stays quiet, and on return the target
    holds the whole dump. *)
Lemma hoare_safe_write_aside w0 p target out :
  within (target +:+ ".tmp") p = false → p ≠ target →
  hoare (quiet w0 p) (safe_write target out)
    (λ r w, quiet w0 p w ∧
            (r = Ok tt → dump_error out = None ∧
                         disk w !! target = Some (File (dumped out)))).
Proof.
  intros Hout Hne w Hw.
  destruct (safe_write_run target out w) as (r & d' & hs & -> & Hframe & Hr & _).
  destruct (Hframe p Hout Hne) as [Hd' Hhs]. simpl. split.
  - by apply quiet_with_disk.
  - intros ->. by destruct Hr as (? & ? & _).
Qed.

(** [safe_write] onto [p] itself: [p] changes once, to the whole dump. *)
Lemma hoare_safe_write_onto w0 p out (good : string → Prop) :
  (dump_error out = None → good (dumped out)) →
  hoare (quiet w0 p) (safe_write p out) (λ r w, safe w0 p good w).
Proof.
  intros Hgood w [(hs0 & Hh & Hall) Hp].
  destruct (safe_write_run p out w) as (r & d' & hs & -> & _ & Hr & _).
  simpl. unfold safe, with_disk. simpl. exists (hs0 ++ hs).
  rewrite Hh, app_assoc. split; [done|]. apply Forall_app. split.
  { eapply Forall_impl; [exact Hall|]. intros dd Hdd. by left. }
  destruct r as [[]|e].
  - destruct Hr as (Herr & Hd' & _ & hs' & -> & Hhs').
    apply Forall_app. split.
    + eapply Forall_impl; [exact Hhs'|]. intros dd Hdd. simpl in Hdd. left. congruence.
    + apply Forall_cons. split; [|done]. right. exists (dumped out). eauto.
  - destruct Hr as [_ Hhs]. eapply Forall_impl; [exact Hhs|].
    intros dd Hdd. simpl in Hdd. left. congruence.
Qed.

End Hoare.

(** ** Saving *)

Section Save.
Context `{HH : Host} `{!Yaml} `{!ConfigClass} `{!Psi}.
Context (no_args : targs).

Lemma hoare_pure {A} (P : world → Prop) (φ : Prop) (m : io A)
    (Q : result A → world → Prop) :
  (φ → hoare P m Q) → hoare (λ w, P w ∧ φ) m Q.
Proof. intros Hm w [Hw Hφ]. by apply Hm. Qed.

Lemma hoare_get_template (P : world → Prop) (self : configuration) :
  disk_only P →
  hoare P (get_template self) (λ r w, r = Ok (template_of self) ∧ P w).
Proof.
  intros HP w Hw. unfold get_template, template_of. io_simpl.
  destruct (open_bundled_file (bundled_template_path self)) as [text|e]; simpl.
  - destruct (yaml_rt_load text) as [f|e]; simpl; [done|].
    split; [done|]. by apply (HP w).
  - split; [done|]. by apply (HP w).
Qed.

(** The document [save] merges into is the one found at the destination
    before anything was written. *)
Lemma hoare_merge_base w0 p (self : configuration) (d : fs) :
  hoare (λ w, Ok d = Ok (disk w) ∧ quiet w0 p w)
    (if isfile d p
     then text ← lf_read p; lift (yaml_rt_load text)
     else get_template self)
    (λ r w, quiet w0 p w ∧ r = merge_base self (disk w0 !! p)).
Proof.
  intros w [Hd Hw]. injection Hd as ->. pose proof Hw as [_ Hp].
  unfold isfile, merge_base.
  rewrite <- Hp. destruct (disk w !! p) as [[text|]|] eqn:E.
  - unfold lf_read, read_text. io_simpl. rewrite E. io_simpl. done.
  - destruct (hoare_get_template (quiet w0 p) self (quiet_disk_only _ _) w Hw)
      as [-> Hq].
    done.
  - destruct (hoare_get_template (quiet w0 p) self (quiet_disk_only _ _) w Hw)
      as [-> Hq].
    done.
Qed.

(** The rename of the validated temporary file onto [p]. *)
Lemma hoare_replace_onto w0 p temp text (good : string → Prop) :
  good text →
  hoare (λ w, quiet w0 p w ∧ disk w !! temp = Some (File text))
    (d ← get_disk; d' ← lift (os_replace d temp p); put_disk d')
    (λ r w, safe w0 p good w).
Proof.
  intros Hgood w [Hq Htemp]. io_simpl. unfold os_replace. rewrite Htemp.
  destruct (disk w !! p) as [[c|]|] eqn:E; io_simpl;
    try (by apply quiet_safe).
  all: destruct Hq as [(hs & Hh & Hall) _]; exists (hs ++ [<[p:=File text]> (base.delete temp (disk w))]).
  all: rewrite Hh, app_assoc; split; [done|]; apply Forall_app; split;
    [ eapply Forall_impl; [exact Hall|]; intros dd Hdd; by left
    | apply Forall_cons; split; [|done]; right; exists text; split; [done|];
      apply lookup_insert_eq ].
Qed.

(** The fallback of [_save]: the plain dump goes through [safe_write]
    onto the destination; the recursive reference is not used. *)
Lemma hoare_save_fallback w0 p (self : configuration) print_to_console
    source_to_reply (again : bool → io unit) :
  hoare (quiet w0 p)
    (_save_body no_args self p print_to_console source_to_reply again true)
    (λ r w, safe w0 p (complete_dump self (disk w0 !! p)) w).
Proof.
  unfold _save_body.
  apply hoare_reply_to_source_context;
    [apply quiet_disk_only|intros r; apply safe_disk_only|].
  eapply hoare_bind; [apply hoare_get_disk| |].
  2:{ intros e w [He _]. done. }
  intros d. eapply hoare_bind with (Q := λ r w, r = Ok tt ∧ quiet w0 p w).
  - intros w [_ Hw]. destruct (path_exists d (config_temp_path_of p)).
    + by apply (hoare_delete _ _ _ (config_temp_outside p)).
    + done.
  - intros [].
    eapply hoare_bind
      with (Q := λ r w, safe w0 p (complete_dump self (disk w0 !! p)) w).
    + eapply hoare_conseq;
        [apply (hoare_safe_write_onto w0 p _ (complete_dump self (disk w0 !! p)))
        |by intros w [_ Hw]|by intros r w Hw].
      intros Herr. right. done.
    + intros []. eapply hoare_conseq;
        [apply hoare_warn, safe_disk_only|done|by intros r w [_ Hw]].
    + done.
  - intros e w [He _]. done.
Qed.

(** The formatted attempt of [_save], over any [again] that keeps the
    destination safe. *)
Lemma hoare_save_formatted w0 p (self : configuration) print_to_console
    source_to_reply (again : bool → io unit) :
  hoare (quiet w0 p) (again true)
    (λ r w, safe w0 p (complete_dump self (disk w0 !! p)) w) →
  hoare (quiet w0 p)
    (_save_body no_args self p print_to_console source_to_reply again false)
    (λ r w, safe w0 p (complete_dump self (disk w0 !! p)) w).
Proof.
  intros Hagain. unfold _save_body.
  set (good := complete_dump self (disk w0 !! p)).
  set (temp := config_temp_path_of p).
  apply hoare_reply_to_source_context;
    [apply quiet_disk_only|intros r; apply safe_disk_only|].
  eapply hoare_bind; [apply hoare_get_disk| |by intros e w [He _]].
  intros d. eapply hoare_bind with (Q := λ r w, r = Ok tt ∧ quiet w0 p w).
  { intros w [_ Hw]. destruct (path_exists d temp).
    - by apply (hoare_delete _ _ _ (config_temp_outside p)).
    - done. }
  2:{ by intros e w [He _]. }
  intros []. cbv zeta.
  eapply hoare_conseq with (P' := quiet w0 p);
    [|by intros w [_ Hw]|intros r w Hw; exact Hw].
  eapply hoare_bind; [apply hoare_get_disk| |by intros e w [He _]].
  intros d1.
  eapply hoare_bind; [apply hoare_merge_base| |].
  2:{ intros e w [Hq _]. by apply quiet_safe. }
  intros base. apply hoare_pure. intros Hbase.
  eapply hoare_bind; [apply hoare_lift| |].
  2:{ intros e w [_ Hq]. by apply quiet_safe. }
  intros formatted_config.
  eapply hoare_conseq with
    (P' := λ w, quiet w0 p w ∧
                Ok formatted_config = overlay base (inst_serialize (fields self)));
    [|by intros w [? ?]|intros r w Hw; exact Hw].
  apply hoare_pure. intros Hoverlay.
  set (out := yaml_rt_dump formatted_config).
  assert (dump_error out = None → good (dumped out)) as Hgood.
  { intros Herr. left. exists out. split; [|done].
    unfold formatted_dump. rewrite <- Hbase. simpl. rewrite <- Hoverlay. done. }
  eapply hoare_bind;
    [apply (hoare_safe_write_aside w0 p temp out);
     [apply config_temp_tmp_outside|apply outside_ne, config_temp_outside]| |].
  2:{ intros e w [Hq _]. by apply quiet_safe. }
  intros [].
  eapply hoare_conseq with
    (P' := λ w, (quiet w0 p w ∧ disk w !! temp = Some (File (dumped out))) ∧
                dump_error out = None);
    [|intros w [Hq Hok]; by destruct (Hok eq_refl)|intros r w Hw; exact Hw].
  apply hoare_pure. intros Herr.
  eapply hoare_try_except_else with
    (Q := λ r w, quiet w0 p w ∧ disk w !! temp = Some (File (dumped out))).
  - eapply hoare_bind; [apply hoare_lf_read| |by intros e w [Hw _]].
    intros text. eapply hoare_bind; [apply hoare_lift| |by intros e w [_ [Hw _]]].
    intros data w (_ & Hw & _). exact Hw.
  - intros _. by apply hoare_replace_onto, Hgood.
  - intros e He.
    eapply hoare_conseq with (P' := quiet w0 p);
      [|by intros w [Hw _]|intros r w Hw; exact Hw].
    eapply hoare_bind; [apply hoare_warn, quiet_disk_only| |by intros e' w [He' _]].
    intros [].
    eapply hoare_conseq with (P' := quiet w0 p);
      [|by intros w [_ Hw]|intros r w Hw; exact Hw].
    eapply hoare_bind; [apply hoare_warn, quiet_disk_only| |by intros e' w [He' _]].
    intros [].
    eapply hoare_conseq; [exact Hagain|by intros w [_ Hw]|done].
  - intros e w He [Hq _]. by apply quiet_safe.
Qed.

(** The recursion of [_save] stops at the fallback: unfolding it further
    than twice changes nothing. *)
Lemma _save_depth (depth : nat) (self : configuration) p print_to_console
    source_to_reply safe_dump :
  _save no_args (S (S depth)) self p print_to_console source_to_reply safe_dump
  = _save no_args 2 self p print_to_console source_to_reply safe_dump.
Proof. destruct safe_dump; reflexivity. Qed.

Lemma hoare_save_inner w0 p (self : configuration) print_to_console
    source_to_reply :
  hoare (quiet w0 p)
    (_save no_args 2 self p print_to_console source_to_reply false)
    (λ r w, safe w0 p (complete_dump self (disk w0 !! p)) w).
Proof.
  cbn [_save]. apply hoare_save_formatted, hoare_save_fallback.
Qed.


Lemma rmtree_lookup_self (d : fs) (p : string) : rmtree d p !! p = None.
Proof.
  apply map_lookup_filter_None. right. intros x _. simpl. unfold within.
  by rewrite String.eqb_refl.
Qed.

Lemma complete_dump_dir (self : configuration) (text : string) :
  complete_dump self None text → complete_dump self (Some Dir) text.
Proof. done. Qed.

(** C8, as the code has it.  Through every state the disk goes through
    during [save], whether it returns or raises, the destination holds
    what it held before, or nothing if it was a directory (which [save]
    removes first), or the whole text of a finished dump of the
    configuration; never a part of a text. *)
Theorem save_never_exposes_partial_file (self : configuration) (p : string)
    (print_to_console : bool) (source_to_reply : option source) (w : world) :
  file_path self = Some p →
  ∃ hs,
    history (save no_args self print_to_console source_to_reply w).2
    = history w ++ hs ∧
    Forall (λ dd : fs,
              dd !! p = disk w !! p ∨
              (disk w !! p = Some Dir ∧ dd !! p = None) ∨
              ∃ text, complete_dump self (disk w !! p) text ∧
                      dd !! p = Some (File text)) hs.
Proof.
  intros Hpath. unfold save. rewrite Hpath.
  unfold mbind at 1, io_bind at 1. io_simpl. unfold isdir.
  destruct (disk w !! p) as [[content|]|] eqn:E.
  1,3: io_simpl;
    destruct (hoare_save_inner w p self print_to_console source_to_reply w
                (quiet_refl w p)) as (hs & Hh & Hall);
    exists hs; (split; [done|]);
    eapply Forall_impl; [exact Hall|];
    intros dd [Hdd|(text & Hgood & Hdd)];
    [left; congruence|right; right; exists text; by rewrite E in Hgood].
  change {| disk := rmtree (disk w) p;
            history := history w ++ [rmtree (disk w) p];
            the_logger := the_logger w; console := console w;
            replies := replies w |}
    with (with_disk w (rmtree (disk w) p) [rmtree (disk w) p]).
  set (w1 := with_disk w (rmtree (disk w) p) [rmtree (disk w) p]).
  destruct (hoare_save_inner w1 p self print_to_console source_to_reply w1
              (quiet_refl w1 p)) as (hs & Hh & Hall).
  exists (rmtree (disk w) p :: hs). split.
  { rewrite Hh. unfold w1, with_disk. simpl. by rewrite <- app_assoc. }
  assert (disk w1 !! p = None) as Hnone by apply rmtree_lookup_self.
  apply Forall_cons. split; [right; left; by split|].
  eapply Forall_impl; [exact Hall|].
  intros dd [Hdd|(text & Hgood & Hdd)].
  - right. left. split; [done|]. congruence.
  - right. right. exists text. split; [|done].
    apply complete_dump_dir. by rewrite <- Hnone.
Qed.

(** *** What a run leaves in the logger, on the console and in the replies *)

Lemma log_run lvl msg exc_info (w : world) :
  log lvl msg exc_info w = (Ok tt, after_log lvl msg exc_info w).
Proof.
  unfold after_log, log. io_simpl.
  destruct (recording (the_logger w)), (src (the_logger w)),
    (is_true (verbose (the_logger w))); reflexivity.
Qed.

Lemma warn_run msg exc_info (w : world) :
  warn msg exc_info w = (Ok tt, after_log WARNING (set_color msg yellow) exc_info w).
Proof. apply log_run. Qed.

Lemma after_log_disk lvl msg exc_info (w : world) :
  disk (after_log lvl msg exc_info w) = disk w.
Proof.
  unfold after_log, log. io_simpl.
  destruct (recording (the_logger w)), (src (the_logger w)),
    (is_true (verbose (the_logger w))); reflexivity.
Qed.

Lemma after_log_flags lvl msg exc_info (w : world) :
  verbose (the_logger (after_log lvl msg exc_info w)) = verbose (the_logger w) ∧
  cached_verbose (the_logger (after_log lvl msg exc_info w))
  = cached_verbose (the_logger w) ∧
  src (the_logger (after_log lvl msg exc_info w)) = src (the_logger w) ∧
  recording (the_logger (after_log lvl msg exc_info w)) = recording (the_logger w).
Proof.
  unfold after_log, log. io_simpl.
  destruct (recording (the_logger w)) eqn:Er, (src (the_logger w)) eqn:Es,
    (is_true (verbose (the_logger w))); simpl; by rewrite ?Er, ?Es.
Qed.

Lemma after_log_record lvl msg exc_info (w : world) :
  log_record (the_logger (after_log lvl msg exc_info w))
  = log_record (the_logger w) ++ (if recording (the_logger w) then [msg] else []).
Proof.
  unfold after_log, log. io_simpl.
  destruct (recording (the_logger w)) eqn:Er, (src (the_logger w)) eqn:Es,
    (is_true (verbose (the_logger w))) eqn:Ev; simpl;
    by rewrite ?Er, ?Es, ?Ev, ?app_nil_r.
Qed.

Lemma after_log_console lvl msg exc_info (w : world) :
  console (after_log lvl msg exc_info w)
  = console w ++
    (if is_true (verbose (the_logger w))
     then [{| line_level := lvl; line_msg := msg; line_exc := exc_info |}]
     else []).
Proof.
  unfold after_log, log. io_simpl.
  destruct (recording (the_logger w)) eqn:Er, (src (the_logger w)) eqn:Es,
    (is_true (verbose (the_logger w))) eqn:Ev; simpl;
    by rewrite ?Er, ?Es, ?Ev, ?app_nil_r.
Qed.

Lemma after_log_replies lvl msg exc_info (w : world) :
  replies (after_log lvl msg exc_info w)
  = replies w ++
    (match src (the_logger w) with Some s => [(s, msg)] | None => [] end).
Proof.
  unfold after_log, log. io_simpl.
  destruct (recording (the_logger w)) eqn:Er, (src (the_logger w)) eqn:Es,
    (is_true (verbose (the_logger w))) eqn:Ev; simpl;
    by rewrite ?Er, ?Es, ?Ev, ?app_nil_r.
Qed.

Lemma context_run {A} verbose_ source_ (body : io A) (w w' : world) r :
  body (with_logger w (entered verbose_ source_ (the_logger w))) = (r, w') →
  reply_to_source_context verbose_ source_ body w
  = (r, with_logger w' (exited (the_logger w'))).
Proof.
  intros Hbody. unfold reply_to_source_context. io_simpl.
  change {| disk := disk w; history := history w;
            the_logger :=
              {| verbose := Some verbose_; cached_verbose := verbose (the_logger w);
                 src := source_; recording := recording (the_logger w);
                 log_record := log_record (the_logger w) |};
            console := console w; replies := replies w |}
    with (with_logger w (entered verbose_ source_ (the_logger w))).
  by rewrite Hbody.
Qed.

Lemma bind_ok {A B} (m : io A) (f : A → io B) (w w' : world) a :
  m w = (Ok a, w') → (m ≫= f) w = f a w'.
Proof. intros Hm. unfold mbind, io_bind. by rewrite Hm. Qed.

Lemma get_template_run (self : configuration) (w : world) :
  get_template self w = (Ok (template_of self), with_console w (template_lines self)).
Proof.
  unfold get_template, template_of, template_lines. io_simpl.
  destruct (open_bundled_file (bundled_template_path self)) as [text|e]; simpl.
  - destruct (yaml_rt_load text) as [f|e]; simpl; [|done].
    unfold with_console. destruct w. simpl. by rewrite app_nil_r.
  - done.
Qed.

(** The fallback, run where the destination is not a directory and the
    plain dump succeeds. *)
Lemma save_fallback_run (self : configuration) (p : string)
    (print_to_console : bool) (source_to_reply : option source)
    (again : bool → io unit) (w : world) :
  disk w !! p ≠ Some Dir →
  dump_error (plain_dump self) = None →
  ∃ d' hs,
    _save_body no_args self p print_to_console source_to_reply again true w
    = (Ok tt,
       let inside :=
         after_log WARNING
           (set_color (tr no_args "Validation during config file saving failed, saved without original format") yellow)
           None
           (with_disk
              (with_logger w (entered print_to_console source_to_reply (the_logger w)))
              d' hs) in
       with_logger inside (exited (the_logger inside))) ∧
    d' !! p = Some (File (dumped (plain_dump self))).
Proof.
  intros Hdir Hplain. unfold _save_body.
  set (temp := config_temp_path_of p).
  set (w1 := with_logger w (entered print_to_console source_to_reply (the_logger w))).
  assert ((if path_exists (disk w1) temp then delete temp else mret tt) w1
          = (Ok tt, with_disk w1 (deleted (disk w1) temp) (delete_steps (disk w1) temp)))
    as Hdel.
  { unfold path_exists. destruct (disk w1 !! temp) as [n|] eqn:E.
    - apply delete_run.
    - unfold deleted, delete_steps, isfile, isdir, orb. rewrite E. cbv beta iota.
      by rewrite with_disk_nil. }
  set (w2 := with_disk w1 (deleted (disk w1) temp) (delete_steps (disk w1) temp)) in *.
  destruct (safe_write_run p (plain_dump self) w2)
    as (r & d' & hs & Hrun & _ & Hr & Hok).
  assert (r = Ok tt) as ->.
  { apply Hok; [done|]. unfold w2, w1. simpl.
    by rewrite deleted_lookup_outside by apply config_temp_outside. }
  destruct Hr as (_ & Hp & _).
  exists d', (delete_steps (disk w1) temp ++ hs). split; [|done].
  erewrite context_run; [reflexivity|].
  fold w1. erewrite bind_ok; [|reflexivity]. cbn [disk].
  erewrite bind_ok; [|exact Hdel]. cbv zeta.
  erewrite bind_ok; [|exact Hrun].
  rewrite warn_run. unfold w2. by rewrite with_disk_with_disk.
Qed.

Lemma with_console_nil (w : world) : with_console w [] = w.
Proof. destruct w. unfold with_console. simpl. by rewrite app_nil_r. Qed.

Lemma lf_read_run (q text : string) (w : world) :
  disk w !! q = Some (File text) → lf_read q w = (Ok (normalized text), w).
Proof. intros Hq. unfold lf_read, read_text. io_simpl. by rewrite Hq. Qed.

(** The formatted attempt, run up to the round trip on the text just
    written: the temporary file holds the whole dump, the destination
    is as it was, and what follows is the round trip and its handlers. *)
Lemma save_formatted_written (self : configuration) (p : string)
    (print_to_console : bool) (source_to_reply : option source)
    (again : bool → io unit) (w : world) base formatted_config :
  merge_base self (disk w !! p) = Ok base →
  overlay base (inst_serialize (fields self)) = Ok formatted_config →
  dump_error (yaml_rt_dump formatted_config) = None →
  ∃ d' hs,
    d' !! p = disk w !! p ∧
    d' !! config_temp_path_of p
    = Some (File (dumped (yaml_rt_dump formatted_config))) ∧
    ∀ r w',
      try_except_else
        (text ← lf_read (config_temp_path_of p);
         data ← lift (yaml_safe_load text);
         lift (cls_deserialize data))
        is_value_or_type_error
        (λ e,
           warn (tr no_args "Attempting saving config with original file format due to validation failure while attempting saving config and keep local config file format") (Some e) ;;
           warn (tr no_args "There may be mistakes in original config file format, please contact plugin maintainer") None ;;
           again true)
        (λ _, d ← get_disk;
              d' ← lift (os_replace d (config_temp_path_of p) p);
              put_disk d')
        (with_disk
           (with_console
              (with_logger w
                 (entered print_to_console source_to_reply (the_logger w)))
              (if isfile (disk w) p then [] else template_lines self))
           d' hs)
      = (r, w') →
      _save_body no_args self p print_to_console source_to_reply again false w
      = (r, with_logger w' (exited (the_logger w'))).
Proof.
  intros Hbase Hoverlay Hdump. unfold _save_body.
  set (temp := config_temp_path_of p).
  set (out := yaml_rt_dump formatted_config) in *.
  set (w1 := with_logger w (entered print_to_console source_to_reply (the_logger w))).
  set (lines := if isfile (disk w) p then [] else template_lines self).
  assert ((if path_exists (disk w1) temp then delete temp else mret tt) w1
          = (Ok tt, with_disk w1 (deleted (disk w1) temp) (delete_steps (disk w1) temp)))
    as Hdel.
  { unfold path_exists. destruct (disk w1 !! temp) as [n|] eqn:E.
    - apply delete_run.
    - unfold deleted, delete_steps, isfile, isdir, orb. rewrite E. cbv beta iota.
      by rewrite with_disk_nil. }
  set (dA := deleted (disk w1) temp) in *.
  set (hsA := delete_steps (disk w1) temp) in *.
  set (w2 := with_disk w1 dA hsA) in *.
  assert (dA !! p = disk w !! p) as HpA.
  { unfold dA. by rewrite deleted_lookup_outside by apply config_temp_outside. }
  assert ((if isfile (disk w2) p
           then text ← lf_read p; lift (yaml_rt_load text)
           else get_template self) w2
          = (Ok base, with_console w2 lines)) as Hload.
  { unfold lines, isfile, merge_base in *. cbn [disk w2 with_disk]. rewrite HpA.
    destruct (disk w !! p) as [[text|]|] eqn:E.
    - erewrite bind_ok; [|apply lf_read_run; cbn [disk w2 with_disk]; by rewrite HpA].
      unfold lift. by rewrite Hbase, with_console_nil.
    - rewrite get_template_run. by simplify_eq.
    - rewrite get_template_run. by simplify_eq. }
  set (w3 := with_console w2 lines) in *.
  destruct (safe_write_run temp out w3) as (r4 & d4 & hs4 & Hrun & Hframe & Hr & Hok).
  assert (r4 = Ok tt) as ->.
  { apply Hok; [done|]. unfold w3, w2. cbn [disk with_console with_disk].
    unfold dA. by rewrite deleted_lookup_self. }
  destruct Hr as (_ & Htemp & _).
  destruct (Hframe p (config_temp_tmp_outside p)
              (outside_ne _ _ (config_temp_outside p))) as [Hp4 _].
  cbn [disk w3 w2 with_console with_disk] in Hp4.
  exists d4, (hsA ++ hs4). split; [congruence|]. split; [done|].
  intros r w' Hrest.
  erewrite context_run; [reflexivity|].
  fold w1. erewrite bind_ok; [|reflexivity]. cbn [disk].
  erewrite bind_ok; [|exact Hdel]. cbv zeta.
  erewrite bind_ok; [|reflexivity].
  erewrite bind_ok; [|exact Hload].
  erewrite bind_ok; [|unfold lift; by rewrite Hoverlay].
  erewrite bind_ok; [|exact Hrun].
  rewrite <- Hrest. f_equal.
  unfold w3, w2. unfold with_disk, with_console. simpl. by rewrite <- app_assoc.
Qed.

(** The round trip [save] makes on the temporary file. *)
Lemma validation_run (temp text : string) (w : world) :
  disk w !! temp = Some (File text) →
  (text ← lf_read temp; data ← lift (yaml_safe_load text);
   lift (cls_deserialize data)) w
  = (validate text, w).
Proof.
  intros Htemp. erewrite bind_ok; [|by apply lf_read_run].
  unfold validate, lift, mbind, io_bind.
  by destruct (yaml_safe_load (normalized text)).
Qed.

(** The formatted attempt where the round trip fails with a [TypeError]
    or a [ValueError]: two warnings, then the fallback. *)
Lemma save_formatted_run (self : configuration) (p : string)
    (print_to_console : bool) (source_to_reply : option source)
    (again : bool → io unit) (w : world) base formatted_config e :
  merge_base self (disk w !! p) = Ok base →
  overlay base (inst_serialize (fields self)) = Ok formatted_config →
  dump_error (yaml_rt_dump formatted_config) = None →
  validate (dumped (yaml_rt_dump formatted_config)) = Raise e →
  is_value_or_type_error e = true →
  ∃ d' hs,
    d' !! p = disk w !! p ∧
    ∀ r w',
      again true
        (after_log WARNING
           (set_color (tr no_args "There may be mistakes in original config file format, please contact plugin maintainer") yellow)
           None
           (after_log WARNING
              (set_color (tr no_args "Attempting saving config with original file format due to validation failure while attempting saving config and keep local config file format") yellow)
              (Some e)
              (with_disk
                 (with_console
                    (with_logger w
                       (entered print_to_console source_to_reply (the_logger w)))
                    (if isfile (disk w) p then [] else template_lines self))
                 d' hs)))
      = (r, w') →
      _save_body no_args self p print_to_console source_to_reply again false w
      = (r, with_logger w' (exited (the_logger w'))).
Proof.
  intros Hbase Hoverlay Hdump Hval He.
  destruct (save_formatted_written self p print_to_console source_to_reply again w
              base formatted_config Hbase Hoverlay Hdump)
    as (d' & hs & Hp & Htemp & Hrest).
  exists d', hs. split; [done|]. intros r w' Hagain. apply Hrest.
  unfold try_except_else. erewrite validation_run by exact Htemp. rewrite Hval, He.
  erewrite bind_ok; [|apply warn_run].
  erewrite bind_ok; [|apply warn_run].
  exact Hagain.
Qed.

(** The formatted attempt where the round trip fails with anything else,
    a parser error for one: the exception leaves [save], nothing is
    logged, and the destination is as it was; there is no fallback. *)
Lemma save_formatted_propagates (self : configuration) (p : string)
    (print_to_console : bool) (source_to_reply : option source)
    (again : bool → io unit) (w : world) base formatted_config e :
  merge_base self (disk w !! p) = Ok base →
  overlay base (inst_serialize (fields self)) = Ok formatted_config →
  dump_error (yaml_rt_dump formatted_config) = None →
  validate (dumped (yaml_rt_dump formatted_config)) = Raise e →
  is_value_or_type_error e = false →
  let run :=
    _save_body no_args self p print_to_console source_to_reply again false w in
  run.1 = Raise e ∧
  disk run.2 !! p = disk w !! p ∧
  replies run.2 = replies w ∧
  log_record (the_logger run.2) = log_record (the_logger w).
Proof.
  intros Hbase Hoverlay Hdump Hval He run.
  destruct (save_formatted_written self p print_to_console source_to_reply again w
              base formatted_config Hbase Hoverlay Hdump)
    as (d' & hs & Hp & Htemp & Hrest).
  subst run. erewrite Hrest.
  2:{ unfold try_except_else. erewrite validation_run by exact Htemp. rewrite Hval, He.
      reflexivity. }
  done.
Qed.

Lemma after_log_verbose lvl msg exc_info (w : world) :
  verbose (the_logger (after_log lvl msg exc_info w)) = verbose (the_logger w).
Proof. apply after_log_flags. Qed.

Lemma after_log_src lvl msg exc_info (w : world) :
  src (the_logger (after_log lvl msg exc_info w)) = src (the_logger w).
Proof. apply after_log_flags. Qed.

Lemma after_log_recording lvl msg exc_info (w : world) :
  recording (the_logger (after_log lvl msg exc_info w)) = recording (the_logger w).
Proof. apply after_log_flags. Qed.

(** C7, as the code has it.  When the text written by the formatted
    attempt does not pass the round trip, with a [TypeError] or a
    [ValueError], and the plain dump succeeds, [save] returns; the
    destination holds the plain dump, written through [safe_write]; three
    warnings went through the logger, two when the failure was caught and
    one from the fallback; and the fallback is the end of the recursion:
    unfolding [_save] further changes nothing. *)
Theorem save_validation_failure_falls_back (self : configuration) (p : string)
    (print_to_console : bool) (source_to_reply : option source) (w : world)
    (base formatted_config : fdoc) (e : exn) :
  file_path self = Some p →
  merge_base self (disk w !! p) = Ok base →
  overlay base (inst_serialize (fields self)) = Ok formatted_config →
  dump_error (yaml_rt_dump formatted_config) = None →
  validate (dumped (yaml_rt_dump formatted_config)) = Raise e →
  is_value_or_type_error e = true →
  dump_error (plain_dump self) = None →
  let run := save no_args self print_to_console source_to_reply w in
  let warnings :=
    [warning_validation_failed no_args; warning_contact_maintainer no_args;
     warning_saved_plain no_args] in
  run.1 = Ok tt ∧
  disk run.2 !! p = Some (File (dumped (plain_dump self))) ∧
  replies run.2
  = replies w ++
    match source_to_reply with
    | Some s => (λ msg, (s, msg)) <$> warnings
    | None => []
    end ∧
  console run.2
  = console w ++
    (if isfile (disk w) p then [] else template_lines self) ++
    (if print_to_console
     then [warning_line (warning_validation_failed no_args) (Some e);
           warning_line (warning_contact_maintainer no_args) None;
           warning_line (warning_saved_plain no_args) None]
     else []) ∧
  log_record (the_logger run.2)
  = log_record (the_logger w) ++
    (if recording (the_logger w) then warnings else []) ∧
  ∀ depth safe_dump,
    _save no_args (S (S depth)) self p print_to_console source_to_reply safe_dump
    = _save no_args 2 self p print_to_console source_to_reply safe_dump.
Proof.
  intros Hpath Hbase Hoverlay Hdump Hval He Hplain run warnings.
  assert (∃ w1 : world,
            run = _save no_args 2 self p print_to_console source_to_reply false w1 ∧
            disk w1 !! p ≠ Some Dir ∧
            merge_base self (disk w1 !! p) = Ok base ∧
            isfile (disk w1) p = isfile (disk w) p ∧
            the_logger w1 = the_logger w ∧ console w1 = console w ∧
            replies w1 = replies w) as (w1 & Hrun & Hdir & Hbase1 & Hfile & Hl & Hc & Hr).
  { subst run. unfold save. rewrite Hpath.
    erewrite bind_ok; [|reflexivity]. unfold isdir, isfile.
    destruct (disk w !! p) as [[content|]|] eqn:E.
    - exists w. rewrite E. done.
    - exists (with_disk w (rmtree (disk w) p) [rmtree (disk w) p]).
      erewrite bind_ok; [|apply put_disk_run]. cbn [disk with_disk].
      rewrite rmtree_lookup_self. done.
    - exists w. rewrite E. done. }
  rewrite Hrun. clear Hrun run.
  change (_save no_args 2 self p print_to_console source_to_reply false w1)
    with (_save_body no_args self p print_to_console source_to_reply
            (_save no_args 1 self p print_to_console source_to_reply) false w1).
  destruct (save_formatted_run self p print_to_console source_to_reply
              (_save no_args 1 self p print_to_console source_to_reply)
              w1 base formatted_config e Hbase1 Hoverlay Hdump Hval He)
    as (d' & hs & Hp & Hrun).
  match type of Hrun with
  | ∀ r w', _ ?W = _ → _ => set (w2 := W) in *
  end.
  destruct (save_fallback_run self p print_to_console source_to_reply
              (_save no_args 0 self p print_to_console source_to_reply) w2)
    as (d'' & hs' & Hfallback & Hp'); [|done|].
  { unfold w2. rewrite !after_log_disk. cbn [disk with_disk]. congruence. }
  change (_save_body no_args self p print_to_console source_to_reply
            (_save no_args 0 self p print_to_console source_to_reply) true w2)
    with (_save no_args 1 self p print_to_console source_to_reply true w2)
    in Hfallback.
  rewrite (Hrun _ _ Hfallback). clear Hrun Hfallback. cbn [fst snd].
  assert (src (the_logger w2) = source_to_reply ∧
          verbose (the_logger w2) = Some print_to_console ∧
          recording (the_logger w2) = recording (the_logger w)) as (Hsrc & Hverb & Hrec).
  { unfold w2. rewrite !after_log_src, !after_log_verbose, !after_log_recording.
    cbn [the_logger with_disk with_console with_logger entered src verbose recording].
    by rewrite Hl. }
  split; [done|]. split; [|split; [|split; [|split]]].
  - cbv zeta. cbn [disk with_logger]. rewrite after_log_disk. done.
  - cbv zeta. cbn [replies with_logger]. rewrite after_log_replies.
    cbn [replies the_logger with_disk with_logger entered src].
    rewrite ?Hsrc. unfold w2. rewrite !after_log_replies, ?after_log_src.
    cbn [replies the_logger with_disk with_console with_logger entered src].
    rewrite Hr. destruct source_to_reply; simpl; by rewrite <- ?app_assoc, ?app_nil_r.
  - cbv zeta. cbn [console with_logger]. rewrite after_log_console.
    cbn [console the_logger with_disk with_logger entered verbose].
    rewrite ?Hverb. unfold w2. rewrite !after_log_console, ?after_log_verbose.
    cbn [console the_logger with_disk with_console with_logger entered verbose].
    rewrite Hc, Hfile.
    destruct print_to_console; simpl; by rewrite <- ?app_assoc, ?app_nil_r.
  - cbv zeta. cbn [the_logger with_logger exited log_record].
    rewrite after_log_record.
    cbn [the_logger with_disk with_logger entered recording log_record].
    rewrite ?Hrec. unfold w2. rewrite !after_log_record, ?after_log_recording.
    cbn [the_logger with_disk with_console with_logger entered recording log_record].
    rewrite Hl. destruct (recording (the_logger w)); simpl;
      by rewrite <- ?app_assoc, ?app_nil_r.
  - intros depth safe_dump. apply _save_depth.
Qed.

End Save.

(** ** Loading a file that cannot be read or parsed *)

Section LoadRecovery.
Context `{HH : Host} `{!Yaml} `{!ConfigClass} `{!Psi}.
Context (no_args : targs).


End LoadRecovery.

(** A file that is not YAML, with the class [a: int = 5]: [load] returns
    the default configuration, and the path holds its dump. *)
Lemma load_replaces_unparsable_file :
  let run := @load py_host mini_yaml config_a bare_psi tt "config.yml" None true
               true None (world_with "config/my_plugin/config.yml" "{") in
  (fields <$> (match run.1 with Ok c => Some c | Raise _ => None end)
   = Some ([("a", VInt 5)] : dict Empty_set)) ∧
  disk run.2 !! "config/my_plugin/config.yml"
  = Some (File (String.append "a: 5" (String LF ""))).
Proof. vm_compute. by split. Qed.

(** ** Saving, on the worked scenarios *)

(** C7 as stated fails on the number of warnings: saving the default
    instance of [a: bool = 5] where no file exists, the round trip of
    ["a: 5"] raises [TypeError], the fallback writes the plain dump, and
    the command source receives three warnings, not two. *)
Lemma save_fallback_logs_three_warnings :
  let run := @save py_host mini_yaml config_defect bare_psi tt defect_instance
               true (Some "steve") empty_world in
  run.1 = Ok tt ∧
  disk run.2 !! "config.yml" = Some (File (String.append "a: 5" (String LF ""))) ∧
  replies run.2
  = [("steve", @warning_validation_failed bare_psi tt);
     ("steve", @warning_contact_maintainer bare_psi tt);
     ("steve", @warning_saved_plain bare_psi tt)] ∧
  List.length (replies run.2) ≠ 2%nat.
Proof. vm_compute. repeat split; done. Qed.

Lemma save_validation_failure_falls_back_witness :
  let run := @save py_host mini_yaml config_defect bare_psi tt defect_instance
               true (Some "steve") empty_world in
  let warnings :=
    [@warning_validation_failed bare_psi tt; @warning_contact_maintainer bare_psi tt;
     @warning_saved_plain bare_psi tt] in
  run.1 = Ok tt ∧
  disk run.2 !! "config.yml"
  = Some (File (dumped (@plain_dump py_host mini_yaml config_defect bare_psi
                          defect_instance))) ∧
  replies run.2 = [] ++ ((λ msg, ("steve", msg)) <$> warnings) ∧
  console run.2
  = [] ++
    (if isfile (∅ : fs) "config.yml" then []
     else @template_lines py_host mini_yaml config_defect bare_psi defect_instance) ++
    [warning_line (@warning_validation_failed bare_psi tt) (Some TypeError);
     warning_line (@warning_contact_maintainer bare_psi tt) None;
     warning_line (@warning_saved_plain bare_psi tt) None] ∧
  log_record (the_logger run.2) = [] ++ [] ∧
  ∀ depth safe_dump,
    @_save py_host mini_yaml config_defect bare_psi tt (S (S depth)) defect_instance
      "config.yml" true (Some "steve") safe_dump
    = @_save py_host mini_yaml config_defect bare_psi tt 2 defect_instance
        "config.yml" true (Some "steve") safe_dump.
Proof.
  apply (@save_validation_failure_falls_back py_host mini_yaml config_defect
           bare_psi tt defect_instance "config.yml" true (Some "steve") empty_world
           (VDict []) (VDict [("a", VInt 5)]) TypeError).
  - reflexivity.
  - reflexivity.
  - reflexivity.
  - reflexivity.
  - reflexivity.
  - reflexivity.
  - reflexivity.
Defined.

(** C8 as stated fails where the destination is a directory: [save]
    removes it first, and until the rename the path holds nothing, which
    is neither what it held before nor the new text. *)
Lemma save_leaves_directory_path_empty :
  let run := @save py_host mini_yaml config_a bare_psi tt a_instance true None
               world_with_dir in
  disk world_with_dir !! "config.yml" = Some Dir ∧
  ∃ dd : fs, dd ∈ history run.2 ∧ dd !! "config.yml" = None.
Proof.
  split; [done|]. eexists. split; [vm_compute; apply list_elem_of_here|done].
Qed.

Lemma save_never_exposes_partial_file_witness :
  let w := world_with "config.yml" (String.append "a: 1" (String LF "")) in
  ∃ hs,
    history (@save py_host mini_yaml config_a bare_psi tt a_instance true None w).2
    = history w ++ hs ∧
    Forall (λ dd : fs,
              dd !! "config.yml" = disk w !! "config.yml" ∨
              (disk w !! "config.yml" = Some Dir ∧ dd !! "config.yml" = None) ∨
              ∃ text,
                @complete_dump py_host mini_yaml config_a bare_psi a_instance
                  (disk w !! "config.yml") text ∧
                dd !! "config.yml" = Some (File text)) hs.
Proof.
  apply (@save_never_exposes_partial_file py_host mini_yaml config_a bare_psi tt
           a_instance "config.yml" true None
           (world_with "config.yml" (String.append "a: 1" (String LF "")))).
  reflexivity.
Defined.

(** * Further properties *)

(** ** The reconciler: what it leaves alone, and when it gives up *)

Section ReconcilerMore.
Context `{Host}.

Lemma field_fix_set_other default_data d father_nodes key target_type k v :
  k ≠ key →
  field_fix default_data (dict_set d k v) father_nodes key target_type
  = field_fix default_data d father_nodes key target_type.
Proof. intros Hne. unfold field_fix. by rewrite dict_get_set_ne. Qed.

Lemma fix_fields_set_other default_data d father_nodes items fixed_dict needs_save k v :
  k ∉ items.*1 →
  fix_fields default_data (dict_set d k v) father_nodes items fixed_dict needs_save
  = fix_fields default_data d father_nodes items fixed_dict needs_save.
Proof.
  revert fixed_dict needs_save.
  induction items as [|[key ty] items IH]; intros fixed_dict needs_save Hk; [done|].
  rewrite fmap_cons in Hk. simpl in Hk. apply not_elem_of_cons in Hk as [Hne Hk].
  simpl. rewrite field_fix_set_other by done.
  destruct (field_fix default_data d father_nodes key ty) as [[o paths]|e]; [|done].
  by apply IH.
Qed.

(** X1. A key of the document that the class does not annotate is
    ignored: the result and the log are the same with and without it,
    and the reconciled mapping does not hold it. *)
Theorem fix_data_ignores_unknown_keys cls d father_nodes key v :
  key ∉ (get_field_annotations cls).*1 →
  _fix_data cls (VDict (dict_set d key v)) father_nodes
  = _fix_data cls (VDict d) father_nodes ∧
  ∀ fixed_dict needs_save,
    _fix_data cls (VDict d) father_nodes = Ok (fixed_dict, needs_save) →
    dict_get fixed_dict key = None.
Proof.
  destruct cls as [annotations default_data]. cbn [get_field_annotations].
  intros Hkey. rewrite !_fix_data_unfold. split.
  - by apply fix_fields_set_other.
  - intros fixed_dict needs_save Hrun.
    by rewrite (fix_fields_notin _ _ _ _ _ _ _ _ _ Hrun Hkey).
Qed.

(** X2. Nothing is recorded without cause: every path of the log is
    the path of a field that was absent and has a default, or of a field
    whose value the host's coercion rejected, or comes from the log of a
    nested value. *)
Theorem fix_data_logs_only_repairs cls d father_nodes fixed_dict needs_save p :
  _fix_data cls (VDict d) father_nodes = Ok (fixed_dict, needs_save) →
  p ∈ needs_save →
  ∃ key target_type,
    (key, target_type) ∈ get_field_annotations cls ∧
    ((p = join "." (father_nodes ++ [key]) ∧
      ((dict_get d key = None ∧ is_Some (dict_get (get_default_data cls) key)) ∨
       ∃ ty v e, target_type = Plain ty ∧ dict_get d key = Some v ∧
                 deserialize v ty = Raise e ∧ is_value_or_type_error e = true)) ∨
     ∃ single_type v single_data save_nodes,
       target_type = Blossom single_type ∧ dict_get d key = Some v ∧
       _fix_data single_type v (father_nodes ++ [key]) = Ok (single_data, save_nodes) ∧
       p ∈ save_nodes).
Proof.
  destruct cls as [annotations default_data].
  cbn [get_field_annotations get_default_data]. rewrite _fix_data_unfold.
  intros Hrun Hp.
  destruct (fix_fields_log_origin _ _ _ _ _ _ _ _ _ Hrun Hp)
    as [Hnil|(key & ty & o & paths & Hin & Hfield & Hpp)];
    [by apply elem_of_nil in Hnil|].
  exists key, ty. split; [done|]. unfold field_fix in Hfield.
  destruct (dict_get d key) as [v|] eqn:Hv.
  - destruct ty as [c|ty].
    + destruct (_fix_data c v (father_nodes ++ [key])) as [[sd sn]|e'] eqn:Hsub;
        [|done].
      simplify_eq. right. by exists c, v, sd, paths.
    + destruct (deserialize v ty) as [v'|e'] eqn:Hdes.
      { simplify_eq. by apply elem_of_nil in Hpp. }
      destruct (is_value_or_type_error e') eqn:He; [|done].
      left. split.
      * destruct (dict_get default_data key).
        -- destruct (isinstance_Serializable ty).
           ++ destruct (get_default_serialize ty); simplify_eq. set_solver.
           ++ destruct (construct ty v); simplify_eq; set_solver.
        -- simplify_eq. set_solver.
      * right. by exists ty, v, e'.
  - destruct (dict_get default_data key) as [dflt|] eqn:Hd; simplify_eq.
    + left. split; [set_solver|]. left. eauto.
    + by apply elem_of_nil in Hpp.
Qed.

(** X3. A value the host's coercion accepts is kept, as the host
    coerced it. *)
Theorem fix_data_keeps_accepted_value cls d father_nodes fixed_dict needs_save
    key ty v v' :
  _fix_data cls (VDict d) father_nodes = Ok (fixed_dict, needs_save) →
  NoDup (get_field_annotations cls).*1 →
  (key, Plain ty) ∈ get_field_annotations cls →
  dict_get d key = Some v →
  deserialize v ty = Ok v' →
  dict_get fixed_dict key = Some v'.
Proof.
  destruct cls as [annotations default_data].
  cbn [get_field_annotations]. rewrite _fix_data_unfold.
  intros Hrun Hnd Hin Hv Hdes.
  destruct (fix_fields_outcome _ _ _ _ _ _ _ _ _ _ Hrun Hin)
    as (o & paths & Hfield & _ & _ & Hget).
  rewrite (Hget Hnd). unfold field_fix in Hfield. rewrite Hv, Hdes in Hfield.
  by simplify_eq.
Qed.

(** X4. Only [ValueError] and [TypeError] count as a failed coercion:
    when the host raises anything else for the value of a field, no
    repair is made and [_fix_data] raises. *)
Theorem fix_data_propagates_unexpected_errors cls d father_nodes key ty v e :
  (key, Plain ty) ∈ get_field_annotations cls →
  dict_get d key = Some v →
  deserialize v ty = Raise e →
  is_value_or_type_error e = false →
  ∃ e', _fix_data cls (VDict d) father_nodes = Raise e'.
Proof.
  destruct cls as [annotations default_data].
  cbn [get_field_annotations]. rewrite _fix_data_unfold.
  intros Hin Hv Hdes He.
  destruct (fix_fields default_data d father_nodes annotations [] [])
    as [[fixed_dict needs_save]|e'] eqn:Hrun; [|by eexists].
  destruct (fix_fields_outcome _ _ _ _ _ _ _ _ _ _ Hrun Hin)
    as (o & paths & Hfield & _).
  unfold field_fix in Hfield. by rewrite Hv, Hdes, He in Hfield.
Qed.

(** X5. A nested field is never repaired as a whole: when its value is
    not a mapping (and the nested class has fields), [_fix_data] raises
    instead of falling back on the default. *)
Theorem fix_data_nested_non_mapping_raises cls d father_nodes key single_type v :
  (key, Blossom single_type) ∈ get_field_annotations cls →
  dict_get d key = Some v →
  (∀ d', v ≠ VDict d') →
  get_field_annotations single_type ≠ [] →
  ∃ e, _fix_data cls (VDict d) father_nodes = Raise e.
Proof.
  destruct cls as [annotations default_data].
  cbn [get_field_annotations]. rewrite _fix_data_unfold.
  intros Hin Hv Hnot Hfields.
  destruct (fix_fields default_data d father_nodes annotations [] [])
    as [[fixed_dict needs_save]|e'] eqn:Hrun; [|by eexists].
  destruct (fix_fields_outcome _ _ _ _ _ _ _ _ _ _ Hrun Hin)
    as (o & paths & Hfield & _).
  unfold field_fix in Hfield. rewrite Hv in Hfield.
  destruct single_type as [sub_annotations sub_default].
  rewrite _fix_data_not_a_mapping in Hfield by done. done.
Qed.

End ReconcilerMore.

Lemma fix_data_ignores_unknown_keys_witness :
  _fix_data schema_a (VDict (dict_set [("a", VInt 1)] "motd" (VStr "hi"))) []
  = _fix_data schema_a (VDict [("a", VInt 1)]) [] ∧
  ∀ fixed_dict needs_save,
    _fix_data schema_a (VDict [("a", VInt 1)]) [] = Ok (fixed_dict, needs_save) →
    dict_get fixed_dict "motd" = None.
Proof.
  apply (@fix_data_ignores_unknown_keys py_host schema_a [("a", VInt 1)] [] "motd"
           (VStr "hi")).
  simpl. set_solver.
Defined.

Lemma fix_data_logs_only_repairs_witness :
  ∃ key target_type,
    (key, target_type) ∈ get_field_annotations schema_sub ∧
    (("sub.x" = join "." ([] ++ [key]) ∧
      ((dict_get [("sub", (VDict [("x", VStr "bad")] : py_value))] key = None ∧
        is_Some (dict_get (get_default_data schema_sub) key)) ∨
       ∃ ty v e, target_type = Plain ty ∧
                 dict_get [("sub", (VDict [("x", VStr "bad")] : py_value))] key = Some v ∧
                 deserialize v ty = Raise e ∧ is_value_or_type_error e = true)) ∨
     ∃ single_type v single_data save_nodes,
       target_type = Blossom single_type ∧
       dict_get [("sub", (VDict [("x", VStr "bad")] : py_value))] key = Some v ∧
       _fix_data single_type v ([] ++ [key]) = Ok (single_data, save_nodes) ∧
       "sub.x" ∈ save_nodes).
Proof.
  apply (@fix_data_logs_only_repairs py_host schema_sub
           [("sub", VDict [("x", VStr "bad")])] []
           [("sub", VDict [("x", VInt 0)])] ["sub.x"] "sub.x").
  - reflexivity.
  - apply list_elem_of_here.
Defined.

Lemma fix_data_keeps_accepted_value_witness :
  dict_get [("a", (VInt 7 : py_value))] "a" = Some (VInt 7).
Proof.
  apply (@fix_data_keeps_accepted_value py_host schema_a [("a", VInt 7)] []
           [("a", VInt 7)] [] "a" PInt (VInt 7) (VInt 7)).
  - reflexivity.
  - simpl. repeat constructor; set_solver.
  - apply list_elem_of_here.
  - reflexivity.
  - reflexivity.
Defined.

Lemma fix_data_propagates_unexpected_errors_witness :
  ∃ e', _fix_data schema_level (VDict [("level", VStr "MEDIUM")]) [] = Raise e'.
Proof.
  apply (@fix_data_propagates_unexpected_errors enum_host schema_level
           [("level", VStr "MEDIUM")] [] "level" tt (VStr "MEDIUM") KeyError).
  - apply list_elem_of_here.
  - reflexivity.
  - reflexivity.
  - reflexivity.
Defined.

Lemma fix_data_nested_non_mapping_raises_witness :
  ∃ e, _fix_data schema_sub (VDict [("sub", VInt 5)]) [] = Raise e.
Proof.
  apply (@fix_data_nested_non_mapping_raises py_host schema_sub [("sub", VInt 5)] []
           "sub" schema_x (VInt 5)).
  - apply list_elem_of_here.
  - reflexivity.
  - intros d'. discriminate.
  - discriminate.
Defined.

(** ** [file_util]: [delete], [safe_write] and [lf_read] on their own *)

Lemma rmtree_lookup_within (d : fs) (p q : string) :
  within p q = true → rmtree d p !! q = None.
Proof.
  intros Hq. apply map_lookup_filter_None. right. intros x _. simpl. congruence.
Qed.

Lemma replace_cr_no_cr (s : string) : CR ∉ list_ascii_of_string (replace_cr s).
Proof.
  induction s as [|c s IH]; simpl; [apply not_elem_of_nil|].
  apply not_elem_of_cons. split; [|done].
  destruct (Ascii.eqb c CR) eqn:E; [done|].
  intros Heq. rewrite <- Heq, Ascii.eqb_refl in E. done.
Qed.

Lemma normalized_without_cr (s : string) :
  CR ∉ list_ascii_of_string s → normalized s = s.
Proof.
  unfold normalized. intros Hs.
  assert (replace_crlf s = s) as ->.
  { induction s as [|c s IH]; [done|].
    simpl in Hs. apply not_elem_of_cons in Hs as [Hc Hs].
    assert (Ascii.eqb c CR = false) as Hne.
    { destruct (Ascii.eqb c CR) eqn:E; [|done]. apply Ascii.eqb_eq in E. by subst. }
    destruct s as [|c2 s]; [done|].
    change (replace_crlf (String c (String c2 s)))
      with (if Ascii.eqb c CR && Ascii.eqb c2 LF
            then String LF (replace_crlf s)
            else String c (replace_crlf (String c2 s))).
    rewrite Hne. cbn [andb]. by rewrite (IH Hs). }
  induction s as [|c s IH]; [done|].
  simpl in Hs. apply not_elem_of_cons in Hs as [Hc Hs].
  simpl. rewrite (IH Hs).
  destruct (Ascii.eqb c CR) eqn:E; [|done]. apply Ascii.eqb_eq in E. by subst.
Qed.

Section FileUtil.
Context `{Psi}.

(** X6. [delete] never raises.  Afterwards nothing is at the path,
    nothing is below it if it was a directory, and every path outside it
    holds what it held; where there was nothing, nothing happens. *)
Theorem delete_removes_path (p : string) (w : world) :
  let run := delete p w in
  run.1 = Ok tt ∧
  disk run.2 !! p = None ∧
  (isdir (disk w) p = true → ∀ q, within p q = true → disk run.2 !! q = None) ∧
  (∀ q, within p q = false → disk run.2 !! q = disk w !! q) ∧
  (disk w !! p = None → run.2 = w) ∧
  the_logger run.2 = the_logger w ∧ console run.2 = console w ∧
  replies run.2 = replies w.
Proof.
  intros run. subst run. rewrite delete_run. cbn [fst snd disk with_disk].
  split; [done|]. split; [apply deleted_lookup_self|].
  split; [|split; [|split; [|done]]].
  - intros Hdir q Hq. unfold deleted. rewrite Hdir.
    unfold isdir, isfile in *. destruct (disk w !! p) as [[c|]|]; try done.
    by apply rmtree_lookup_within.
  - intros q Hq. by apply deleted_lookup_outside.
  - intros Hnone. unfold deleted, delete_steps, isfile, isdir.
    rewrite Hnone. cbn [orb]. apply with_disk_nil.
Qed.

(** What [safe_write] does, step by step. *)
Lemma safe_write_outcome (target : string) (out : dump_outcome) (w : world) :
  let tmp := target +:+ ".tmp" in
  let d2 := <[tmp := File ""]> (deleted (disk w) tmp) in
  let ws := write_states d2 tmp "" (dumped out) in
  let d3 := default d2 (last ws) in
  let filling := delete_steps (disk w) tmp ++ [d2] ++ ws in
  safe_write target out w
  = match dump_error out with
    | Some e => (Raise e, with_disk w d3 filling)
    | None =>
      match disk w !! target with
      | Some Dir => (Raise OSError, with_disk w d3 filling)
      | _ =>
        let d4 := <[target := File (dumped out)]> (base.delete tmp d3) in
        (Ok tt, with_disk w d4 (filling ++ [d4]))
      end
    end.
Proof.
  intros tmp d2 ws d3 filling.
  pose proof (safe_write_filling (disk w) tmp (dumped out)) as (Htmp & Hd3 & _).
  fold d2 ws d3 in Htmp, Hd3.
  rewrite <- (Hd3 target (tmp_outside target)).
  unfold safe_write. fold tmp. unfold mbind at 1, io_bind at 1.
  rewrite delete_run. unfold with_disk. io_simpl. unfold open_w.
  rewrite deleted_lookup_self. fold d2. io_simpl.
  rewrite write_text_run. unfold with_disk. io_simpl. fold ws d3.
  destruct (dump_error out) as [e|]; io_simpl.
  - unfold filling. by rewrite <- !app_assoc.
  - unfold os_replace. rewrite Htmp.
    destruct (d3 !! target) as [[c|]|]; io_simpl; unfold filling;
      by rewrite <- !app_assoc.
Qed.

(** X7. When the dump finishes and the target is not a directory,
    [safe_write] returns: the target holds the whole text, the [.tmp]
    file is gone, every other path holds what it held, and the logger,
    the console and the replies are untouched. *)
Theorem safe_write_replaces_target (target : string) (out : dump_outcome)
    (w : world) :
  dump_error out = None →
  disk w !! target ≠ Some Dir →
  let run := safe_write target out w in
  run.1 = Ok tt ∧
  disk run.2 !! target = Some (File (dumped out)) ∧
  disk run.2 !! (target +:+ ".tmp") = None ∧
  (∀ q, within (target +:+ ".tmp") q = false → q ≠ target →
        disk run.2 !! q = disk w !! q) ∧
  the_logger run.2 = the_logger w ∧ console run.2 = console w ∧
  replies run.2 = replies w.
Proof.
  intros Herr Hdir run. subst run.
  destruct (safe_write_run target out w) as (r & d' & hs & Hrun & Hframe & Hr & Hok).
  rewrite Hrun. rewrite (Hok Herr Hdir) in *. cbn [fst snd disk with_disk].
  destruct Hr as (_ & Htarget & Htmp & _).
  split; [done|]. split; [done|]. split; [done|]. split; [|done].
  intros q Hq Hne. by destruct (Hframe q Hq Hne).
Qed.

(** X8. [safe_write] raises in two cases only: the dump raised, or the
    target is a directory.  Either way the target holds what it held,
    and the [.tmp] file stays behind with what the dump wrote. *)
Theorem safe_write_failure_keeps_target (target : string) (out : dump_outcome)
    (w : world) (e : exn) :
  (safe_write target out w).1 = Raise e →
  let run := safe_write target out w in
  (dump_error out = Some e ∨
   (dump_error out = None ∧ disk w !! target = Some Dir ∧ e = OSError)) ∧
  disk run.2 !! target = disk w !! target ∧
  disk run.2 !! (target +:+ ".tmp") = Some (File (dumped out)).
Proof.
  intros Hraise run. subst run. revert Hraise.
  rewrite safe_write_outcome. cbv zeta.
  pose proof (safe_write_filling (disk w) (target +:+ ".tmp") (dumped out))
    as (Htmp & Hd3 & _).
  specialize (Hd3 target (tmp_outside target)).
  destruct (dump_error out) as [e0|].
  - cbn [fst snd disk with_disk]. intros [= ->]. split; [by left|]. done.
  - destruct (disk w !! target) as [[c|]|] eqn:Ht; cbn [fst snd disk with_disk];
      intros Heq; try discriminate Heq.
    injection Heq as <-. split; [right; done|]. done.
Qed.

(** X9. When [lf_read] returns, it has changed nothing, the text it
    returns holds no carriage return, and that text is the content of
    the file itself when the content holds none. *)
Theorem lf_read_has_no_carriage_return (p : string) (w : world) (text : string) :
  (lf_read p w).1 = Ok text →
  (lf_read p w).2 = w ∧
  (CR ∉ list_ascii_of_string text) ∧
  (∃ content, disk w !! p = Some (File content) ∧
              (CR ∉ list_ascii_of_string content → text = content)).
Proof.
  unfold lf_read, read_text. io_simpl.
  destruct (disk w !! p) as [[content|]|] eqn:E; io_simpl; intros Hrun;
    simplify_eq.
  split; [done|]. split; [apply replace_cr_no_cr|].
  exists content. split; [done|]. apply normalized_without_cr.
Qed.

End FileUtil.

Lemma lf_read_has_no_carriage_return_witness :
  let w := world_with "config.yml" (String "a" (String CR (String LF "b"))) in
  (@lf_read bare_psi "config.yml" w).2 = w ∧
  (CR ∉ list_ascii_of_string (String "a" (String LF "b"))) ∧
  (∃ content, disk w !! "config.yml" = Some (File content) ∧
              (CR ∉ list_ascii_of_string content
               → String "a" (String LF "b") = content)).
Proof.
  apply (@lf_read_has_no_carriage_return bare_psi "config.yml"
           (world_with "config.yml" (String "a" (String CR (String LF "b"))))
           (String "a" (String LF "b"))).
  reflexivity.
Defined.

Lemma safe_write_replaces_target_witness :
  let out := {| dumped := "a: 5"; dump_error := None |} in
  let run := @safe_write bare_psi "config.yml" out (world_with "config.yml" "a: 1") in
  run.1 = Ok tt ∧
  disk run.2 !! "config.yml" = Some (File "a: 5") ∧
  disk run.2 !! ("config.yml" +:+ ".tmp") = None ∧
  (∀ q, within ("config.yml" +:+ ".tmp") q = false → q ≠ "config.yml" →
        disk run.2 !! q = disk (world_with "config.yml" "a: 1") !! q) ∧
  the_logger run.2 = the_logger (world_with "config.yml" "a: 1") ∧
  console run.2 = console (world_with "config.yml" "a: 1") ∧
  replies run.2 = replies (world_with "config.yml" "a: 1").
Proof.
  apply (@safe_write_replaces_target bare_psi "config.yml"
           {| dumped := "a: 5"; dump_error := None |}
           (world_with "config.yml" "a: 1")).
  - reflexivity.
  - vm_compute. discriminate.
Defined.

(** A dump that raises after having written ["a: "]. *)
Lemma safe_write_failure_keeps_target_witness :
  let out := {| dumped := "a: "; dump_error := Some YAMLError |} in
  let run := @safe_write bare_psi "config.yml" out (world_with "config.yml" "a: 1") in
  (dump_error out = Some YAMLError ∨
   (dump_error out = None ∧
    disk (world_with "config.yml" "a: 1") !! "config.yml" = Some Dir ∧
    YAMLError = OSError)) ∧
  disk run.2 !! "config.yml" = disk (world_with "config.yml" "a: 1") !! "config.yml" ∧
  disk run.2 !! ("config.yml" +:+ ".tmp") = Some (File "a: ").
Proof.
  apply (@safe_write_failure_keeps_target bare_psi "config.yml"
           {| dumped := "a: "; dump_error := Some YAMLError |}
           (world_with "config.yml" "a: 1") YAMLError).
  vm_compute. reflexivity.
Defined.

(** ** The logger's contexts *)

Section Contexts.
Context `{Psi}.

Lemma finally_run {A} (body : io A) (final : io unit) (w w' w'' : world) r :
  body w = (r, w') → final w' = (Ok tt, w'') → try_finally body final w = (r, w'').
Proof. intros Hb Hf. unfold try_finally. by rewrite Hb, Hf. Qed.

(** X10. Entered inside itself, [reply_to_source_context] forgets the
    verbosity the logger had: the inner context overwrites what the
    outer one saved, and when both are left the logger prints nothing
    any more ([verbose] is [None]).  The body's outcome is passed on. *)
Theorem nested_context_loses_verbosity {A} (v1 v2 : bool) (s1 s2 : option source)
    (body : io A) (w : world) :
  let inside :=
    with_logger w (entered v2 s2 (entered v1 s1 (the_logger w))) in
  let run :=
    reply_to_source_context v1 s1 (reply_to_source_context v2 s2 body) w in
  cached_verbose (the_logger inside) = Some v1 ∧
  run.1 = (body inside).1 ∧
  verbose (the_logger run.2) = None ∧
  src (the_logger run.2) = None.
Proof.
  intros inside run. split; [done|]. subst run.
  destruct (body inside) as [r w'] eqn:Hbody.
  set (w1 := with_logger w (entered v1 s1 (the_logger w))).
  assert (reply_to_source_context v2 s2 body w1
          = (r, with_logger w' (exited (the_logger w')))) as Hinner
    by (apply context_run; exact Hbody).
  by rewrite (context_run _ _ _ _ _ _ Hinner).
Qed.

Lemma log_all_run (entries : list (level * log_msg * option exn)) (w : world) :
  ∃ w',
    log_all entries w = (Ok tt, w') ∧
    disk w' = disk w ∧ history w' = history w ∧
    verbose (the_logger w') = verbose (the_logger w) ∧
    cached_verbose (the_logger w') = cached_verbose (the_logger w) ∧
    src (the_logger w') = src (the_logger w) ∧
    recording (the_logger w') = recording (the_logger w) ∧
    log_record (the_logger w')
    = log_record (the_logger w) ++
      (if recording (the_logger w) then entries.*1.*2 else []) ∧
    replies w'
    = replies w ++
      match src (the_logger w) with
      | Some s => (λ e, (s, e.1.2)) <$> entries
      | None => []
      end ∧
    console w'
    = console w ++
      (if is_true (verbose (the_logger w))
       then (λ e, {| line_level := e.1.1; line_msg := e.1.2; line_exc := e.2 |})
              <$> entries
       else []).
Proof.
  revert w. induction entries as [|[[lvl msg] exc_info] entries IH]; intros w.
  - exists w. simpl. repeat split; try done.
    + destruct (recording (the_logger w)); by rewrite app_nil_r.
    + destruct (src (the_logger w)); by rewrite app_nil_r.
    + destruct (is_true (verbose (the_logger w))); by rewrite app_nil_r.
  - destruct (IH (after_log lvl msg exc_info w))
      as (w' & Hrun & Hd & Hh & Hv & Hc & Hs & Hr & Hrec & Hrep & Hcon).
    exists w'. cbn [log_all]. erewrite bind_ok; [|apply log_run].
    destruct (after_log_flags lvl msg exc_info w) as (Hv0 & Hc0 & Hs0 & Hr0).
    split; [done|]. rewrite Hd, Hh, Hv, Hc, Hs, Hr, Hrec, Hrep, Hcon.
    rewrite Hv0, Hc0, Hs0, Hr0.
    rewrite after_log_disk, after_log_record, after_log_replies, after_log_console.
    repeat split; try done.
    + unfold after_log, log. io_simpl.
      by destruct (recording (the_logger w)), (src (the_logger w)),
        (is_true (verbose (the_logger w))).
    + destruct (recording (the_logger w)); simpl; by rewrite <- ?app_assoc.
    + destruct (src (the_logger w)); simpl; by rewrite <- ?app_assoc.
    + destruct (is_true (verbose (the_logger w))); simpl; by rewrite <- ?app_assoc.
Qed.

Lemma make_calls_log_all (calls : list logger_call) :
  make_calls calls = log_all (handed_to_log <$> calls).
Proof.
  induction calls as [|c calls IH]; [done|].
  cbn [make_calls fmap list_fmap log_all]. rewrite IH. by destruct c.
Qed.

(** X11. What is logged inside [record_context], through [info], [warn]
    and [error], is what the record holds afterwards: the messages as
    coloured, in order, whatever the record held before.  Each message
    went to the command source if one was given, and to the handlers
    of the logger (the console, the log file) if [verbose] was asked
    for.  Afterwards the logger records no more, has no source attached,
    and has the verbosity it had; no file but the log file was
    written. *)
Theorem record_context_collects_messages (verbose_ : bool)
    (source_ : option source) (calls : list logger_call) (w : world) :
  let entries := handed_to_log <$> calls in
  let run := record_context verbose_ source_ (make_calls calls) w in
  run.1 = Ok tt ∧
  log_record (the_logger run.2) = entries.*1.*2 ∧
  recording (the_logger run.2) = false ∧
  src (the_logger run.2) = None ∧
  verbose (the_logger run.2) = verbose (the_logger w) ∧
  replies run.2
  = replies w ++
    match source_ with
    | Some s => (λ e, (s, e.1.2)) <$> entries
    | None => []
    end ∧
  console run.2
  = console w ++
    (if verbose_
     then (λ e, {| line_level := e.1.1; line_msg := e.1.2; line_exc := e.2 |})
            <$> entries
     else []) ∧
  only_logged w run.2.
Proof.
  intros entries run. subst run. rewrite make_calls_log_all. fold entries.
  unfold record_context.
  erewrite bind_ok; [|reflexivity].
  set (l0 := {| verbose := verbose (the_logger w);
                cached_verbose := cached_verbose (the_logger w);
                src := src (the_logger w); recording := true; log_record := [] |}).
  set (w0 := with_logger w l0).
  destruct (log_all_run entries (with_logger w0 (entered verbose_ source_ (the_logger w0))))
    as (w' & Hrun & Hd & Hh & Hv & Hc & Hs & Hr & Hrec & Hrep & Hcon).
  change (put_logger l0 w).2 with w0.
  erewrite finally_run; [|by apply context_run|reflexivity].
  cbn [fst snd the_logger with_logger exited entered verbose cached_verbose src
       recording log_record disk history console replies] in *.
  rewrite Hc, Hrec, Hrep, Hcon. simpl.
  split_and!; try done; [by destruct verbose_|].
  by apply only_logged_same.
Qed.

(** X12. Whatever the body does, [record_context] passes its outcome
    on, an exception as well, and leaves the logger not recording and
    without a source; the body runs with the record emptied. *)
Theorem record_context_always_resets {A} (verbose_ : bool)
    (source_ : option source) (body : io A) (w : world) :
  let inside :=
    with_logger w
      (entered verbose_ source_
         {| verbose := verbose (the_logger w);
            cached_verbose := cached_verbose (the_logger w);
            src := src (the_logger w); recording := true; log_record := [] |}) in
  let run := record_context verbose_ source_ body w in
  run.1 = (body inside).1 ∧
  recording (the_logger run.2) = false ∧
  src (the_logger run.2) = None ∧
  cached_verbose (the_logger run.2) = None ∧
  log_record (the_logger run.2) = log_record (the_logger (body inside).2) ∧
  disk run.2 = disk (body inside).2 ∧
  history run.2 = history (body inside).2 ∧
  console run.2 = console (body inside).2 ∧
  replies run.2 = replies (body inside).2.
Proof.
  intros inside run. subst run. unfold record_context.
  erewrite bind_ok; [|reflexivity].
  destruct (body inside) as [r w'] eqn:Hbody.
  erewrite finally_run; [|apply context_run; exact Hbody|reflexivity].
  done.
Qed.

End Contexts.

(** ** Colour codes *)

Lemma color_code_match_no_escape (c : ascii) (s : string) :
  Ascii.eqb c ESC = false → color_code_match (String c s) = None.
Proof. intros Hc. destruct s as [|c2 s]; simpl; by rewrite ?Hc. Qed.

Lemma sub_color_codes_plain (plain rest : string) :
  no_escape plain = true →
  sub_color_codes 0 (plain +:+ rest) = plain +:+ sub_color_codes 0 rest.
Proof.
  induction plain as [|c plain IH]; [done|]. simpl no_escape. intros Hp.
  apply andb_true_iff in Hp as [Hc Hp]. apply negb_true_iff in Hc.
  rewrite !append_cons. cbn [sub_color_codes].
  rewrite (color_code_match_no_escape _ _ Hc). by rewrite IH.
Qed.

Lemma sub_color_codes_skip (a b : string) :
  sub_color_codes (String.length a) (a +:+ b) = sub_color_codes 0 b.
Proof.
  induction a as [|c a IH].
  - by rewrite append_nil_l.
  - rewrite append_cons. cbn [String.length sub_color_codes]. exact IH.
Qed.

Lemma digits_run_append (ds rest : string) :
  all_digits ds = true → digits_run rest = O →
  digits_run (ds +:+ rest) = String.length ds ∧
  string_drop (String.length ds) (ds +:+ rest) = rest.
Proof.
  intros Hds Hrest. induction ds as [|c ds IH].
  - rewrite append_nil_l. split; [done|]. by destruct rest.
  - cbn [all_digits] in Hds. apply andb_true_iff in Hds as [Hc Hds].
    rewrite append_cons. cbn [digits_run String.length string_drop].
    rewrite Hc. destruct (IH Hds) as [-> ->]. done.
Qed.

Lemma color_code_matches (first second rest : string) :
  code_parameters first second = true →
  color_code_match (color_code first second +:+ rest)
  = Some (String.length (color_code first second)).
Proof.
  unfold code_parameters. intros Hp.
  apply andb_true_iff in Hp as [Hp Hfs]. apply andb_true_iff in Hp as [Hf Hs].
  unfold color_code. rewrite !append_cons, append_assoc.
  cbn [color_code_match String.length]. rewrite !Ascii.eqb_refl. cbn [andb].
  rewrite length_append.
  destruct (String.eqb second "") eqn:Hsecond.
  - change ("m" +:+ rest) with (String "m"%char rest).
    destruct (digits_run_append first (String "m"%char rest) Hf eq_refl)
      as [Hrun Hdrop].
    destruct first as [|c first].
    + rewrite append_nil_l. reflexivity.
    + rewrite Hrun. cbn [String.length] in *. rewrite Hdrop.
      cbn [Ascii.eqb Bool.eqb andb]. simpl. f_equal; lia.
  - rewrite orb_false_r in Hfs. apply negb_true_iff in Hfs.
    rewrite append_cons, append_assoc.
    change ("m" +:+ rest) with (String "m"%char rest).
    destruct (digits_run_append first
                (String ";"%char (second +:+ String "m"%char rest)) Hf eq_refl)
      as [Hrun Hdrop].
    destruct (digits_run_append second (String "m"%char rest) Hs eq_refl)
      as [Hrun2 Hdrop2].
    destruct first as [|c first]; [done|].
    destruct second as [|c2 second]; [done|].
    rewrite Hrun. cbn [String.length] in *. rewrite Hdrop.
    cbn [Ascii.eqb Bool.eqb andb]. rewrite Hrun2, Hdrop2.
    cbn [starts_with_m Ascii.eqb Bool.eqb andb]. rewrite length_append.
    simpl. f_equal; lia.
Qed.

(** X13. [clean_console_color_code] takes the colour codes out of a
    text and leaves the rest: for plain pieces (no [ESC] in them)
    separated by colour codes, the result is the pieces put together.
    In particular a text without [ESC] is returned as it is. *)
Theorem clean_console_color_code_removes_codes
    (pieces : list (string * (string * string))) (tail : string) :
  Forall (λ piece, no_escape piece.1 = true ∧
                   code_parameters piece.2.1 piece.2.2 = true) pieces →
  no_escape tail = true →
  clean_console_color_code (colored pieces tail) = uncolored pieces tail.
Proof.
  unfold clean_console_color_code. intros Hpieces Htail.
  induction Hpieces as [|[plain [first second]] pieces [Hplain Hcode] _ IH]; simpl in *.
  - rewrite <- (append_nil_r tail) at 1. rewrite sub_color_codes_plain by done.
    simpl. by rewrite append_nil_r.
  - rewrite sub_color_codes_plain by done. f_equal.
    pose proof (color_code_matches first second (colored pieces tail) Hcode) as Hm.
    remember (color_code first second) as code eqn:Hc.
    destruct code as [|c code]; [by rewrite Hc|].
    rewrite append_cons in *. cbn [sub_color_codes]. rewrite Hm.
    cbn [String.length]. rewrite sub_color_codes_skip. exact IH.
Qed.

Lemma clean_console_color_code_removes_codes_witness :
  clean_console_color_code
    (colored [("[Server] ", ("31", "")); ("Failed", ("", "")); ("", ("1", "33"))]
             " done")
  = uncolored [("[Server] ", ("31", "")); ("Failed", ("", "")); ("", ("1", "33"))]
              " done".
Proof.
  apply (clean_console_color_code_removes_codes
           [("[Server] ", ("31", "")); ("Failed", ("", "")); ("", ("1", "33"))]
           " done").
  - repeat constructor.
  - reflexivity.
Defined.

(** ** Translations: [ntr] with a language given, and [dtr] *)

Section TranslationMore.
Context `{Psi}.

(** X14. With [allow_failure=False] and a language given, when both
    lookups fail [ntr] raises [KeyError] and logs nothing. *)
Theorem ntr_strict_raises_key_error translation_key args language
    _mcdr_tr_language l _default_fallback log_error_message e e' :
  match language, _mcdr_tr_language with
  | Some l', None => Some l'
  | _, _ => _mcdr_tr_language
  end = Some l →
  psi_tr translation_key args (Some l) = Raise e →
  is_key_or_value_error e = true →
  (get_mcdr_language = "en_us" ∨
   psi_tr translation_key args (Some "en_us") = Raise e' ∧
   is_key_or_value_error e' = true) →
  ntr translation_key args language _mcdr_tr_language false _default_fallback
      log_error_message
  = ([], Raise KeyError).
Proof.
  intros Hlang Hfirst He Hsecond. unfold ntr.
  destruct language as [l1|], _mcdr_tr_language as [l2|];
    simpl in Hlang; simplify_eq; cbv beta iota zeta; rewrite Hfirst, He.
  all: destruct (join_languages_all_given
              (collect_languages [Some l; Some get_mcdr_language; Some "en_us"] []))
    as [text Htext].
  all: try (apply collect_languages_all_given; [|done]; repeat constructor; eauto).
  all: destruct Hsecond as [Hen|[Hsecond He']];
    [ rewrite Hen in *; simpl String.eqb; cbv iota; simpl is_key_or_value_error;
      cbv iota; by rewrite Htext
    | destruct (String.eqb get_mcdr_language "en_us");
      [ simpl is_key_or_value_error; cbv iota; by rewrite Htext
      | rewrite Hsecond, He'; by rewrite Htext ] ].
Qed.

Lemma collect_languages_spec (items languages : list (option string)) :
  NoDup languages →
  NoDup (collect_languages items languages) ∧
  ∀ x, x ∈ collect_languages items languages ↔ x ∈ languages ∨ x ∈ items.
Proof.
  revert languages. induction items as [|item items IH]; intros languages Hnd.
  - simpl. split; [done|]. intros x. set_solver.
  - simpl. case_bool_decide as Hin.
    + destruct (IH languages Hnd) as [Hnd' Hmem]. split; [done|].
      intros x. rewrite Hmem. set_solver.
    + destruct (IH (languages ++ [item])) as [Hnd' Hmem].
      { apply NoDup_app. split; [done|]. split; [|apply NoDup_singleton].
        intros x Hx Hx'. apply list_elem_of_singleton in Hx'. by subst. }
      split; [done|]. intros x. rewrite Hmem. set_solver.
Qed.

(** X15. The list of languages that [ntr] puts in its error message
    names each language once: the requested one, the host's and
    [en_us], without repetition. *)
Theorem ntr_names_each_language_once (_mcdr_tr_language : option string)
    (fallback_language : string) :
  let languages :=
    collect_languages [_mcdr_tr_language; Some fallback_language; Some "en_us"] [] in
  NoDup languages ∧
  ∀ x, x ∈ languages ↔
       x = _mcdr_tr_language ∨ x = Some fallback_language ∨ x = Some "en_us".
Proof.
  intros languages. subst languages.
  destruct (collect_languages_spec
              [_mcdr_tr_language; Some fallback_language; Some "en_us"] [])
    as [Hnd Hmem]; [constructor|].
  split; [done|]. intros x. rewrite Hmem. set_solver.
Qed.

End TranslationMore.

Section DtrProperties.
Context `{Formatting}.

Lemma fake_tr_outcome (translation_dict : list (string * string))
    (translation_key : string) (inner_args : targs) (language _mcdr_tr_language : option string)
    (allow_failure : bool) :
  fake_tr translation_dict translation_key inner_args language _mcdr_tr_language
    allow_failure
  = match dict_get translation_dict get_mcdr_language with
    | Some text => fake_tr_format text inner_args
    | None =>
      if negb (String.eqb get_mcdr_language "en_us") &&
         negb (bool_decide (language = Some "en_us"))
      then match dict_get translation_dict "en_us" with
           | Some text => fake_tr_format text inner_args
           | None => fake_tr_failure allow_failure
           end
      else fake_tr_failure allow_failure
    end.
Proof.
  unfold fake_tr, fake_tr_format, fake_tr_failure. cbv zeta.
  assert (bool_decide ("en_us" ∈ [get_mcdr_language])
          = String.eqb get_mcdr_language "en_us") as ->.
  { destruct (String.eqb get_mcdr_language "en_us") eqn:E.
    - apply String.eqb_eq in E. rewrite E. apply bool_decide_eq_true_2. set_solver.
    - apply String.eqb_neq in E. apply bool_decide_eq_false_2. set_solver. }
  destruct (negb (String.eqb get_mcdr_language "en_us") &&
            negb (bool_decide (language = Some "en_us"))); simpl.
  - destruct (dict_get translation_dict get_mcdr_language); [done|].
    by destruct (dict_get translation_dict "en_us").
  - by destruct (dict_get translation_dict get_mcdr_language).
Qed.

(** X16. The translator of [dtr] never looks up the language it is
    asked for: it takes the text of the host's language, or else the one
    of [en_us].  Its result depends on [language] only through whether
    that is [en_us], and not at all on [_mcdr_tr_language] or on the
    translation key. *)
Theorem fake_tr_ignores_requested_language (translation_dict : list (string * string))
    (translation_key translation_key' : string) (inner_args : targs)
    (language language' _mcdr_tr_language _mcdr_tr_language' : option string)
    (allow_failure : bool) :
  (language = Some "en_us" ↔ language' = Some "en_us") →
  fake_tr translation_dict translation_key inner_args language _mcdr_tr_language
    allow_failure
  = fake_tr translation_dict translation_key' inner_args language' _mcdr_tr_language'
      allow_failure.
Proof.
  intros Hsame. rewrite !fake_tr_outcome.
  by rewrite (bool_decide_ext _ _ Hsame).
Qed.

(** X17. Asked for [en_us] on a host with another language, for which
    the dictionary has no text, the translator of [dtr] fails, even when
    the dictionary has a text for [en_us]. *)
Theorem fake_tr_misses_requested_english (translation_dict : list (string * string))
    (translation_key : string) (inner_args : targs)
    (_mcdr_tr_language : option string) (allow_failure : bool) :
  get_mcdr_language ≠ "en_us" →
  dict_get translation_dict get_mcdr_language = None →
  fake_tr translation_dict translation_key inner_args (Some "en_us")
    _mcdr_tr_language allow_failure
  = if allow_failure then Ok (Some (inl "<Translation failed>")) else Raise KeyError.
Proof.
  intros Hhost Hnone. rewrite fake_tr_outcome, Hnone.
  rewrite bool_decide_eq_true_2 by done. by rewrite andb_false_r.
Qed.

(** X18. The translator of [dtr] never reaches its end without a
    result: it returns a text or raises, and with [allow_failure] it
    raises only when formatting does. *)
Theorem fake_tr_never_returns_none (translation_dict : list (string * string))
    (translation_key : string) (inner_args : targs)
    (language _mcdr_tr_language : option string) (allow_failure : bool) :
  fake_tr translation_dict translation_key inner_args language _mcdr_tr_language
    allow_failure
  ≠ Ok None ∧
  (allow_failure = true →
   (∀ text, ∃ t, str_format text inner_args = Ok t) →
   (∀ text, ∃ t, rtext_format text inner_args = Ok t) →
   ∃ text, fake_tr translation_dict translation_key inner_args language
             _mcdr_tr_language allow_failure = Ok (Some text)).
Proof.
  rewrite fake_tr_outcome.
  assert (∀ text, fake_tr_format text inner_args ≠ Ok None) as Hformat.
  { intros text. unfold fake_tr_format.
    destruct (any_rtext inner_args).
    - by destruct (rtext_format text inner_args).
    - by destruct (str_format text inner_args). }
  assert (∀ text,
            (∀ text, ∃ t, str_format text inner_args = Ok t) →
            (∀ text, ∃ t, rtext_format text inner_args = Ok t) →
            ∃ text', fake_tr_format text inner_args = Ok (Some text')) as Hok.
  { intros text Hstr Hrtext. unfold fake_tr_format.
    destruct (any_rtext inner_args).
    - destruct (Hrtext text) as [t ->]. by eexists.
    - destruct (Hstr text) as [t ->]. by eexists. }
  assert (fake_tr_failure allow_failure ≠ Ok None) as Hfail
    by (by destruct allow_failure).
  split.
  - destruct (dict_get translation_dict get_mcdr_language); [apply Hformat|].
    destruct (negb (String.eqb get_mcdr_language "en_us") &&
              negb (bool_decide (language = Some "en_us"))); [|done].
    destruct (dict_get translation_dict "en_us"); [apply Hformat|done].
  - intros -> Hstr Hrtext.
    destruct (dict_get translation_dict get_mcdr_language); [by apply Hok|].
    destruct (negb (String.eqb get_mcdr_language "en_us") &&
              negb (bool_decide (language = Some "en_us"))); [|by eexists].
    destruct (dict_get translation_dict "en_us"); [by apply Hok|by eexists].
Qed.

End DtrProperties.

Lemma ntr_echoes_key_witness :
  ∃ languages,
    @ntr bare_psi "help.missing" tt (Some "zh_cn") None true None true
    = (["Error translate text " +:+ dquote +:+ "help.missing" +:+ dquote
          +:+ " to language " +:+ languages],
       Ok (inl "help.missing")).
Proof.
  apply (@ntr_echoes_key bare_psi "help.missing" tt (Some "zh_cn") None "zh_cn"
           None true KeyError KeyError).
  - reflexivity.
  - reflexivity.
  - reflexivity.
  - right. split; reflexivity.
Defined.

Lemma ntr_strict_raises_key_error_witness :
  @ntr bare_psi "help.missing" tt (Some "zh_cn") None false None true
  = ([], Raise KeyError).
Proof.
  apply (@ntr_strict_raises_key_error bare_psi "help.missing" tt (Some "zh_cn") None
           "zh_cn" None true KeyError KeyError).
  - reflexivity.
  - reflexivity.
  - reflexivity.
  - right. split; reflexivity.
Defined.

Lemma fake_tr_ignores_requested_language_witness :
  @fake_tr bare_psi plain_formatting [("zh_cn", "nihao"); ("fr_fr", "bonjour")] ""
    tt (Some "fr_fr") None true
  = @fake_tr bare_psi plain_formatting [("zh_cn", "nihao"); ("fr_fr", "bonjour")]
      "greeting" tt None (Some "zh_cn") true.
Proof.
  apply (@fake_tr_ignores_requested_language bare_psi plain_formatting
           [("zh_cn", "nihao"); ("fr_fr", "bonjour")] "" "greeting" tt
           (Some "fr_fr") None None (Some "zh_cn") true).
  split; discriminate.
Defined.

Lemma fake_tr_misses_requested_english_witness :
  @fake_tr bare_psi plain_formatting [("en_us", "hello")] "" tt (Some "en_us") None
    true
  = Ok (Some (inl "<Translation failed>")).
Proof.
  apply (@fake_tr_misses_requested_english bare_psi plain_formatting
           [("en_us", "hello")] "" tt None true).
  - discriminate.
  - reflexivity.
Defined.

(** ** Saving: the formatted document, and what [save] stays away from *)

Section SaveMore.
Context `{HH : Host} `{!Yaml} `{!ConfigClass} `{!Psi}.
Context (no_args : targs).

(** X19. When the text written for the merged document passes the
    round trip, [save] returns: the destination holds that text, the
    temporary file is gone, and nothing went to the command source or
    into the record (the console has the warning of [get_template], if
    the template was needed and could not be read). *)
Theorem save_writes_formatted_document (self : configuration) (p : string)
    (print_to_console : bool) (source_to_reply : option source) (w : world)
    (base formatted_config : fdoc) (i : inst) :
  file_path self = Some p →
  merge_base self (disk w !! p) = Ok base →
  overlay base (inst_serialize (fields self)) = Ok formatted_config →
  dump_error (yaml_rt_dump formatted_config) = None →
  validate (dumped (yaml_rt_dump formatted_config)) = Ok i →
  let run := save no_args self print_to_console source_to_reply w in
  run.1 = Ok tt ∧
  disk run.2 !! p = Some (File (dumped (yaml_rt_dump formatted_config))) ∧
  disk run.2 !! config_temp_path_of p = None ∧
  replies run.2 = replies w ∧
  log_record (the_logger run.2) = log_record (the_logger w) ∧
  console run.2
  = console w ++ (if isfile (disk w) p then [] else template_lines self).
Proof.
  intros Hpath Hbase Hoverlay Hdump Hval run.
  assert (∃ w1 : world,
            run = _save no_args 2 self p print_to_console source_to_reply false w1 ∧
            disk w1 !! p ≠ Some Dir ∧
            merge_base self (disk w1 !! p) = Ok base ∧
            isfile (disk w1) p = isfile (disk w) p ∧
            the_logger w1 = the_logger w ∧ console w1 = console w ∧
            replies w1 = replies w) as (w1 & Hrun & Hdir & Hbase1 & Hfile & Hl & Hc & Hr).
  { subst run. unfold save. rewrite Hpath.
    erewrite bind_ok; [|reflexivity]. unfold isdir, isfile.
    destruct (disk w !! p) as [[content|]|] eqn:E.
    - exists w. rewrite E. done.
    - exists (with_disk w (rmtree (disk w) p) [rmtree (disk w) p]).
      erewrite bind_ok; [|apply put_disk_run]. cbn [disk with_disk].
      rewrite rmtree_lookup_self. done.
    - exists w. rewrite E. done. }
  rewrite Hrun. clear Hrun run.
  change (_save no_args 2 self p print_to_console source_to_reply false w1)
    with (_save_body no_args self p print_to_console source_to_reply
            (_save no_args 1 self p print_to_console source_to_reply) false w1).
  destruct (save_formatted_written no_args self p print_to_console source_to_reply
              (_save no_args 1 self p print_to_console source_to_reply)
              w1 base formatted_config Hbase1 Hoverlay Hdump)
    as (d' & hs & Hp & Htemp & Hrest).
  set (text := dumped (yaml_rt_dump formatted_config)) in *.
  set (temp := config_temp_path_of p) in *.
  match type of Hrest with
  | ∀ r w', _ ?W = _ → _ => set (w2 := W) in *
  end.
  set (d4 := <[p := File text]> (base.delete temp d')).
  erewrite Hrest.
  2:{ unfold try_except_else. erewrite validation_run by exact Htemp. rewrite Hval.
      erewrite bind_ok; [|reflexivity].
      assert (os_replace (disk w2) temp p = Ok d4) as Hreplace.
      { unfold os_replace. cbn [disk w2 with_disk]. rewrite Htemp.
        destruct (d' !! p) as [[c|]|] eqn:E; try done; congruence. }
      erewrite bind_ok; [|unfold lift; by rewrite Hreplace].
      apply put_disk_run. }
  cbn [fst snd disk with_logger with_disk replies console the_logger exited
       log_record].
  pose proof (outside_ne _ _ (config_temp_outside p)) as Hne. fold temp in Hne.
  split; [done|]. split; [apply lookup_insert_eq|]. split.
  { unfold d4. rewrite lookup_insert_ne by done. apply lookup_delete_eq. }
  unfold w2. cbn [replies console the_logger log_record with_disk with_console
                  with_logger entered].
  by rewrite Hr, Hl, Hc, Hfile.
Qed.


Lemma rmtree_lookup_outside (d : fs) (p q : string) :
  within p q = false → rmtree d p !! q = d !! q.
Proof.
  intros Hout. unfold rmtree. rewrite map_lookup_filter.
  destruct (d !! q) as [x|]; [|done]. simpl. by rewrite option_guard_True.
Qed.

(** Invariants: what holds before a step holds after it, whether the
    step returns or raises. *)
Lemma hoare_inv_bind {A B} (I : world → Prop) (m : io A) (f : A → io B) :
  hoare I m (λ _ w, I w) → (∀ a, hoare I (f a) (λ _ w, I w)) →
  hoare I (m ≫= f) (λ _ w, I w).
Proof. intros Hm Hf. eapply hoare_bind; [exact Hm|exact Hf|done]. Qed.

Lemma hoare_inv_unchanged {A} (I : world → Prop) (m : io A) :
  (∀ w, (m w).2 = w) → hoare I m (λ _ w, I w).
Proof. intros Hm w Hw. by rewrite Hm. Qed.

Lemma lf_read_unchanged (q : string) (w : world) : (lf_read q w).2 = w.
Proof. unfold lf_read. io_simpl. by destruct (read_text (disk w) q). Qed.

Lemma hoare_inv_log (I : world → Prop) msg exc_info :
  disk_only I → hoare I (warn msg exc_info) (λ _ w, I w).
Proof.
  intros HI. eapply hoare_conseq; [by apply hoare_warn| |]; [done|by intros r w [_ Hw]].
Qed.

Lemma hoare_inv_merge_base (I : world → Prop) (self : configuration) (d : fs)
    (p : string) :
  disk_only I →
  hoare I
    (if isfile d p
     then text ← lf_read p; lift (yaml_rt_load text)
     else get_template self)
    (λ _ w, I w).
Proof.
  intros HI. destruct (isfile d p).
  - apply hoare_inv_bind; [apply hoare_inv_unchanged, lf_read_unchanged|].
    intros text. by apply hoare_inv_unchanged.
  - eapply hoare_conseq; [by apply hoare_get_template| |]; [done|by intros r w [_ Hw]].
Qed.

Lemma hoare_inv_clear_temp w0 q temp (d : fs) :
  within temp q = false →
  hoare (quiet w0 q) (if path_exists d temp then delete temp else mret tt)
    (λ _ w, quiet w0 q w).
Proof.
  intros Hout. destruct (path_exists d temp); [|by apply hoare_inv_unchanged].
  eapply hoare_conseq; [by apply hoare_delete| |]; [done|by intros r w [_ Hw]].
Qed.

Lemma hoare_replace_aside w0 q temp p text :
  q ≠ p → q ≠ temp →
  hoare (λ w, quiet w0 q w ∧ disk w !! temp = Some (File text))
    (d ← get_disk; d' ← lift (os_replace d temp p); put_disk d')
    (λ _ w, quiet w0 q w).
Proof.
  intros Hp Ht w [Hq Htemp]. io_simpl. unfold os_replace. rewrite Htemp.
  destruct (disk w !! p) as [[c|]|] eqn:E; io_simpl; try done.
  all: apply (quiet_with_disk w0 q w); [done| |apply Forall_cons; split; [|done]].
  all: rewrite lookup_insert_ne by done; by rewrite lookup_delete_ne.
Qed.

Lemma hoare_frame_fallback w0 q p (self : configuration) print_to_console
    source_to_reply (again : bool → io unit) :
  (∀ t, t ∈ save_paths p → within t q = false) →
  hoare (quiet w0 q)
    (_save_body no_args self p print_to_console source_to_reply again true)
    (λ _ w, quiet w0 q w).
Proof.
  intros Hout. unfold _save_body.
  apply hoare_reply_to_source_context;
    [apply quiet_disk_only|intros r; apply quiet_disk_only|].
  apply hoare_inv_bind; [by apply hoare_inv_unchanged|]. intros d.
  apply hoare_inv_bind.
  { apply hoare_inv_clear_temp, Hout. unfold save_paths. set_solver. }
  intros []. cbv zeta. apply hoare_inv_bind.
  - eapply hoare_conseq;
      [apply (hoare_safe_write_aside w0 q p)| |]; [| |done|by intros r w [Hw _]].
    + apply Hout. unfold save_paths. set_solver.
    + apply outside_ne, Hout. unfold save_paths. set_solver.
  - intros []. apply hoare_inv_log, quiet_disk_only.
Qed.

Lemma hoare_frame_formatted w0 q p (self : configuration) print_to_console
    source_to_reply (again : bool → io unit) :
  (∀ t, t ∈ save_paths p → within t q = false) →
  hoare (quiet w0 q) (again true) (λ _ w, quiet w0 q w) →
  hoare (quiet w0 q)
    (_save_body no_args self p print_to_console source_to_reply again false)
    (λ _ w, quiet w0 q w).
Proof.
  intros Hout Hagain. unfold _save_body.
  set (temp := config_temp_path_of p).
  assert (within temp q = false) as Htemp by (apply Hout; unfold save_paths; set_solver).
  assert (within (temp +:+ ".tmp") q = false) as Htmp
    by (apply Hout; unfold save_paths; set_solver).
  assert (q ≠ p) as Hp
    by (apply outside_ne, Hout; unfold save_paths; set_solver).
  assert (q ≠ temp) as Hqt by (by apply outside_ne).
  apply hoare_reply_to_source_context;
    [apply quiet_disk_only|intros r; apply quiet_disk_only|].
  apply hoare_inv_bind; [by apply hoare_inv_unchanged|]. intros d.
  apply hoare_inv_bind; [by apply hoare_inv_clear_temp|].
  intros []. cbv zeta.
  apply hoare_inv_bind; [by apply hoare_inv_unchanged|]. intros d1.
  apply hoare_inv_bind; [apply hoare_inv_merge_base, quiet_disk_only|].
  intros base.
  apply hoare_inv_bind; [by apply hoare_inv_unchanged|]. intros formatted_config.
  set (out := yaml_rt_dump formatted_config).
  eapply hoare_bind; [by apply (hoare_safe_write_aside w0 q temp out)| |].
  2:{ by intros e w [Hw _]. }
  intros [].
  eapply hoare_conseq with
    (P' := λ w, quiet w0 q w ∧ disk w !! temp = Some (File (dumped out)));
    [|intros w [Hw Hok]; by destruct (Hok eq_refl)|intros r w Hw; exact Hw].
  eapply hoare_try_except_else with
    (Q := λ r w, quiet w0 q w ∧ disk w !! temp = Some (File (dumped out))).
  - apply hoare_inv_bind; [apply hoare_inv_unchanged, lf_read_unchanged|].
    intros text. apply hoare_inv_bind; [by apply hoare_inv_unchanged|].
    intros data. by apply hoare_inv_unchanged.
  - intros _. by apply hoare_replace_aside.
  - intros e He.
    eapply hoare_conseq with (P' := quiet w0 q);
      [|by intros w [Hw _]|intros r w Hw; exact Hw].
    apply hoare_inv_bind; [apply hoare_inv_log, quiet_disk_only|]. intros [].
    apply hoare_inv_bind; [apply hoare_inv_log, quiet_disk_only|]. intros [].
    exact Hagain.
  - by intros e w He [Hw _].
Qed.

(** X20. [save] touches nothing but its own four paths (and what lies
    below them) and the log file: every other path, taken as the string
    it is, holds the same thing in every state the disk goes through and
    at the end, whether [save] returns or raises. *)
Theorem save_touches_only_its_own_paths (self : configuration) (p q : string)
    (print_to_console : bool) (source_to_reply : option source) (w : world) :
  file_path self = Some p →
  (∀ t, t ∈ save_paths p → within t q = false) →
  q ≠ log_file_path →
  let run := save no_args self print_to_console source_to_reply w in
  disk run.2 !! q = disk w !! q ∧
  ∃ hs, history run.2 = history w ++ hs ∧
        Forall (λ dd : fs, dd !! q = disk w !! q) hs.
Proof.
  intros Hpath Hout _ run.
  assert (hoare (quiet w q) (save no_args self print_to_console source_to_reply)
            (λ _ w', quiet w q w')) as Hsave.
  { unfold save. rewrite Hpath. intros w' Hw'.
    erewrite bind_ok; [|reflexivity].
    assert (within p q = false) as Hp by (apply Hout; unfold save_paths; set_solver).
    pose proof (hoare_frame_formatted w q p self print_to_console source_to_reply
                  (_save no_args 1 self p print_to_console source_to_reply) Hout
                  (hoare_frame_fallback w q p self print_to_console source_to_reply
                     (_save no_args 0 self p print_to_console source_to_reply) Hout))
      as Hinner.
    destruct (isdir (disk w') p).
    - erewrite bind_ok; [|apply put_disk_run]. apply Hinner.
      apply quiet_with_disk; [done|by apply rmtree_lookup_outside|].
      apply Forall_cons. split; [by apply rmtree_lookup_outside|done].
    - erewrite bind_ok; [|reflexivity]. by apply Hinner. }
  destruct (Hsave w (quiet_refl w q)) as [Hhs Hd]. by split.
Qed.

(** X23. Only [TypeError] and [ValueError] lead to the fallback.  When
    the round trip on the written text raises anything else (the parser's
    own error, for one), [save] raises it: the destination holds what it
    held, nothing is logged, and the temporary file stays behind with
    the text. *)
Theorem save_propagates_other_validation_errors (self : configuration) (p : string)
    (print_to_console : bool) (source_to_reply : option source) (w : world)
    (base formatted_config : fdoc) (e : exn) :
  file_path self = Some p →
  disk w !! p ≠ Some Dir →
  merge_base self (disk w !! p) = Ok base →
  overlay base (inst_serialize (fields self)) = Ok formatted_config →
  dump_error (yaml_rt_dump formatted_config) = None →
  validate (dumped (yaml_rt_dump formatted_config)) = Raise e →
  is_value_or_type_error e = false →
  let run := save no_args self print_to_console source_to_reply w in
  run.1 = Raise e ∧
  disk run.2 !! p = disk w !! p ∧
  disk run.2 !! config_temp_path_of p
  = Some (File (dumped (yaml_rt_dump formatted_config))) ∧
  replies run.2 = replies w ∧
  log_record (the_logger run.2) = log_record (the_logger w).
Proof.
  intros Hpath Hdir Hbase Hoverlay Hdump Hval He run. subst run.
  unfold save. rewrite Hpath. erewrite bind_ok; [|reflexivity].
  assert (isdir (disk w) p = false) as ->.
  { unfold isdir. by destruct (disk w !! p) as [[c|]|]. }
  erewrite bind_ok; [|reflexivity].
  change (_save no_args 2 self p print_to_console source_to_reply false w)
    with (_save_body no_args self p print_to_console source_to_reply
            (_save no_args 1 self p print_to_console source_to_reply) false w).
  destruct (save_formatted_written no_args self p print_to_console source_to_reply
              (_save no_args 1 self p print_to_console source_to_reply)
              w base formatted_config Hbase Hoverlay Hdump)
    as (d' & hs & Hp & Htemp & Hrest).
  erewrite Hrest.
  2:{ unfold try_except_else. erewrite validation_run by exact Htemp.
      rewrite Hval, He. reflexivity. }
  done.
Qed.

End SaveMore.

(** Saving [a = 7] over a file that holds [a: 1]. *)
Lemma save_writes_formatted_document_witness :
  let w := world_with "config.yml" (String.append "a: 1" (String LF "")) in
  let run := @save py_host mini_yaml config_a bare_psi tt a_instance true None w in
  run.1 = Ok tt ∧
  disk run.2 !! "config.yml"
  = Some (File (dumped (@yaml_rt_dump py_host mini_yaml (VDict [("a", VInt 7)])))) ∧
  disk run.2 !! config_temp_path_of "config.yml" = None ∧
  replies run.2 = replies w ∧
  log_record (the_logger run.2) = log_record (the_logger w) ∧
  console run.2
  = console w ++
    (if isfile (disk w) "config.yml" then []
     else @template_lines py_host mini_yaml config_a bare_psi a_instance).
Proof.
  apply (@save_writes_formatted_document py_host mini_yaml config_a bare_psi tt
           a_instance "config.yml" true None
           (world_with "config.yml" (String.append "a: 1" (String LF "")))
           (VDict [("a", VInt 1)]) (VDict [("a", VInt 7)])
           ([("a", VInt 7)] : dict Empty_set)).
  - reflexivity.
  - reflexivity.
  - reflexivity.
  - reflexivity.
  - reflexivity.
Defined.

Lemma save_touches_only_its_own_paths_witness :
  let w := world_with "server.properties" "motd=hi" in
  let run := @save py_host mini_yaml config_a bare_psi tt a_instance true None w in
  disk run.2 !! "server.properties" = disk w !! "server.properties" ∧
  ∃ hs, history run.2 = history w ++ hs ∧
        Forall (λ dd : fs, dd !! "server.properties" = disk w !! "server.properties") hs.
Proof.
  apply (@save_touches_only_its_own_paths py_host mini_yaml config_a bare_psi tt
           a_instance "config.yml" "server.properties" true None
           (world_with "server.properties" "motd=hi")).
  - reflexivity.
  - intros t Ht. unfold save_paths in Ht.
    repeat (apply elem_of_cons in Ht as [->|Ht]); try reflexivity.
    by apply elem_of_nil in Ht.
  - discriminate.
Defined.

(** The text written is not one the safe loader reads: [YAMLError]. *)
Lemma save_propagates_other_validation_errors_witness :
  let run := @save py_host flow_yaml config_a bare_psi tt a_instance true None
               empty_world in
  run.1 = Raise YAMLError ∧
  disk run.2 !! "config.yml" = disk empty_world !! "config.yml" ∧
  disk run.2 !! config_temp_path_of "config.yml" = Some (File "{a: 7}") ∧
  replies run.2 = replies empty_world ∧
  log_record (the_logger run.2) = log_record (the_logger empty_world).
Proof.
  apply (@save_propagates_other_validation_errors py_host flow_yaml config_a bare_psi
           tt a_instance "config.yml" true None empty_world
           (VDict []) (VDict [("a", VInt 7)]) YAMLError).
  - reflexivity.
  - vm_compute. discriminate.
  - reflexivity.
  - reflexivity.
  - reflexivity.
  - reflexivity.
  - reflexivity.
Defined.

(** ** Loading a file that can be read *)

Section LoadMore.
Context `{HH : Host} `{!Yaml} `{!ConfigClass} `{!Psi}.
Context (no_args : targs).

Lemma bind_raise {A B} (m : io A) (f : A → io B) (w w' : world) e :
  m w = (Raise e, w') → (m ≫= f) w = (Raise e, w').
Proof. intros Hm. unfold mbind, io_bind. by rewrite Hm. Qed.

Lemma finally_fst {A} (body : io A) (final : io unit) (w : world) :
  (∀ w', (final w').1 = Ok tt) → (try_finally body final w).1 = (body w).1.
Proof.
  intros Hfinal. unfold try_finally. destruct (body w) as [r w'].
  specialize (Hfinal w'). destruct (final w') as [[[]|e] w'']; simpl in *; done.
Qed.

Lemma context_fst {A} verbose_ source_ (body : io A) (w : world) :
  (reply_to_source_context verbose_ source_ body w).1
  = (body (with_logger w (entered verbose_ source_ (the_logger w)))).1.
Proof.
  destruct (body (with_logger w (entered verbose_ source_ (the_logger w))))
    as [r w'] eqn:Hbody.
  by rewrite (context_run _ _ _ _ _ _ Hbody).
Qed.

(** X21. A file that needs no repair is only read: when the document
    is a mapping in which [_fix_data] finds nothing to repair and which
    deserializes, [load] returns that configuration (as [after_load]
    leaves it), no file but the log file is ever written, the only
    message is ["Config loaded"], and the logger of the configuration
    is left printing to the console. *)
Theorem load_clean_file_only_logs (file_path : string)
    (bundled_template_path : option string) (in_data_folder print_to_console : bool)
    (source_to_reply : option source) (w : world) (text : string)
    (d fixed_dict : dict pyobj) (i i' : inst) :
  let path :=
    if in_data_folder then path_join get_data_folder file_path else file_path in
  disk w !! path = Some (File text) →
  yaml_safe_load (normalized text) = Ok (VDict d) →
  _fix_data cls_schema (VDict d) [] = Ok (fixed_dict, []) →
  cls_deserialize (VDict fixed_dict) = Ok i →
  after_load i = Ok i' →
  let run := load no_args file_path bundled_template_path in_data_folder
               print_to_console source_to_reply w in
  run.1 = Ok {| fields := i'; file_path := Some path;
                bundled_template_path := bundled_template_path;
                reloader := None |} ∧
  only_logged w run.2 ∧
  log_record (the_logger run.2) = [tr no_args "Config loaded"] ∧
  verbose (the_logger run.2) = Some true ∧
  replies run.2
  = replies w ++
    match source_to_reply with
    | Some s => [(s, tr no_args "Config loaded")]
    | None => []
    end ∧
  console run.2
  = console w ++
    (if print_to_console
     then [{| line_level := INFO; line_msg := tr no_args "Config loaded";
              line_exc := None |}]
     else []).
Proof.
  intros path Hfile Hparse Hfix Hdes Hafter run. subst run.
  unfold load, record_context, reply_to_source_context, lf_read. fold path.
  io_simpl. unfold read_text. rewrite Hfile. io_simpl.
  unfold normalized in Hparse. rewrite Hparse. io_simpl. rewrite Hfix. io_simpl.
  rewrite bool_decide_eq_false_2 by (intros Hne; by apply Hne). io_simpl.
  rewrite Hdes. io_simpl. cbn [fields]. rewrite Hafter. io_simpl.
  unfold info, log. io_simpl.
  destruct source_to_reply, print_to_console; io_simpl;
    rewrite ?app_nil_r; split_and!; try done; by apply only_logged_same.
Qed.


Lemma record_context_snd {A} verbose_ source_ (body : io A) (w : world) :
  let inside :=
    with_logger w
      (entered verbose_ source_
         {| verbose := verbose (the_logger w);
            cached_verbose := cached_verbose (the_logger w);
            src := src (the_logger w); recording := true; log_record := [] |}) in
  the_logger (record_context verbose_ source_ body w).2
  = {| verbose := cached_verbose (the_logger (body inside).2);
       cached_verbose := None; src := None; recording := false;
       log_record := log_record (the_logger (body inside).2) |}.
Proof.
  intros inside. unfold record_context. erewrite bind_ok; [|reflexivity].
  destruct (body inside) as [r w'] eqn:Hbody.
  erewrite finally_run; [|apply context_run; exact Hbody|reflexivity].
  done.
Qed.

(** [save] leaves its context: no verbosity is kept aside, no source is
    attached. *)
Lemma save_leaves_context (self : configuration) (p : string)
    (print_to_console : bool) (source_to_reply : option source) (w : world) :
  file_path self = Some p →
  cached_verbose
    (the_logger (save no_args self print_to_console source_to_reply w).2) = None.
Proof.
  intros Hpath. unfold save. rewrite Hpath. erewrite bind_ok; [|reflexivity].
  assert (∀ w0, cached_verbose
                  (the_logger
                     (_save no_args 2 self p print_to_console source_to_reply false
                        w0).2) = None) as Hinner.
  { intros w0. cbn [_save]. unfold _save_body. cbv zeta.
    lazymatch goal with
    | |- cached_verbose (the_logger (reply_to_source_context _ _ ?b _).2) = _ =>
      set (body := b)
    end.
    destruct (body (with_logger w0 (entered print_to_console source_to_reply
                                      (the_logger w0)))) as [r w'] eqn:Hb.
    by rewrite (context_run _ _ _ _ _ _ Hb). }
  destruct (isdir (disk w) p).
  - erewrite bind_ok; [|apply put_disk_run]. apply Hinner.
  - erewrite bind_ok; [|reflexivity]. apply Hinner.
Qed.

(** X24. A [load] that has to save leaves the logger of the
    configuration mute.  [save] enters [reply_to_source_context] inside
    the one [load] is in, on the same logger, so that the verbosity kept
    aside is lost: whether the file could not be read, was repaired, or
    was not deserialized, and whether [load] returns or raises,
    [verbose] is [None] afterwards. *)
Theorem load_that_saves_mutes_logger (file_path : string)
    (bundled_template_path : option string) (in_data_folder print_to_console : bool)
    (source_to_reply : option source) (w : world) :
  let path :=
    if in_data_folder then path_join get_data_folder file_path else file_path in
  ((∃ e, read_text (disk w) path = Raise e) ∨
   (∃ text e, disk w !! path = Some (File text) ∧
              yaml_safe_load (normalized text) = Raise e) ∨
   (∃ text d fixed_dict nodes_require_save,
      disk w !! path = Some (File text) ∧
      yaml_safe_load (normalized text) = Ok (VDict d) ∧
      _fix_data cls_schema (VDict d) [] = Ok (fixed_dict, nodes_require_save) ∧
      (nodes_require_save ≠ [] ∨
       ∃ e, cls_deserialize (VDict fixed_dict) = Raise e))) →
  let run := load no_args file_path bundled_template_path in_data_folder
               print_to_console source_to_reply w in
  verbose (the_logger run.2) = None ∧
  src (the_logger run.2) = None ∧
  recording (the_logger run.2) = false.
Proof.
  intros path Hcase run. subst run.
  unfold load. erewrite bind_ok; [|reflexivity].
  rewrite record_context_snd. cbn [verbose src recording].
  split; [|done].
  set (root := with_logger
                 (with_logger w {| verbose := Some true; cached_verbose := None;
                                   src := None; recording := true; log_record := [] |})
                 (entered print_to_console source_to_reply
                    {| verbose := Some true; cached_verbose := None;
                       src := None; recording := true; log_record := [] |})).
  match goal with |- cached_verbose (the_logger (_ ?W).2) = _ => change W with root end.
  fold path. cbv zeta.
  match goal with
  | |- context [@try_except_else _ ?A (dict pyobj * bool)%type ?b ?h ?hd ?oe] =>
    assert (∃ result_config needs_save wa,
              @try_except_else _ A (dict pyobj * bool)%type b h hd oe root
              = (Ok (result_config, needs_save), wa) ∧
              (needs_save = true ∨
               ∃ e, cls_deserialize (VDict result_config) = Raise e))
      as (result_config & needs_save & wa & Hfirst & Hneeds)
  end.
  { unfold try_except_else.
    destruct Hcase as [[e Hread]|[(text & e & Hfile & Hparse)|
                       (text & d & fixed_dict & ns & Hfile & Hparse & Hfix & Hneeds)]].
    - erewrite bind_raise.
      2:{ unfold lf_read. erewrite bind_ok; [|reflexivity].
          erewrite bind_raise; [done|]. unfold lift. cbn [disk root with_logger].
          by rewrite Hread. }
      cbn [any_exception]. erewrite bind_ok; [|apply delete_run].
      erewrite bind_ok; [|apply warn_run]. eexists _, _, _. split; [done|by left].
    - erewrite bind_ok; [|by apply lf_read_run]. unfold lift at 1. rewrite Hparse.
      cbn [any_exception]. erewrite bind_ok; [|apply delete_run].
      erewrite bind_ok; [|apply warn_run]. eexists _, _, _. split; [done|by left].
    - erewrite bind_ok; [|by apply lf_read_run]. unfold lift at 1. rewrite Hparse.
      erewrite bind_ok; [|unfold lift; by rewrite Hfix].
      cbn beta iota. case_bool_decide as Hns.
      + erewrite bind_ok; [|apply warn_run]. erewrite bind_ok; [|apply warn_run].
        eexists _, _, _. split; [done|by left].
      + eexists _, _, _. split; [done|]. destruct Hneeds as [Hne|He]; [done|by right]. }
  erewrite bind_ok; [|exact Hfirst]. clear Hfirst. cbn beta iota.
  match goal with
  | |- context [@try_except_else _ ?A (inst * bool)%type ?b ?h ?hd ?oe] =>
    assert (∃ fields0 w1,
              @try_except_else _ A (inst * bool)%type b h hd oe wa
              = (Ok (fields0, true), w1)) as (fields0 & w1 & Hsecond)
  end.
  { unfold try_except_else, lift.
    destruct (cls_deserialize (VDict result_config)) as [i|e] eqn:Hdes.
    - destruct Hneeds as [->|[e He]]; [|done]. by eexists _, _.
    - cbn [any_exception]. erewrite bind_ok; [|apply warn_run]. by eexists _, _. }
  erewrite bind_ok; [|exact Hsecond]. clear Hsecond. cbn beta iota.
  match goal with
  | |- context [save no_args ?c _ _] => set (config := c)
  end.
  pose proof (save_leaves_context config path print_to_console source_to_reply w1
                eq_refl) as Hsaved.
  destruct (save no_args config print_to_console source_to_reply w1)
    as [[[]|e'] w2] eqn:Hsave; cbn [snd] in Hsaved.
  - erewrite bind_ok; [|exact Hsave].
    destruct (after_load _) as [fields'|e''] eqn:Hafter.
    + erewrite bind_ok; [|reflexivity].
      unfold info. erewrite bind_ok; [|apply log_run]. cbn [snd mret io_ret].
      destruct (after_log_flags INFO (tr no_args "Config loaded") None w2)
        as (_ & -> & _). done.
    + erewrite bind_raise; [|reflexivity]. done.
  - erewrite bind_raise; [|exact Hsave]. done.
Qed.

End LoadMore.

(** The file holds [a: 7], the class is [a: int = 5]. *)
Lemma load_clean_file_only_logs_witness :
  let w := world_with "config/my_plugin/config.yml" (String.append "a: 7" (String LF "")) in
  let run := @load py_host mini_yaml config_a bare_psi tt "config.yml" None true true
               None w in
  run.1 = Ok {| fields := ([("a", VInt 7)] : dict Empty_set) : @inst py_host config_a;
                file_path := Some "config/my_plugin/config.yml";
                bundled_template_path := None; reloader := None |} ∧
  only_logged w run.2 ∧
  log_record (the_logger run.2) = [@tr bare_psi tt "Config loaded"] ∧
  verbose (the_logger run.2) = Some true ∧
  replies run.2 = replies w ++ [] ∧
  console run.2
  = console w ++
    [{| line_level := INFO; line_msg := @tr bare_psi tt "Config loaded";
        line_exc := None |}].
Proof.
  apply (@load_clean_file_only_logs py_host mini_yaml config_a bare_psi tt
           "config.yml" None true true None
           (world_with "config/my_plugin/config.yml"
              (String.append "a: 7" (String LF "")))
           (String.append "a: 7" (String LF ""))
           [("a", VInt 7)] [("a", VInt 7)]
           ([("a", VInt 7)] : dict Empty_set) ([("a", VInt 7)] : dict Empty_set)).
  - reflexivity.
  - reflexivity.
  - reflexivity.
  - reflexivity.
  - reflexivity.
Defined.



(** No file at the path: the default configuration is saved. *)
Lemma load_that_saves_mutes_logger_witness :
  let run := @load py_host mini_yaml config_a bare_psi tt "config.yml" None true true
               None empty_world in
  verbose (the_logger run.2) = None ∧
  src (the_logger run.2) = None ∧
  recording (the_logger run.2) = false.
Proof.
  apply (@load_that_saves_mutes_logger py_host mini_yaml config_a bare_psi tt
           "config.yml" None true true None empty_world).
  left. exists OSError. reflexivity.
Defined.

(** ** The temporary file of [save] *)

Lemma has_slash_append (a b : string) :
  has_slash (a +:+ b) = has_slash a || has_slash b.
Proof.
  induction a as [|c a IH]; [done|]. rewrite append_cons. simpl.
  by rewrite IH, orb_assoc.
Qed.

Lemma basename_no_slash (p : string) : has_slash (basename p) = false.
Proof.
  induction p as [|c p IH]; [done|]. simpl.
  destruct (has_slash p) eqn:Hp; [done|].
  destruct (is_slash c) eqn:Hc; [done|]. simpl. by rewrite Hc, Hp.
Qed.

Lemma path_head_no_slash (b : string) : has_slash b = false → path_head b = "".
Proof.
  destruct b as [|c b]; [done|]. simpl. intros Hb.
  apply orb_false_iff in Hb as [Hc Hb]. by rewrite Hb, Hc.
Qed.

Lemma path_head_append (a b : string) :
  has_slash b = false → path_head (a +:+ b) = path_head a.
Proof.
  intros Hb. induction a as [|c a IH]; [by apply path_head_no_slash|].
  rewrite append_cons. simpl. rewrite has_slash_append, Hb, orb_false_r.
  by rewrite IH.
Qed.

Lemma ends_with_slash_has_slash (a : string) :
  ends_with_slash a = true → has_slash a = true.
Proof.
  induction a as [|c a IH]; [done|]. simpl.
  destruct a as [|c' a]; [intros ->; done|].
  intros Ha. rewrite (IH Ha). apply orb_true_r.
Qed.

Lemma path_head_ends_with_slash (a : string) :
  ends_with_slash a = true → path_head a = a.
Proof.
  induction a as [|c a IH]; [done|]. intros Ha.
  destruct a as [|c' a].
  - simpl in *. by rewrite Ha.
  - change (ends_with_slash (String c (String c' a)))
      with (ends_with_slash (String c' a)) in Ha.
    change (path_head (String c (String c' a)))
      with (if has_slash (String c' a) then String c (path_head (String c' a))
            else if is_slash c then String c "" else "").
    rewrite (ends_with_slash_has_slash _ Ha). by rewrite (IH Ha).
Qed.

Lemma ends_with_slash_snoc (a : string) : ends_with_slash (a +:+ "/") = true.
Proof.
  induction a as [|c a IH]; [done|]. rewrite append_cons.
  destruct a as [|c' a]; [done|]. rewrite append_cons in *. exact IH.
Qed.

Lemma append_inv_head (a b b' : string) : a +:+ b = a +:+ b' → b = b'.
Proof.
  induction a as [|c a IH]; [done|]. rewrite !append_cons. intros [= Heq]. auto.
Qed.

Lemma basename_append (a b : string) :
  has_slash b = false → a = "" ∨ ends_with_slash a = true →
  basename (a +:+ b) = b.
Proof.
  intros Hb Ha. pose proof (path_head_basename (a +:+ b)) as Hsplit.
  rewrite path_head_append in Hsplit by done.
  destruct Ha as [->|Ha].
  - by rewrite append_nil_l in *.
  - rewrite (path_head_ends_with_slash _ Ha) in Hsplit.
    by apply append_inv_head in Hsplit.
Qed.

Lemma all_slashes_ends (a : string) :
  all_slashes a = true → a = "" ∨ ends_with_slash a = true.
Proof.
  induction a as [|c a IH]; [by left|]. simpl. intros Ha.
  apply andb_true_iff in Ha as [Hc Ha]. right.
  destruct a as [|c' a]; [done|]. by destruct (IH Ha).
Qed.

Lemma all_slashes_snoc (a : string) : all_slashes (a +:+ "/") = all_slashes a.
Proof.
  induction a as [|c a IH]; [done|]. rewrite append_cons. simpl. by rewrite IH.
Qed.

Lemma rstrip_slashes_ends (a : string) : ends_with_slash (rstrip_slashes a) = false.
Proof.
  induction a as [|c a IH]; [done|]. cbn [rstrip_slashes].
  destruct (all_slashes (String c a)) eqn:Hall; [done|].
  destruct (rstrip_slashes a) as [|c' r] eqn:Hr.
  - simpl. destruct (is_slash c) eqn:Hc; [|done].
    simpl in Hall. rewrite Hc in Hall. simpl in Hall.
    assert (all_slashes a = true) as Ha.
    { clear -Hr. induction a as [|x a IH]; [done|]. cbn [rstrip_slashes] in Hr.
      by destruct (all_slashes (String x a)). }
    congruence.
  - exact IH.
Qed.

Lemma rstrip_slashes_snoc (a : string) :
  ends_with_slash a = false → rstrip_slashes (a +:+ "/") = a.
Proof.
  induction a as [|c a IH]; [done|]. intros Ha. rewrite append_cons.
  cbn [rstrip_slashes].
  assert (all_slashes (String c (a +:+ "/")) = false) as ->.
  { destruct (all_slashes (String c (a +:+ "/"))) eqn:Hall; [|done].
    simpl in Hall. rewrite all_slashes_snoc in Hall.
    destruct (all_slashes_ends (String c a)) as [?|Hends]; [done|done|congruence]. }
  f_equal. destruct a as [|c' a]; [done|]. by apply IH.
Qed.

Lemma dirname_ends (p : string) :
  ends_with_slash (dirname p) = true → all_slashes (dirname p) = true.
Proof.
  unfold dirname.
  destruct (negb (String.eqb (path_head p) "") && negb (all_slashes (path_head p)))
    eqn:Hcase.
  - by rewrite rstrip_slashes_ends.
  - intros Hends. apply andb_false_iff in Hcase as [Hcase|Hcase].
    + apply negb_false_iff, String.eqb_eq in Hcase. by rewrite Hcase in Hends.
    + by apply negb_false_iff in Hcase.
Qed.

(** X25. The temporary file of [save] is a sibling of the destination:
    it lies in the same directory and is named [temp_] followed by the
    name of the destination; it is never the destination itself. *)
Theorem config_temp_path_is_sibling (p : string) :
  basename (config_temp_path_of p) = "temp_" +:+ basename p ∧
  dirname (config_temp_path_of p) = dirname p ∧
  config_temp_path_of p ≠ p.
Proof.
  assert (has_slash ("temp_" +:+ basename p) = false) as Hname.
  { rewrite has_slash_append, basename_no_slash. done. }
  assert (∃ a, config_temp_path_of p = a +:+ ("temp_" +:+ basename p) ∧
               (a = "" ∨ ends_with_slash a = true) ∧
               (if String.eqb (dirname p) "" || ends_with_slash (dirname p)
                then a = dirname p else a = dirname p +:+ "/"))
    as (a & Ha & Hends & Hdir).
  { unfold config_temp_path_of, path_join.
    change (startswith ("temp_" +:+ basename p) "/") with false. cbv iota.
    destruct (String.eqb (dirname p) "" || ends_with_slash (dirname p)) eqn:Hcase.
    - exists (dirname p). split; [done|]. split; [|done].
      apply orb_true_iff in Hcase as [Hcase|Hcase]; [|by right].
      left. by apply String.eqb_eq.
    - exists (dirname p +:+ "/"). split; [by rewrite append_assoc|].
      split; [|done]. right. apply ends_with_slash_snoc. }
  split; [|split].
  - rewrite Ha. by apply basename_append.
  - rewrite Ha. unfold dirname at 1. rewrite path_head_append by done.
    destruct (String.eqb (dirname p) "" || ends_with_slash (dirname p)) eqn:Hcase;
      subst a.
    + apply orb_true_iff in Hcase as [Hcase|Hcase].
      * apply String.eqb_eq in Hcase. by rewrite Hcase.
      * rewrite (path_head_ends_with_slash _ Hcase).
        by rewrite (dirname_ends _ Hcase), andb_false_r.
    + apply orb_false_iff in Hcase as [Hne Hcase].
      rewrite (path_head_ends_with_slash _ (ends_with_slash_snoc _)).
      rewrite all_slashes_snoc.
      assert (all_slashes (dirname p) = false) as ->.
      { destruct (all_slashes (dirname p)) eqn:Hall; [|done].
        destruct (all_slashes_ends _ Hall) as [Hempty|Hends']; [|congruence].
        by rewrite Hempty in Hne. }
      assert (String.eqb (dirname p +:+ "/") "" = false) as ->.
      { by destruct (dirname p). }
      cbn [negb andb]. by apply rstrip_slashes_snoc.
  - apply not_eq_sym, outside_ne, config_temp_outside.
Qed.
